(** * Verification of [send_webex_notifications.py]

    A shallow embedding of the bulk notifier: the recipient loader
    ([load_emails]), the card renderer ([_deep_replace_placeholders],
    [_is_blank], [_prune], [load_card_json]), the batch and retry loop of
    [main] with [chunked], and the log opener ([ensure_log_writer]).

    Conventions of the embedding.
    - A Python [str] is a [string]; each [ascii] stands for one code point
      below 256, so whitespace and case folding are those of Python on that
      range.
    - A Python [int] is a [Z].
    - A JSON document, and every Python value [json.load] can build, is a
      [json]; Python's [None] is [JNull].
    - A Python exception that the program does not catch is a [Raised]
      outcome; [SystemExit] is one of them.
    - Effects (transport calls, pauses, log rows) are recorded in a trace
      that survives a raised exception. *)

From Stdlib Require Import String Ascii List ZArith Lia Bool Arith.
Import ListNotations.
Local Open Scope string_scope.
Local Open Scope list_scope.
Local Open Scope nat_scope.

(* ===================================================================== *)
(** * Python strings *)
(* ===================================================================== *)

Module PyStr.

(** [c.isspace()] for a code point below 256. *)
Definition is_space (c : ascii) : bool :=
  let n := nat_of_ascii c in
  ((9 <=? n) && (n <=? 13)) || ((28 <=? n) && (n <=? 32))
  || (n =? 133) || (n =? 160).

(** [c.lower()] for a code point below 256. *)
Definition lower_char (c : ascii) : ascii :=
  let n := nat_of_ascii c in
  if ((65 <=? n) && (n <=? 90))
     || ((192 <=? n) && (n <=? 214))
     || ((216 <=? n) && (n <=? 222))
  then ascii_of_nat (n + 32) else c.

Fixpoint lower (s : string) : string :=
  match s with
  | EmptyString => EmptyString
  | String c s' => String (lower_char c) (lower s')
  end.

Fixpoint lstrip (s : string) : string :=
  match s with
  | EmptyString => EmptyString
  | String c s' => if is_space c then lstrip s' else s
  end.

Fixpoint rstrip (s : string) : string :=
  match s with
  | EmptyString => EmptyString
  | String c s' =>
      match rstrip s' with
      | EmptyString => if is_space c then EmptyString else String c EmptyString
      | r => String c r
      end
  end.

(** [s.strip()] *)
Definition strip (s : string) : string := rstrip (lstrip s).

(** [s.startswith(p)] *)
Definition startswith (s p : string) : bool := String.prefix p s.

(** [needle in hay] *)
Fixpoint contains (needle hay : string) : bool :=
  match hay with
  | EmptyString => String.prefix needle EmptyString
  | String _ hay' => String.prefix needle hay || contains needle hay'
  end.

(** [s[:n]] *)
Fixpoint take (n : nat) (s : string) : string :=
  match n, s with
  | S n', String c s' => String c (take n' s')
  | _, _ => EmptyString
  end.

Fixpoint map_chars (f : ascii -> ascii) (s : string) : string :=
  match s with
  | EmptyString => EmptyString
  | String c s' => String (f c) (map_chars f s')
  end.

Definition newline : ascii := ascii_of_nat 10.
Definition carriage_return : ascii := ascii_of_nat 13.
Definition space : ascii := ascii_of_nat 32.

(** [s.replace("\n", " ")]: a one-character pattern with a one-character
    replacement is a map over the characters. *)
Definition flatten_newlines (s : string) : string :=
  map_chars (fun c => if Ascii.eqb c newline then space else c) s.

(** [s.replace(old, new)] scans left to right and replaces the
    non-overlapping occurrences of [old].  [skip] counts the characters of
    an occurrence that is being passed over.  For an empty [old] Python
    puts [new] before every character and at the end. *)
Fixpoint replace_from (old new : string) (skip : nat) (s : string) : string :=
  match s with
  | EmptyString => EmptyString
  | String c s' =>
      match skip with
      | S k => replace_from old new k s'
      | O =>
          if String.prefix old s
          then (new ++ replace_from old new (String.length old - 1) s')%string
          else String c (replace_from old new 0 s')
      end
  end.

Fixpoint intersperse (new s : string) : string :=
  match s with
  | EmptyString => new
  | String c s' => (new ++ String c (intersperse new s'))%string
  end.

Definition replace (s old new : string) : string :=
  match old with
  | EmptyString => intersperse new s
  | _ => replace_from old new 0 s
  end.

(** [f.readline()] on a file opened with [newline=""]: the line ends at
    the first ["\n"], ["\r"] or ["\r\n"], which is kept. *)
Fixpoint readline (s : string) : string :=
  match s with
  | EmptyString => EmptyString
  | String c s' =>
      if Ascii.eqb c newline then String c EmptyString
      else if Ascii.eqb c carriage_return then
        match s' with
        | String c' _ =>
            if Ascii.eqb c' newline
            then String c (String c' EmptyString)
            else String c EmptyString
        | EmptyString => String c EmptyString
        end
      else String c (readline s')
  end.

(** Truth value of a string: [bool(s)]. *)
Definition nonempty (s : string) : bool :=
  match s with EmptyString => false | _ => true end.

(** A string that is empty or starts with a character that is not
    whitespace. *)
Definition clean_head (s : string) : Prop :=
  match s with
  | EmptyString => True
  | String c _ => is_space c = false
  end.

(** No character of [s] is [c]. *)
Fixpoint free_of (c : ascii) (s : string) : Prop :=
  match s with
  | EmptyString => True
  | String d s' => d <> c /\ free_of c s'
  end.

End PyStr.

(* ===================================================================== *)
(** * Recipient loader *)
(* ===================================================================== *)

Module Loader.
Import PyStr.

(** A row produced by [csv.reader]. *)
Definition csv_row := list string.

(** The dict that [csv.DictReader] builds for one row: [zip(fieldnames,
    row)], then [restval = None] for every field name beyond the row.  A
    later pair overwrites an earlier one with the same key.  The entry
    under [restkey = None] holds the surplus cells and is never looked up
    by a string key, so it is left out. *)
Fixpoint zip_row (fieldnames row : list string) : list (string * option string) :=
  match fieldnames, row with
  | k :: ks, v :: vs => (k, Some v) :: zip_row ks vs
  | ks, [] => map (fun k => (k, None)) ks
  | [], _ => []
  end.

(** [d.get(key)] on that dict: the last pair written under [key]; [None]
    when the key is missing and when the stored value is [None]. *)
Definition scan (key : string) (acc : option string) (kv : string * option string)
  : option string :=
  if String.eqb (fst kv) key then snd kv else acc.

Definition row_get (key : string) (d : list (string * option string)) : option string :=
  fold_left (scan key) d None.

(** [a or b] where [a] is a [str] or [None]. *)
Definition or_else (a : option string) (b : option string) : option string :=
  match a with
  | Some s => if nonempty s then a else b
  | None => b
  end.

Definition is_empty_row (r : csv_row) : bool :=
  match r with [] => true | _ => false end.

(** Iterating a [csv.DictReader]: the first row of the reader gives the
    field names; empty rows are skipped; every other row becomes a dict. *)
Definition dict_reader (rows : list csv_row) : list (list (string * option string)) :=
  match rows with
  | [] => []
  | fieldnames :: rest =>
      map (zip_row fieldnames) (filter (fun r => negb (is_empty_row r)) rest)
  end.

(** [(row.get("email") or row.get("Email") or row.get("EMAIL") or "").strip()] *)
Definition header_candidate (d : list (string * option string)) : string :=
  match or_else (row_get "email" d)
          (or_else (row_get "Email" d)
             (or_else (row_get "EMAIL" d) (Some ""))) with
  | Some s => strip s
  | None => strip ""
  end.

(** [email and "@" in email] *)
Definition accepted (email : string) : bool :=
  nonempty email && contains "@" email.

Definition header_branch (rows : list csv_row) : list string :=
  filter accepted (map header_candidate (dict_reader rows)).

(** [row[0].strip()] for a row that is not empty. *)
Definition first_cell (r : csv_row) : string :=
  match r with
  | c :: _ => strip c
  | [] => EmptyString
  end.

Definition plain_accepted (email : string) : bool :=
  accepted email && negb (startswith (lower email) "email").

Definition plain_branch (rows : list csv_row) : list string :=
  filter plain_accepted
    (map first_cell (filter (fun r => negb (is_empty_row r)) rows)).

Definition mem (e : string) (seen : list string) : bool :=
  existsb (String.eqb e) seen.

(** The de-duplication loop, with its two accumulators. *)
Fixpoint dedup_loop (emails seen ordered : list string) : list string :=
  match emails with
  | [] => ordered
  | e :: rest =>
      if mem e seen then dedup_loop rest seen ordered
      else dedup_loop rest (e :: seen) (ordered ++ [e])
  end.

Definition dedup (emails : list string) : list string :=
  dedup_loop emails [] [].

Section WithReader.
(** [csv.reader] of the standard library, applied to the whole text of
    the file. *)
Variable csv_reader : string -> list csv_row.

Definition candidates (content : string) : list string :=
  let first_line := readline content in
  if contains "email" (lower first_line)
  then header_branch (csv_reader content)
  else plain_branch (csv_reader content).

Definition load_emails (content : string) : list string :=
  dedup (candidates content).
End WithReader.

(** A reader for files that hold neither quotes nor carriage returns: rows
    end at a newline, cells at a comma, an empty line gives the empty row.
    On such files it agrees with [csv.reader]. *)
Fixpoint split_cells (cur : string) (s : string) : list string :=
  match s with
  | EmptyString => [cur]
  | String c s' =>
      if Ascii.eqb c (ascii_of_nat 44) then cur :: split_cells EmptyString s'
      else split_cells (cur ++ String c EmptyString)%string s'
  end.

Fixpoint split_lines (cur : string) (s : string) : list string :=
  match s with
  | EmptyString => match cur with EmptyString => [] | _ => [cur] end
  | String c s' =>
      if Ascii.eqb c newline then cur :: split_lines EmptyString s'
      else split_lines (cur ++ String c EmptyString)%string s'
  end.

Definition simple_reader (content : string) : list csv_row :=
  map (fun line => match line with
                   | EmptyString => []
                   | _ => split_cells EmptyString line
                   end)
      (split_lines EmptyString content).

End Loader.

(* ===================================================================== *)
(** * Python values and outcomes *)
(* ===================================================================== *)

(** Exceptions that leave the program uncaught.  [OutOfFuel] belongs to the
    embedding alone: it marks a recursion that was given too little fuel and
    is shown never to come out of [_prune]. *)
Inductive exn : Type :=
| AttributeError
| TypeError
| ValueError
| SystemExit (msg : string)
| OutOfFuel.

Inductive outcome (A : Type) : Type :=
| Done (a : A)
| Raised (e : exn).
Arguments Done {A} a.
Arguments Raised {A} e.

Definition bind {A B : Type} (m : outcome A) (k : A -> outcome B) : outcome B :=
  match m with
  | Done a => k a
  | Raised e => Raised e
  end.

Declare Scope outcome_scope.
Delimit Scope outcome_scope with outcome.
Notation "x <- m ;; k" := (bind m (fun x => k))
  (at level 61, m at next level, right associativity) : outcome_scope.
Local Open Scope outcome_scope.

(** What [json.load] builds.  A float is [m * 2^e]; an object is the list
    of its items in insertion order, with pairwise distinct keys as in
    every Python dict. *)
#[warning="-register-all"]
Inductive json : Type :=
| JNull
| JBool (b : bool)
| JInt (z : Z)
| JFloat (m e : Z)
| JStr (s : string)
| JArr (items : list json)
| JObj (fields : list (string * json)).

Module PyVal.
Import PyStr.

(** [d.get(key)] as an option: the value stored under [key], if any. *)
Fixpoint lookup (key : string) (d : list (string * json)) : option json :=
  match d with
  | [] => None
  | (k, v) :: rest => if String.eqb k key then Some v else lookup key rest
  end.

(** [d.get(key, default)] *)
Definition get_default (key : string) (default : json) (d : list (string * json)) : json :=
  match lookup key d with
  | Some v => v
  | None => default
  end.

(** [d.get(key)] *)
Definition get (key : string) (d : list (string * json)) : json :=
  get_default key JNull d.

(** [d[key] = v]: the value is replaced where the key stands, a new key
    goes to the end. *)
Fixpoint dict_set (d : list (string * json)) (key : string) (v : json)
  : list (string * json) :=
  match d with
  | [] => [(key, v)]
  | (k, w) :: rest =>
      if String.eqb k key then (k, v) :: rest
      else (k, w) :: dict_set rest key v
  end.

(** [bool(v)] *)
Definition truthy (v : json) : bool :=
  match v with
  | JNull => false
  | JBool b => b
  | JInt z => negb (Z.eqb z 0)
  | JFloat m _ => negb (Z.eqb m 0)
  | JStr s => nonempty s
  | JArr l => match l with [] => false | _ => true end
  | JObj d => match d with [] => false | _ => true end
  end.

(** [v == s] for a string literal [s]. *)
Definition is_str (v : json) (s : string) : bool :=
  match v with
  | JStr t => String.eqb t s
  | _ => false
  end.

(** [isinstance(v, dict)] *)
Definition is_dict (v : json) : bool :=
  match v with JObj _ => true | _ => false end.

(** [isinstance(v, (dict, list))] *)
Definition is_container (v : json) : bool :=
  match v with JObj _ | JArr _ => true | _ => false end.

(** [v is None] *)
Definition is_none (v : json) : bool :=
  match v with JNull => true | _ => false end.

Fixpoint chars (s : string) : list json :=
  match s with
  | EmptyString => []
  | String c s' => JStr (String c EmptyString) :: chars s'
  end.

(** [for f in v]: the elements of a list, the characters of a string, the
    keys of a dict; anything else is not iterable. *)
Definition py_iter (v : json) : outcome (list json) :=
  match v with
  | JArr l => Done l
  | JStr s => Done (chars s)
  | JObj d => Done (map (fun kv => JStr (fst kv)) d)
  | _ => Raised TypeError
  end.

(** [len(v) == 0] *)
Definition len_is_zero (v : json) : outcome bool :=
  match v with
  | JArr l => Done (match l with [] => true | _ => false end)
  | JObj d => Done (match d with [] => true | _ => false end)
  | JStr s => Done (negb (nonempty s))
  | _ => Raised TypeError
  end.

(** [v.get(key)] on an arbitrary value: only a dict has [get]. *)
Definition py_get (v : json) (key : string) (default : json) : outcome json :=
  match v with
  | JObj d => Done (get_default key default d)
  | _ => Raised AttributeError
  end.

Fixpoint depth (v : json) : nat :=
  match v with
  | JArr l => S (fold_right (fun x acc => Nat.max (depth x) acc) 0 l)
  | JObj d => S (fold_right (fun (kv : string * json) acc =>
                               Nat.max (let (_, x) := kv in depth x) acc) 0 d)
  | _ => 0
  end.

End PyVal.

(* ===================================================================== *)
(** * Template renderer *)
(* ===================================================================== *)

Module Renderer.
Import PyStr PyVal.

(** [f"{{{{{k}}}}}"] *)
Definition token (k : string) : string := ("{{" ++ k ++ "}}")%string.

(** The loop over [variables.items()] on one string. *)
Definition substitute (variables : list (string * option string)) (value : string) : string :=
  fold_left
    (fun out kv =>
       replace out (token (fst kv))
         (match snd kv with Some v => v | None => EmptyString end))
    variables value.

Fixpoint _deep_replace_placeholders
  (value : json) (variables : list (string * option string)) : json :=
  match value with
  | JStr s => JStr (substitute variables s)
  | JArr l => JArr (map (fun x => _deep_replace_placeholders x variables) l)
  | JObj d =>
      JObj (map (fun kv : string * json => let (k, v) := kv in
                           (k, _deep_replace_placeholders v variables)) d)
  | _ => value
  end.

Definition _is_blank (s : json) : bool :=
  match s with
  | JNull => true
  | JStr t => String.eqb (strip t) EmptyString
  | _ => false
  end.

(** [(f or {}).get("value")] *)
Definition fact_value (f : json) : outcome json :=
  py_get (if truthy f then f else JObj []) "value" JNull.

(** [[f for f in facts if not _is_blank((f or {}).get("value"))]] over the
    elements that iterating [facts] gives. *)
Fixpoint keep_facts (facts : list json) : outcome (list json) :=
  match facts with
  | [] => Done []
  | f :: rest =>
      v <- fact_value f ;;
      kept <- keep_facts rest ;;
      Done (if _is_blank v then kept else f :: kept)
  end.

(** The loop [for k, v in node.items()] of [_prune]; [rec] is the
    recursive call. *)
Fixpoint prune_fields (rec : json -> json -> outcome json) (node_type : json)
  (items out : list (string * json)) : outcome (list (string * json)) :=
  match items with
  | [] => Done out
  | (k, v) :: rest =>
      if is_container v then
        pruned <- rec v node_type ;;
        if is_none pruned then prune_fields rec node_type rest out
        else prune_fields rec node_type rest (dict_set out k pruned)
      else prune_fields rec node_type rest (dict_set out k v)
  end.

(** The loop [for item in node] of [_prune]. *)
Fixpoint prune_items (rec : json -> json -> outcome json) (parent_type : json)
  (node children : list json) : outcome (list json) :=
  match node with
  | [] => Done children
  | item :: rest =>
      pruned <- rec item parent_type ;;
      if is_none pruned then prune_items rec parent_type rest children
      else prune_items rec parent_type rest (children ++ [pruned])
  end.

(** [len(out.get(key, [])) == 0] *)
Definition no_children (out : list (string * json)) (key : string) : outcome bool :=
  len_is_zero (get_default key (JArr []) out).

(** One call of [_prune] on a dict, after the recursive calls are given. *)
Definition prune_dict (rec : json -> json -> outcome json)
  (node : list (string * json)) : outcome json :=
  let node_type := get "type" node in
  if is_str node_type "TextBlock" && _is_blank (get "text" node) then Done JNull
  else
    node1 <-
      (if is_str node_type "FactSet" then
         facts <- py_iter (get_default "facts" (JArr []) node) ;;
         pruned_facts <- keep_facts facts ;;
         match pruned_facts with
         | [] => Done (@None (list (string * json)))
         | _ => Done (Some (dict_set node "facts" (JArr pruned_facts)))
         end
       else Done (Some node)) ;;
    match node1 with
    | None => Done JNull
    | Some node =>
        if is_str node_type "Action.OpenUrl" && _is_blank (get "url" node)
        then Done JNull
        else
          out <- prune_fields rec node_type node [] ;;
          drop1 <- (if is_str node_type "Container" || is_str node_type "Column"
                    then no_children out "items" else Done false) ;;
          if drop1 then Done JNull
          else
            drop2 <- (if is_str node_type "ColumnSet"
                      then no_children out "columns" else Done false) ;;
            if drop2 then Done JNull
            else
              drop3 <- (if is_str node_type "ActionSet"
                        then no_children out "actions" else Done false) ;;
              if drop3 then Done JNull else Done (JObj out)
    end.

(** [_prune(node, parent_type)], with the depth of the recursion bounded
    by [fuel].  The result [JNull] is Python's [None]: the node is
    dropped. *)
Fixpoint prune_fuel (fuel : nat) (node parent_type : json) : outcome json :=
  match fuel with
  | O => Raised OutOfFuel
  | S fuel' =>
      match node with
      | JObj d => prune_dict (prune_fuel fuel') d
      | JArr l =>
          children <- prune_items (prune_fuel fuel') parent_type l [] ;;
          Done (JArr children)
      | _ => Done node
      end
  end.

Definition _prune (node parent_type : json) : outcome json :=
  prune_fuel (S (depth node)) node parent_type.

(** What reading the template file gave.  The two messages of a failed
    read are shortened to their fixed part. *)
Inductive template_file : Type :=
| FileNotFound
| InvalidJson
| Parsed (raw : json).

Definition root_error : string :=
  "ERROR: Card template must be an AdaptiveCard object with type 'AdaptiveCard'.".

Definition load_card_json (template : template_file)
  (variables : list (string * option string)) : outcome json :=
  match template with
  | FileNotFound => Raised (SystemExit "ERROR: Card template not found")
  | InvalidJson => Raised (SystemExit "ERROR: Invalid JSON in card template")
  | Parsed raw =>
      let rendered := _deep_replace_placeholders raw variables in
      rendered <- _prune rendered JNull ;;
      match rendered with
      | JObj d =>
          if is_str (get "type" d) "AdaptiveCard" then Done rendered
          else Raised (SystemExit root_error)
      | _ => Raised (SystemExit root_error)
      end
  end.

End Renderer.

(* ===================================================================== *)
(** * Outcome logger *)
(* ===================================================================== *)

Module Logger.

(** A row handed to [csv.writer.writerow]: the list of its Python values. *)
Definition log_row := list json.

(** The paths that exist and, for each, the rows written to it. *)
Definition file_system := string -> option (list log_row).

Definition header : log_row :=
  [JStr "timestamp_utc"; JStr "email"; JStr "status"; JStr "attempts";
   JStr "http_status"; JStr "message_id"; JStr "error_preview"].

(** [Path(log_path).exists()] *)
Definition exists_path (fs : file_system) (path : string) : bool :=
  match fs path with Some _ => true | None => false end.

Definition write_file (fs : file_system) (path : string) (rows : list log_row)
  : file_system :=
  fun p => if String.eqb p path then Some rows else fs p.

(** [open(log_path, "a")]: the file is created empty when it is missing. *)
Definition open_append (fs : file_system) (path : string) : file_system :=
  match fs path with
  | Some _ => fs
  | None => write_file fs path []
  end.

(** [writer.writerow(row)] on a file opened for appending. *)
Definition writerow (fs : file_system) (path : string) (row : log_row)
  : file_system :=
  match fs path with
  | Some rows => write_file fs path (rows ++ [row])
  | None => fs
  end.

Definition ensure_log_writer (fs : file_system) (log_path : string) : file_system :=
  let first_write := negb (exists_path fs log_path) in
  let fs := open_append fs log_path in
  if first_write then writerow fs log_path header else fs.

Definition writerows (fs : file_system) (path : string) (rows : list log_row)
  : file_system :=
  fold_left (fun fs row => writerow fs path row) rows fs.

End Logger.

(* ===================================================================== *)
(** * Batch and retry loop *)
(* ===================================================================== *)

Module Orchestrator.
Import PyStr PyVal Logger.
Local Open Scope Z_scope.

(** [resp.json()]: it raises, or gives the decoded body. *)
Inductive json_result : Type :=
| JsonError
| JsonValue (v : json).

Record response : Type := {
  status_code : Z;
  text : string;
  json_body : json_result
}.

(** What [send_message_to_email] does: it returns the response of
    [requests.post], or [requests.RequestException] comes out of it. *)
Inductive send_result : Type :=
| Returned (resp : response)
| RequestException (msg : string).

(** The world the run talks to.  A run addresses each recipient once, so
    the reply to a call is a function of the recipient and the attempt
    number; [now] is the clock read when the recipient's row is written. *)
Record world : Type := {
  send_message_to_email : string -> Z -> send_result;
  now : string -> string
}.

(** The settings the loop reads.  The two delays are non-negative numbers
    of seconds; a pause is recorded in the trace without its length. *)
Record config : Type := {
  batch_size : Z;
  retry_count : Z;
  dry_run : bool
}.

Inductive event : Type :=
| TransportCall (to_email : string) (attempt : Z)
| RetrySleep
| BatchSleep (batch_index : Z)
| LogRow (row : log_row).

(** A computation with effects: the events it emitted, in order, and how
    it ended.  The events emitted before an exception stay. *)
Definition eff (A : Type) : Type := (list event * outcome A)%type.

Definition ret {A : Type} (a : A) : eff A := ([], Done a).

Definition emit (e : event) : eff unit := ([e], Done tt).

Definition lift {A : Type} (m : outcome A) : eff A := ([], m).

Definition bind_eff {A B : Type} (m : eff A) (k : A -> eff B) : eff B :=
  match m with
  | (t, Done a) => let (t', r) := k a in (t ++ t', r)
  | (t, Raised e) => (t, Raised e)
  end.

Declare Scope eff_scope.
Delimit Scope eff_scope with eff.
Notation "x <- m ;; k" := (bind_eff m (fun x => k))
  (at level 61, m at next level, right associativity) : eff_scope.
Notation "m ;; k" := (bind_eff m (fun _ => k))
  (at level 61, right associativity) : eff_scope.
Local Open Scope eff_scope.

(** [range(start, stop)] *)
Definition range (start stop : Z) : list Z :=
  map (fun k => start + Z.of_nat k) (seq 0 (Z.to_nat (stop - start))).

(** [range(start, stop, step)] *)
Definition range_step (start stop step : Z) : outcome (list Z) :=
  if step =? 0 then Raised ValueError
  else
    let count :=
      if 0 <? step then (stop - start + step - 1) / step
      else (start - stop - step - 1) / (- step) in
    Done (map (fun k => start + Z.of_nat k * step) (seq 0 (Z.to_nat count))).

(** [items[lo:hi]] for [0 <= lo <= hi], the only slices [chunked] takes. *)
Definition slice {A : Type} (items : list A) (lo hi : Z) : list A :=
  firstn (Z.to_nat (hi - lo)) (skipn (Z.to_nat lo) items).

(** The batches that the generator [chunked(items, size)] yields. *)
Definition chunked {A : Type} (items : list A) (size : Z) : outcome (list (list A)) :=
  (starts <- range_step 0 (Z.of_nat (length items)) size ;;
   Done (map (fun i => slice items i (i + size)) starts))%outcome.

(** The local variables of one recipient's attempt loop. *)
Record attempt_state : Type := {
  attempts : Z;
  last_status : json;
  message_id : json;
  error_preview : string;
  ok : bool
}.

Definition initial_state : attempt_state :=
  {| attempts := 0; last_status := JNull; message_id := JStr "";
     error_preview := ""; ok := false |}.

(** [text[:300].replace("\n", " ")] *)
Definition preview (s : string) : string :=
  flatten_newlines (take 300 s).

Definition is_success (status : Z) : bool :=
  (status =? 200) || (status =? 201).

(** [if attempts < retry_count: time.sleep(retry_delay)] *)
Definition retry_pause (cfg : config) (attempt : Z) : eff unit :=
  if attempt <? retry_count cfg then emit RetrySleep else ret tt.

(** [for attempt in range(1, retry_count + 1)], over the attempt numbers
    still to come. *)
Fixpoint attempt_loop (cfg : config) (w : world) (to_email : string)
  (todo : list Z) (st : attempt_state) : eff attempt_state :=
  match todo with
  | [] => ret st
  | attempt :: rest =>
      let st := {| attempts := attempt; last_status := last_status st;
                   message_id := message_id st;
                   error_preview := error_preview st; ok := ok st |} in
      if dry_run cfg then
        ret {| attempts := attempts st; last_status := JInt 200;
               message_id := JStr "(dry-run)";
               error_preview := error_preview st; ok := true |}
      else
        emit (TransportCall to_email attempt) ;;
        match send_message_to_email w to_email attempt with
        | Returned resp =>
            let st := {| attempts := attempts st;
                         last_status := JInt (status_code resp);
                         message_id := message_id st;
                         error_preview := error_preview st; ok := ok st |} in
            if is_success (status_code resp) then
              let data := match json_body resp with
                          | JsonError => JObj []
                          | JsonValue v => v
                          end in
              id <- lift (py_get data "id" (JStr "")) ;;
              ret {| attempts := attempts st; last_status := last_status st;
                     message_id := id;
                     error_preview := error_preview st; ok := true |}
            else
              let st := {| attempts := attempts st; last_status := last_status st;
                           message_id := message_id st;
                           error_preview := preview (text resp); ok := ok st |} in
              retry_pause cfg attempt ;;
              attempt_loop cfg w to_email rest st
        | RequestException msg =>
            let st := {| attempts := attempts st; last_status := last_status st;
                         message_id := message_id st;
                         error_preview := preview msg; ok := ok st |} in
            retry_pause cfg attempt ;;
            attempt_loop cfg w to_email rest st
        end
  end.

Definition attempt_recipient (cfg : config) (w : world) (to_email : string)
  : eff attempt_state :=
  attempt_loop cfg w to_email (range 1 (retry_count cfg + 1)) initial_state.

(** The row written for a recipient once its attempts are over. *)
Definition result_row (w : world) (to_email : string) (st : attempt_state)
  : log_row :=
  let ts := now w to_email in
  if ok st then
    [JStr ts; JStr to_email; JStr "sent"; JInt (attempts st);
     last_status st; message_id st; JStr ""]
  else
    [JStr ts; JStr to_email; JStr "failed"; JInt (attempts st);
     last_status st; message_id st; JStr (error_preview st)].

(** The two counters of the run. *)
Record totals : Type := { total_sent : Z; total_failed : Z }.

Definition count_result (st : attempt_state) (t : totals) : totals :=
  if ok st then {| total_sent := total_sent t + 1; total_failed := total_failed t |}
  else {| total_sent := total_sent t; total_failed := total_failed t + 1 |}.

(** The body of [for to_email in batch]. *)
Definition deliver (cfg : config) (w : world) (to_email : string) (t : totals)
  : eff totals :=
  st <- attempt_recipient cfg w to_email ;;
  emit (LogRow (result_row w to_email st)) ;;
  ret (count_result st t).

Fixpoint deliver_batch (cfg : config) (w : world) (batch : list string)
  (t : totals) : eff totals :=
  match batch with
  | [] => ret t
  | to_email :: rest =>
      t <- deliver cfg w to_email t ;;
      deliver_batch cfg w rest t
  end.

(** [if (batch_index * batch_size) < len(emails): time.sleep(batch_delay)] *)
Definition pause_after (cfg : config) (n_emails : Z) (batch_index : Z) : bool :=
  batch_index * batch_size cfg <? n_emails.

(** [for batch in chunked(emails, batch_size)], over the batches still to
    come; [batch_index] is the counter before its increment. *)
Fixpoint batch_loop (cfg : config) (w : world) (n_emails : Z)
  (batches : list (list string)) (batch_index : Z) (t : totals) : eff totals :=
  match batches with
  | [] => ret t
  | batch :: rest =>
      let batch_index := batch_index + 1 in
      t <- deliver_batch cfg w batch t ;;
      (if pause_after cfg n_emails batch_index
       then emit (BatchSleep batch_index) else ret tt) ;;
      batch_loop cfg w n_emails rest batch_index t
  end.

(** The delivery loop of [main], from [total_sent = 0] to the end of the
    [try] block. *)
Definition main_loop (cfg : config) (w : world) (emails : list string)
  : eff totals :=
  batches <- lift (chunked emails (batch_size cfg)) ;;
  batch_loop cfg w (Z.of_nat (length emails)) batches 0
    {| total_sent := 0; total_failed := 0 |}.

Fixpoint logged_rows (trace : list event) : list log_row :=
  match trace with
  | [] => []
  | LogRow row :: rest => row :: logged_rows rest
  | _ :: rest => logged_rows rest
  end.

Fixpoint transport_calls (trace : list event) : list (string * Z) :=
  match trace with
  | [] => []
  | TransportCall e a :: rest => (e, a) :: transport_calls rest
  | _ :: rest => transport_calls rest
  end.

(** [main] from [ensure_log_writer] on: the log is opened, the loop runs,
    and every row it wrote is in the file whether or not the loop ended
    with an exception. *)
Definition run (cfg : config) (w : world) (fs : file_system)
  (log_file : string) (emails : list string) : file_system * eff totals :=
  let fs := ensure_log_writer fs log_file in
  let r := main_loop cfg w emails in
  (writerows fs log_file (logged_rows (fst r)), r).

End Orchestrator.

(* ===================================================================== *)
(** * The loader as the specification words it *)
(* ===================================================================== *)

Module LoaderSpec.
Import PyStr Loader.

(** The addresses of [emails] that are not in [seen], each at its first
    occurrence. *)
Fixpoint fresh (seen emails : list string) : list string :=
  match emails with
  | [] => []
  | e :: rest =>
      if mem e seen then fresh seen rest else e :: fresh (e :: seen) rest
  end.

(** One of the three spellings that [load_emails] looks up. *)
Definition known_spelling (h : string) : bool :=
  String.eqb h "email" || String.eqb h "Email" || String.eqb h "EMAIL".

(** The cell of [row] in column [i], trimmed; a missing cell counts as
    empty. *)
Definition column_cell (i : nat) (row : csv_row) : string :=
  strip (nth i row EmptyString).

Definition data_rows (rest : list csv_row) : list csv_row :=
  filter (fun r => negb (is_empty_row r)) rest.

(** "Locate the column whose header matches email case-insensitively":
    the first field name that is [email] once lowered. *)
Fixpoint spec_email_column (fieldnames : list string) : option nat :=
  match fieldnames with
  | [] => None
  | h :: rest =>
      if String.eqb (lower h) "email" then Some 0
      else option_map S (spec_email_column rest)
  end.

Definition spec_header_branch (rows : list csv_row) : list string :=
  match rows with
  | [] => []
  | fieldnames :: rest =>
      match spec_email_column fieldnames with
      | Some i => filter accepted (map (column_cell i) (data_rows rest))
      | None => []
      end
  end.

(** The loader of the specification: as [load_emails], but with the
    column of the header row found without regard to case. *)
Definition spec_load_emails (csv_reader : string -> list csv_row)
  (content : string) : list string :=
  let first_line := readline content in
  dedup (if contains "email" (lower first_line)
         then spec_header_branch (csv_reader content)
         else plain_branch (csv_reader content)).

Definition nl : string := String newline EmptyString.

(** A file whose header row spells the column [eMail]. *)
Definition mixed_case_file : string :=
  ("eMail,name" ++ nl ++ "ann@example.com,Ann" ++ nl
   ++ "bob@example.com,Bob" ++ nl)%string.

(** A file whose header row spells the column [Email]. *)
Definition capitalised_file : string :=
  ("name,Email" ++ nl ++ "Ann, ann@example.com " ++ nl
   ++ "Bob,bob@example.com" ++ nl ++ "Ann2,ann@example.com" ++ nl)%string.

End LoaderSpec.

(* ===================================================================== *)
(** * Vocabulary for the claims on the delivery loop *)
(* ===================================================================== *)

Module OrchestratorSpec.
Import PyStr PyVal Logger Orchestrator.
Local Open Scope Z_scope.

(** An attempt that did not succeed: a response with a status other than
    200 and 201, or a transport exception. *)
Definition failed_attempt (r : send_result) : bool :=
  match r with
  | Returned resp => negb (is_success (status_code resp))
  | RequestException _ => true
  end.

(** The text from which the preview of a failed attempt is cut. *)
Definition failure_text (r : send_result) : string :=
  match r with
  | Returned resp => text resp
  | RequestException msg => msg
  end.

(** The status held after an attempt: a response sets it, an exception
    leaves it as it was. *)
Definition status_after (prev : json) (r : send_result) : json :=
  match r with
  | Returned resp => JInt (status_code resp)
  | RequestException _ => prev
  end.

(** The local variables after one failed attempt. *)
Definition fail_update (w : world) (to_email : string)
  (st : attempt_state) (attempt : Z) : attempt_state :=
  {| attempts := attempt;
     last_status := status_after (last_status st) (send_message_to_email w to_email attempt);
     message_id := message_id st;
     error_preview := preview (failure_text (send_message_to_email w to_email attempt));
     ok := ok st |}.

(** The events of a run of failed attempts. *)
Fixpoint fail_trace (cfg : config) (to_email : string) (todo : list Z)
  : list event :=
  match todo with
  | [] => []
  | attempt :: rest =>
      TransportCall to_email attempt
      :: (if attempt <? retry_count cfg then [RetrySleep] else [])
      ++ fail_trace cfg to_email rest
  end.

(** The identifier that [data.get("id", "")] gives for the body of a
    successful response, when that call returns. *)
Definition body_id (b : json_result) : outcome json :=
  py_get (match b with JsonError => JObj [] | JsonValue v => v end)
         "id" (JStr "").

(** The row written for [to_email], read off the outcome of its attempt
    loop. *)
Definition row_of (cfg : config) (w : world) (to_email : string) : log_row :=
  match snd (attempt_recipient cfg w to_email) with
  | Done st => result_row w to_email st
  | Raised _ => []
  end.

(** The row of a recipient whose attempts all failed. *)
Definition failed_row (w : world) (to_email : string) (st : attempt_state)
  : log_row :=
  [JStr (now w to_email); JStr to_email; JStr "failed"; JInt (attempts st);
   last_status st; message_id st; JStr (error_preview st)].

(** The row of a recipient that was reached. *)
Definition sent_row (w : world) (to_email : string) (st : attempt_state)
  : log_row :=
  [JStr (now w to_email); JStr to_email; JStr "sent"; JInt (attempts st);
   last_status st; message_id st; JStr ""].

(** The cell of a row in a given column. *)
Definition cell (i : nat) (row : log_row) : json := nth i row JNull.

Definition is_sent (row : log_row) : bool := is_str (cell 2 row) "sent".
Definition is_failed (row : log_row) : bool := is_str (cell 2 row) "failed".

(** A row that records a recipient: its status cell says [sent] or
    [failed]. *)
Definition is_data_row (row : log_row) : bool := is_sent row || is_failed row.

Definition count_rows (p : log_row -> bool) (rows : list log_row) : Z :=
  Z.of_nat (length (filter p rows)).

Fixpoint batch_sleeps (trace : list event) : list Z :=
  match trace with
  | [] => []
  | BatchSleep i :: rest => i :: batch_sleeps rest
  | _ :: rest => batch_sleeps rest
  end.

(** [ceil(n / b)] for a positive [b]. *)
Definition ceil_div (n b : Z) : Z := (n + b - 1) / b.

(** The [k]-th batch of [items] for a batch size [size], counted from 0. *)
Definition chunk {A : Type} (items : list A) (size : Z) (k : nat) : list A :=
  firstn (Z.to_nat size) (skipn (k * Z.to_nat size) items).

(** One run after another on the same file system, each with its own
    settings, world and recipients, all logging to [log_file]. *)
Definition runs (log_file : string)
  (rs : list (config * world * list string)) (fs : file_system) : file_system :=
  fold_left (fun fs r => let '(cfg, w, emails) := r in
                         fst (run cfg w fs log_file emails)) rs fs.

(** The rows that a run writes. *)
Definition rows_of_run (r : config * world * list string) : list log_row :=
  let '(cfg, w, emails) := r in logged_rows (fst (main_loop cfg w emails)).

(** Sample responses. *)
Definition server_error : response :=
  {| status_code := 500; text := "Internal" ++ String newline "error";
     json_body := JsonError |}.

Definition created (id : string) : response :=
  {| status_code := 200; text := "{}";
     json_body := JsonValue (JObj [("id", JStr id)]) |}.

Definition created_without_body : response :=
  {| status_code := 201; text := ""; json_body := JsonError |}.

(** A success whose body decodes to a JSON array. *)
Definition created_with_array : response :=
  {| status_code := 200; text := "[]"; json_body := JsonValue (JArr []) |}.

Definition clock : string -> string := fun _ => "2025-01-01T00:00:00+00:00".

(** Status 500 on attempts 1 and 2, status 200 on attempt 3. *)
Definition flaky : world :=
  {| send_message_to_email := fun _ attempt => if attempt <? 3 then Returned server_error
                              else Returned (created "Y2lzY29");
     now := clock |}.

(** Status 500 on every attempt. *)
Definition down : world :=
  {| send_message_to_email := fun _ _ => Returned server_error; now := clock |}.

(** Status 200 with an array for a body, on every attempt. *)
Definition odd_body : world :=
  {| send_message_to_email := fun _ _ => Returned created_with_array; now := clock |}.

Definition defaults : config :=
  {| batch_size := 10; retry_count := 3; dry_run := false |}.

Definition rehearsal : config :=
  {| batch_size := 10; retry_count := 3; dry_run := true |}.

Fixpoint recipients (n : nat) : list string :=
  match n with
  | O => []
  | S k => recipients k ++ [String (ascii_of_nat (65 + k)) "@example.com"]
  end.

End OrchestratorSpec.

Module RunSpec.
Import PyStr PyVal Logger Orchestrator OrchestratorSpec.
Local Open Scope Z_scope.

(** The local variables that a dry run leaves. *)
Definition dry_state : attempt_state :=
  {| attempts := 1; last_status := JInt 200; message_id := JStr "(dry-run)";
     error_preview := ""; ok := true |}.

(** The row that a dry run writes for a recipient. *)
Definition dry_row (w : world) (to_email : string) : log_row :=
  [JStr (now w to_email); JStr to_email; JStr "sent"; JInt 1; JInt 200;
   JStr "(dry-run)"; JStr ""].

(** Every attempt for Bob fails with status 500; everybody else is reached
    on the third attempt. *)
Definition mixed : world :=
  {| send_message_to_email := fun to_email attempt =>
               if String.eqb to_email "bob@example.com"
               then Returned server_error
               else send_message_to_email flaky to_email attempt;
     now := clock |}.

Definition trio : list string :=
  ["ann@example.com"; "bob@example.com"; "cy@example.com"].

Definition pairs : config :=
  {| batch_size := 2; retry_count := 3; dry_run := false |}.

Definition no_files : file_system := fun _ => None.

End RunSpec.

(* ===================================================================== *)
(** * Vocabulary for the claims on the renderer *)
(* ===================================================================== *)

Module RendererSpec.
Import PyStr PyVal Renderer.

(** A value that has a length: a list, a dict or a string. *)
Definition sized (v : json) : bool :=
  match v with
  | JArr _ | JObj _ | JStr _ => true
  | _ => false
  end.

(** A list whose elements are objects or null. *)
Definition fact_list (v : json) : bool :=
  match v with
  | JArr l => forallb (fun f => is_dict f || is_none f) l
  | _ => false
  end.

(** What a well-formed card has under the keys that [_prune] reads as
    collections: a list of facts under [facts], something with a length
    under [items], [columns] and [actions]. *)
Definition field_ok (k : string) (v : json) : bool :=
  if String.eqb k "facts" then fact_list v
  else if String.eqb k "items" || String.eqb k "columns" || String.eqb k "actions"
       then sized v
       else true.

Fixpoint shape_ok (v : json) : bool :=
  match v with
  | JArr l => forallb shape_ok l
  | JObj d =>
      forallb (fun kv : string * json =>
                 let (k, x) := kv in field_ok k x && shape_ok x) d
  | _ => true
  end.

Fixpoint distinct (keys : list string) : bool :=
  match keys with
  | [] => true
  | k :: rest => negb (existsb (String.eqb k) rest) && distinct rest
  end.

(** The keys of a dict are pairwise distinct. *)
Definition well_keyed (d : list (string * json)) : bool :=
  distinct (map fst d).

(** A type on which [_prune] acts. *)
Definition pruned_type (ty : json) : bool :=
  is_str ty "TextBlock" || is_str ty "FactSet" || is_str ty "Action.OpenUrl"
  || is_str ty "Container" || is_str ty "Column" || is_str ty "ColumnSet"
  || is_str ty "ActionSet".

Definition scalar_fields (d : list (string * json)) : bool :=
  forallb (fun kv : string * json => negb (is_container (snd kv))) d.

(** A fact: an object of scalar fields, such as a title and a value, that
    is not itself typed as a node on which [_prune] acts. *)
Definition plain_fact (f : json) : bool :=
  match f with
  | JObj d => well_keyed d && scalar_fields d && negb (pruned_type (get "type" d))
  | _ => false
  end.

(** An entry of a list of facts: a plain fact, or null. *)
Definition fact_entry (f : json) : bool := plain_fact f || is_none f.

(** The value of a fact is blank: empty, whitespace only, or absent. *)
Definition blank_fact (f : json) : bool :=
  match f with
  | JObj d => _is_blank (get "value" d)
  | _ => true
  end.

(** The fields of a fact set other than [facts] are scalars. *)
Definition flat_factset (d : list (string * json)) : bool :=
  forallb (fun kv : string * json =>
             String.eqb (fst kv) "facts" || negb (is_container (snd kv))) d.

Definition fact (title value : string) : json :=
  JObj [("title", JStr title); ("value", JStr value)].

Definition text_block (text : string) : json :=
  JObj [("type", JStr "TextBlock"); ("text", JStr text)].

Definition fact_set (facts : list json) : json :=
  JObj [("type", JStr "FactSet"); ("facts", JArr facts)].

Definition sample_card : json :=
  JObj [("type", JStr "AdaptiveCard"); ("version", JStr "1.3");
        ("body",
         JArr [text_block "New opportunity: {{account}}";
               text_block "{{due}}";
               fact_set [fact "Amount" "{{amount}}"; fact "Due" "{{due}}"];
               JObj [("type", JStr "Container");
                     ("items", JArr [fact_set [fact "Due" "{{due}}"]])]]);
        ("actions",
         JArr [JObj [("type", JStr "Action.OpenUrl"); ("title", JStr "Open");
                     ("url", JStr "{{cta_url}}")]])].

Definition sample_variables : list (string * option string) :=
  [("account", Some "ACME Corp"); ("opportunity", Some "Q4 Expansion");
   ("amount", Some "$50,000"); ("due", Some "");
   ("cta_url", Some "https://example.crm.com/opportunities/ABC123")].

End RendererSpec.

Module CardSpec.
Import PyStr PyVal Renderer.

(** A dict whose declared type is the root type. *)
Definition is_card (v : json) : bool :=
  match v with
  | JObj d => is_str (get "type" d) "AdaptiveCard"
  | _ => false
  end.

Definition brace : ascii := ascii_of_nat 123.

(** What the loop of [_prune] leaves under a key of a dict. *)
Definition pruned_entry (rec : json -> json -> outcome json) (node_type : json)
  (before : option json) (v : json) : option json :=
  if is_container v then
    match rec v node_type with
    | Done pruned => if is_none pruned then before else Some pruned
    | Raised _ => before
    end
  else Some v.

(** The dict that the loop of [prune_dict] goes through: the node itself
    or, for a fact set, the node with the kept facts. *)
Definition loop_input (node node' : list (string * json)) : Prop :=
  node' = node
  \/ exists facts kept,
      is_str (get "type" node) "FactSet" = true
      /\ py_iter (get_default "facts" (JArr []) node) = Done facts
      /\ keep_facts facts = Done kept
      /\ kept <> []
      /\ node' = dict_set node "facts" (JArr kept).

(** The part of [prune_dict] that follows the early exits. *)
Definition finish (rec : json -> json -> outcome json) (node_type : json)
  (node' : list (string * json)) : outcome json :=
  (out <- prune_fields rec node_type node' [] ;;
   drop1 <- (if is_str node_type "Container" || is_str node_type "Column"
             then no_children out "items" else Done false) ;;
   if drop1 then Done JNull
   else
     drop2 <- (if is_str node_type "ColumnSet"
               then no_children out "columns" else Done false) ;;
     if drop2 then Done JNull
     else
       drop3 <- (if is_str node_type "ActionSet"
                 then no_children out "actions" else Done false) ;;
       if drop3 then Done JNull else Done (JObj out))%outcome.

Definition collection_key (key : string) : Prop :=
  key = "items" \/ key = "columns" \/ key = "actions".

End CardSpec.

(* ===================================================================== *)
(** * Fallback text, settings and the set-up of [main] *)
(* ===================================================================== *)

Module Fallback.
Import PyStr.

Section WithDash.
(** The dash of the message, the character U+2014, which lies beyond the
    code points that a [string] holds here. *)
Variable em_dash : string.

Definition build_fallback_markdown (account opportunity amount : string)
  (due : option string) : string :=
  let base :=
    ("You have a new **sales opportunity** assigned: **" ++ account ++ " "
     ++ em_dash ++ " " ++ opportunity ++ " (" ++ amount ++ ")**.")%string in
  let base :=
    match due with
    | Some d => if nonempty d then (base ++ " Due: **" ++ d ++ "**.")%string
                else base
    | None => base
    end in
  (base ++ " See the attached Adaptive Card for details and actions.")%string.
End WithDash.

End Fallback.

Module Settings.
Import PyStr PyVal.
Local Open Scope Z_scope.

(** What the settings path holds: nothing, something that cannot be
    opened, text that is not JSON, or a JSON document. *)
Inductive settings_file : Type :=
| NoSettings
| UnreadableSettings
| InvalidSettings
| ParsedSettings (data : json).

(** [load_settings].  The [ValueError] for a document that is not an
    object is raised inside the [try] and matches neither handler. *)
Definition load_settings (f : settings_file) : outcome (list (string * json)) :=
  match f with
  | NoSettings => Done []
  | ParsedSettings (JObj d) => Done d
  | ParsedSettings _ => Raised ValueError
  | InvalidSettings => Raised (SystemExit "ERROR: Invalid JSON in settings file")
  | UnreadableSettings => Raised (SystemExit "ERROR: Unable to read settings file")
  end.

(** The namespace that [parse_args] returns, without the two delays and
    the path of the settings. *)
Record namespace : Type := {
  arg_csv : option string;
  arg_token : option string;
  arg_batch_size : option Z;
  arg_retry_count : option Z;
  arg_log_file : option string;
  arg_account : option string;
  arg_opportunity : option string;
  arg_amount : option string;
  arg_due : option string;
  arg_cta_url : option string;
  arg_card_json : option string;
  arg_dry_run : bool
}.

(** An optional string as a Python value. *)
Definition of_arg (a : option string) : json :=
  match a with
  | Some s => JStr s
  | None => JNull
  end.

(** [a or b] *)
Definition py_or (a b : json) : json := if truthy a then a else b.

(** [a if a is not None else b] for an integer option. *)
Definition int_or (a : option Z) (b : json) : json :=
  match a with
  | Some z => JInt z
  | None => b
  end.

(** The values that [main] settles on, each a Python value: a settings
    file may hold anything under a key. *)
Record resolved : Type := {
  token : json;
  csv_path : json;
  log_file : json;
  batch_size : json;
  retry_count : json;
  account : json;
  opportunity : json;
  amount : json;
  due : json;
  cta_url : json;
  card_json : json
}.

(** [sys.exit(1)] *)
Definition exit_failure : exn := SystemExit "1".

(** The first lines of [main], from the token to [card_json]. *)
Definition resolve (args : namespace) (env_token : option string)
  (settings : list (string * json)) : outcome resolved :=
  let token := py_or (of_arg (arg_token args))
                 (py_or (of_arg env_token) (get "token" settings)) in
  if negb (truthy token) then Raised exit_failure
  else
    Done {|
      token := token;
      csv_path := py_or (of_arg (arg_csv args))
                    (py_or (get "csv" settings) (JStr "recipients.csv"));
      log_file := py_or (of_arg (arg_log_file args))
                    (py_or (get "log_file" settings) (JStr "send_log.csv"));
      batch_size := int_or (arg_batch_size args)
                      (get_default "batch_size" (JInt 10) settings);
      retry_count := int_or (arg_retry_count args)
                       (get_default "retry_count" (JInt 3) settings);
      account := py_or (of_arg (arg_account args))
                   (py_or (get "account" settings) (JStr "ACME Corp"));
      opportunity := py_or (of_arg (arg_opportunity args))
                       (py_or (get "opportunity" settings)
                          (JStr "New Sales Opportunity"));
      amount := py_or (of_arg (arg_amount args))
                  (py_or (get "amount" settings) (JStr "$50,000"));
      due := match arg_due args with
             | Some d => JStr d
             | None => get "due" settings
             end;
      cta_url := py_or (of_arg (arg_cta_url args))
                   (py_or (get "cta_url" settings)
                      (JStr "https://example.crm.com/opportunities/ABC123"));
      card_json := py_or (of_arg (arg_card_json args))
                     (py_or (get "card_json" settings) (JStr "main.json"))
    |}.

(** A command line without any option. *)
Definition no_args : namespace :=
  {| arg_csv := None; arg_token := None; arg_batch_size := None;
     arg_retry_count := None; arg_log_file := None; arg_account := None;
     arg_opportunity := None; arg_amount := None; arg_due := None;
     arg_cta_url := None; arg_card_json := None; arg_dry_run := false |}.

End Settings.

Module Main.
Import PyStr PyVal Loader Renderer Logger Orchestrator Settings.

(** What [main] works on once the settings are resolved to strings and
    integers: the text of the CSV file when its path exists, what reading
    the template gave, the five values of the card, the path of the log and
    the settings of the loop. *)
Record job : Type := {
  job_csv : option string;
  job_template : template_file;
  job_account : string;
  job_opportunity : string;
  job_amount : string;
  job_due : option string;
  job_cta_url : string;
  job_log_file : string;
  job_config : config
}.

(** The dict [variables] of [main]; [due or ""] for the due date. *)
Definition make_variables (j : job) : list (string * option string) :=
  [("account", Some (job_account j));
   ("opportunity", Some (job_opportunity j));
   ("amount", Some (job_amount j));
   ("due", Some (match job_due j with
                 | Some d => d
                 | None => EmptyString
                 end));
   ("cta_url", Some (job_cta_url j))].

(** [main] from the test for the CSV path on. *)
Definition main_from_csv (csv_reader : string -> list csv_row) (j : job)
  (w : world) (fs : file_system) : file_system * eff totals :=
  match job_csv j with
  | None => (fs, ([], Raised exit_failure))
  | Some content =>
      match load_emails csv_reader content with
      | [] => (fs, ([], Raised exit_failure))
      | emails =>
          match load_card_json (job_template j) (make_variables j) with
          | Raised e => (fs, ([], Raised e))
          | Done _ => run (job_config j) w fs (job_log_file j) emails
          end
      end
  end.

End Main.

(* ===================================================================== *)
(** * Vocabulary for further properties *)
(* ===================================================================== *)

Module MoreSpec.
Import PyStr PyVal Loader LoaderSpec Renderer RendererSpec CardSpec.
Import Logger Orchestrator OrchestratorSpec.

Fixpoint retry_sleeps (trace : list event) : nat :=
  match trace with
  | [] => 0
  | RetrySleep :: rest => S (retry_sleeps rest)
  | _ :: rest => retry_sleeps rest
  end.

(** A value with every string emptied: what substitution cannot touch. *)
Fixpoint skeleton (v : json) : json :=
  match v with
  | JStr _ => JStr EmptyString
  | JArr l => JArr (map skeleton l)
  | JObj d => JObj (map (fun kv : string * json =>
                           let (k, x) := kv in (k, skeleton x)) d)
  | _ => v
  end.

(** No string of the value holds an opening brace. *)
Fixpoint brace_free (v : json) : Prop :=
  match v with
  | JStr s => free_of brace s
  | JArr l => fold_right (fun x acc => brace_free x /\ acc) True l
  | JObj d => fold_right (fun (kv : string * json) acc =>
                            (let (_, x) := kv in brace_free x) /\ acc) True d
  | _ => True
  end.

Definition closing_brace : ascii := ascii_of_nat 125.

(** A name without braces, as the names of the five variables are. *)
Definition plain_name (k : string) : Prop :=
  free_of brace k /\ free_of closing_brace k.

(** The cells of all rows. *)
Definition cells (rows : list csv_row) : list string := concat rows.

(** The preview kept by the attempt loop is short and on one line. *)
Definition tidy (st : attempt_state) : Prop :=
  (String.length (error_preview st) <= 300)%nat
  /\ free_of newline (error_preview st).

(** The row of a recipient for whom no attempt was made. *)
Definition untried_row (w : world) (to_email : string) : log_row :=
  [JStr (now w to_email); JStr to_email; JStr "failed"; JInt 0%Z; JNull;
   JStr ""; JStr ""].

End MoreSpec.

(* ===================================================================== *)
(** * Sample recipient files *)
(* ===================================================================== *)

Module LoaderSamples.
Import PyStr Loader LoaderSpec.

(** A file without a header row whose second row holds an address that
    begins with [Email]. *)
Definition headerless_file : string :=
  ("bob@example.com,Bob" ++ nl ++ "Email.desk@example.com,Desk" ++ nl)%string.

(** A file with an [Email] and an [email] column. *)
Definition two_column_file : string :=
  ("Email,email" ++ nl ++ "old@example.com,ann@example.com" ++ nl
   ++ "bob@example.com," ++ nl ++ "cat@example.com, " ++ nl)%string.

End LoaderSamples.


(* ===================================================================== *)
(** * Sample jobs *)
(* ===================================================================== *)

Module MainSpec.
Import PyStr PyVal Loader LoaderSpec Renderer RendererSpec Logger Orchestrator.
Import OrchestratorSpec RunSpec Main.

(** A job on the sample card and a file of two recipients. *)
Definition sample_job : job :=
  {| job_csv := Some capitalised_file;
     job_template := Parsed sample_card;
     job_account := "ACME Corp";
     job_opportunity := "Q4 Expansion";
     job_amount := "$50,000";
     job_due := None;
     job_cta_url := "https://example.crm.com/opportunities/ABC123";
     job_log_file := "send_log.csv";
     job_config := pairs |}.

(** The same job when the CSV path does not exist. *)
Definition job_without_csv : job :=
  {| job_csv := None;
     job_template := job_template sample_job;
     job_account := job_account sample_job;
     job_opportunity := job_opportunity sample_job;
     job_amount := job_amount sample_job;
     job_due := job_due sample_job;
     job_cta_url := job_cta_url sample_job;
     job_log_file := job_log_file sample_job;
     job_config := job_config sample_job |}.

End MainSpec.


(* ===================================================================== *)
(** * Sample elements of a card *)
(* ===================================================================== *)

Module ElementSamples.
Import PyStr PyVal Renderer RendererSpec.

Definition container (items : list json) : json :=
  JObj [("type", JStr "Container"); ("items", JArr items)].

Definition image : json :=
  JObj [("type", JStr "Image"); ("url", JStr "https://example.com/logo.png");
        ("size", JStr "Small")].

(** A body with a blank text block and an empty container between two
    elements that stay. *)
Definition sample_body : list json :=
  [text_block "Hello"; text_block "  "; container [text_block ""]; image].

End ElementSamples.


(* ===================================================================== *)
(** * Proofs *)
(* ===================================================================== *)

(* ===================================================================== *)
(** * Facts about strings *)
(* ===================================================================== *)

Module PyStrFacts.
Import PyStr.

Lemma lstrip_clean_head (s : string) : clean_head (lstrip s).
Proof.
  induction s as [|c s IH]; simpl; [exact I|].
  destruct (is_space c) eqn:E; [exact IH | simpl; exact E].
Qed.

Lemma lstrip_fixed (s : string) : clean_head s -> lstrip s = s.
Proof.
  destruct s as [|c s]; simpl; intros H; [reflexivity|].
  now rewrite H.
Qed.

Lemma rstrip_clean_head (s : string) : clean_head s -> clean_head (rstrip s).
Proof.
  destruct s as [|c s]; simpl; intros H; [exact I|].
  destruct (rstrip s); simpl; [rewrite H; simpl|]; exact H.
Qed.

Lemma rstrip_idem (s : string) : rstrip (rstrip s) = rstrip s.
Proof.
  induction s as [|c s IH]; simpl; [reflexivity|].
  destruct (rstrip s) as [|d r] eqn:E.
  - destruct (is_space c) eqn:Ec; simpl; [reflexivity|].
    now rewrite Ec.
  - change (rstrip (String c (String d r)) = String c (String d r)).
    cbn [rstrip]. cbn [rstrip] in IH. rewrite IH. reflexivity.
Qed.

Lemma strip_idem (s : string) : strip (strip s) = strip s.
Proof.
  unfold strip.
  rewrite (lstrip_fixed (rstrip (lstrip s))).
  - apply rstrip_idem.
  - apply rstrip_clean_head, lstrip_clean_head.
Qed.

Lemma length_take (n : nat) (s : string) : String.length (take n s) <= n.
Proof.
  revert s; induction n as [|n IH]; intros [|c s]; simpl; try lia.
  specialize (IH s); lia.
Qed.

Lemma length_map_chars (f : ascii -> ascii) (s : string) :
  String.length (map_chars f s) = String.length s.
Proof. induction s; simpl; congruence. Qed.

Lemma prefix_head_mismatch (c d : ascii) (old s : string) :
  d <> c -> String.prefix (String c old) (String d s) = false.
Proof.
  intros H. simpl. destruct (ascii_dec c d) as [->|]; [contradiction|reflexivity].
Qed.

(** Replacing a pattern whose first character does not occur in the
    string changes nothing. *)
Lemma replace_absent (c : ascii) (old new s : string) :
  free_of c s -> replace s (String c old) new = s.
Proof.
  unfold replace.
  induction s as [|d s IH]; intros H; [reflexivity|].
  destruct H as [Hd Hs].
  cbn [replace_from]. rewrite (prefix_head_mismatch c d old s Hd).
  now rewrite IH.
Qed.

Lemma flatten_newlines_free (s : string) : free_of newline (flatten_newlines s).
Proof.
  unfold flatten_newlines.
  induction s as [|c s IH]; simpl; [exact I|].
  split; [|exact IH].
  destruct (Ascii.eqb c newline) eqn:E.
  - intros H; discriminate H.
  - now apply Ascii.eqb_neq.
Qed.

End PyStrFacts.

(* ===================================================================== *)
(** * Facts about the loader *)
(* ===================================================================== *)

Module LoaderFacts.
Import PyStr PyStrFacts Loader LoaderSpec.

Lemma mem_In (e : string) (seen : list string) :
  mem e seen = true <-> In e seen.
Proof.
  unfold mem. rewrite existsb_exists. split.
  - intros (x & Hx & He). apply String.eqb_eq in He. now subst.
  - intros H. exists e. split; [exact H | apply String.eqb_refl].
Qed.

Lemma mem_false (e : string) (seen : list string) :
  mem e seen = false <-> ~ In e seen.
Proof.
  rewrite <- mem_In. destruct (mem e seen); split; congruence.
Qed.

Lemma dedup_loop_fresh (emails seen ordered : list string) :
  dedup_loop emails seen ordered = ordered ++ fresh seen emails.
Proof.
  revert seen ordered.
  induction emails as [|e rest IH]; intros seen ordered; simpl.
  - now rewrite app_nil_r.
  - destruct (mem e seen); [apply IH|].
    rewrite IH, <- app_assoc. reflexivity.
Qed.

Lemma dedup_fresh (emails : list string) : dedup emails = fresh [] emails.
Proof. unfold dedup. now rewrite dedup_loop_fresh. Qed.

Lemma fresh_In (x : string) (seen l : list string) :
  In x (fresh seen l) <-> In x l /\ ~ In x seen.
Proof.
  revert seen. induction l as [|e rest IH]; intros seen; simpl.
  - tauto.
  - destruct (mem e seen) eqn:E.
    + apply mem_In in E. rewrite IH.
      split; [tauto|]. intros [[->|H] Hn]; [contradiction|tauto].
    + apply mem_false in E. simpl. rewrite IH. simpl.
      split.
      * intros [->|[H Hn]]; [tauto|]. split; [tauto|]. intros Hx. apply Hn. now right.
      * intros [[->|H] Hn]; [now left|].
        destruct (string_dec e x) as [->|Hne]; [now left|].
        right. split; [exact H|]. intros [Hx|Hx]; [congruence|contradiction].
Qed.

Lemma fresh_NoDup (seen l : list string) : NoDup (fresh seen l).
Proof.
  revert seen. induction l as [|e rest IH]; intros seen; simpl.
  - constructor.
  - destruct (mem e seen); [apply IH|].
    constructor; [|apply IH].
    rewrite fresh_In. intros [_ H]. apply H. now left.
Qed.

Lemma fresh_ext (s1 s2 l : list string) :
  (forall x, In x s1 <-> In x s2) -> fresh s1 l = fresh s2 l.
Proof.
  revert s1 s2. induction l as [|e rest IH]; intros s1 s2 H; simpl; [reflexivity|].
  assert (Hm : mem e s1 = mem e s2).
  { destruct (mem e s1) eqn:E1, (mem e s2) eqn:E2; try reflexivity.
    - apply mem_In in E1. apply mem_false in E2. now apply H in E1.
    - apply mem_In in E2. apply mem_false in E1. now apply H in E2. }
  rewrite Hm. destruct (mem e s2); [now apply IH|].
  f_equal. apply IH. intros x. simpl. now rewrite H.
Qed.

Lemma fresh_app (seen p q : list string) :
  fresh seen (p ++ q) = fresh seen p ++ fresh (p ++ seen) q.
Proof.
  revert seen. induction p as [|e p IH]; intros seen; simpl; [reflexivity|].
  destruct (mem e seen) eqn:E.
  - rewrite IH. f_equal. apply fresh_ext. intros x. simpl.
    apply mem_In in E. split; [now right|].
    intros [->|H]; [|exact H]. apply in_or_app. now right.
  - rewrite IH. simpl. do 2 f_equal. apply fresh_ext. intros x.
    simpl. rewrite !in_app_iff. simpl. tauto.
Qed.

Lemma in_split_first (x : string) (l : list string) :
  In x l -> exists p q, l = p ++ x :: q /\ ~ In x p.
Proof.
  induction l as [|e rest IH]; intros H; [destruct H|].
  destruct (string_dec e x) as [->|Hne].
  - exists [], rest. split; [reflexivity | intros []].
  - destruct H as [H|H]; [contradiction|].
    destruct (IH H) as (p & q & -> & Hp).
    exists (e :: p), q. split; [reflexivity|].
    intros [Hx|Hx]; [contradiction | now apply Hp].
Qed.

Lemma NoDup_split_unique (x : string) (a b a' b' : list string) :
  NoDup (a ++ x :: b) -> a ++ x :: b = a' ++ x :: b' -> a = a'.
Proof.
  revert a'. induction a as [|y a IH]; intros a' Hnd Heq.
  - destruct a' as [|y' a']; [reflexivity|].
    simpl in Heq. injection Heq as <- ->.
    inversion Hnd as [|? ? Hn _]; subst.
    exfalso. apply Hn. apply in_or_app. right. now left.
  - destruct a' as [|y' a'].
    + simpl in Heq. injection Heq as -> <-.
      inversion Hnd as [|? ? Hn _]; subst.
      exfalso. apply Hn. apply in_or_app. right. now left.
    + simpl in Heq. injection Heq as <- Heq.
      f_equal. apply IH; [|exact Heq].
      now inversion Hnd.
Qed.

(** The output keeps each address where it first occurs: what stands
    before an address in the output is the de-duplicated part of the input
    that precedes its first occurrence. *)
Lemma dedup_first_occurrence (emails before after : list string) (e : string) :
  dedup emails = before ++ e :: after ->
  exists p q, emails = p ++ e :: q /\ ~ In e p /\ before = dedup p.
Proof.
  intros H.
  assert (Hin : In e emails).
  { assert (Ho : In e (dedup emails)) by (rewrite H; apply in_or_app; right; now left).
    rewrite dedup_fresh, fresh_In in Ho. tauto. }
  destruct (in_split_first e emails Hin) as (p & q & -> & Hp).
  exists p, q. repeat split; [exact Hp|].
  assert (Hnd : NoDup (before ++ e :: after)).
  { rewrite <- H, dedup_fresh. apply fresh_NoDup. }
  rewrite dedup_fresh, fresh_app in H. simpl in H.
  rewrite app_nil_r in H.
  destruct (mem e p) eqn:E; [apply mem_In in E; contradiction|].
  rewrite dedup_fresh.
  exact (NoDup_split_unique e before after _ _ Hnd (eq_sym H)).
Qed.

Lemma accepted_trimmed (s : string) :
  accepted (strip s) = true ->
  strip (strip s) <> EmptyString /\ contains "@" (strip s) = true.
Proof.
  unfold accepted. intros H. apply andb_true_iff in H as [Hn Hc].
  split; [|exact Hc].
  rewrite strip_idem. intros E. rewrite E in Hn. discriminate Hn.
Qed.

Lemma header_branch_valid (rows : list csv_row) (e : string) :
  In e (header_branch rows) ->
  strip e <> EmptyString /\ contains "@" e = true.
Proof.
  unfold header_branch. rewrite filter_In, in_map_iff.
  intros [(d & <- & _) H]. revert H. unfold header_candidate.
  destruct (or_else _ _); apply accepted_trimmed.
Qed.

Lemma plain_branch_valid (rows : list csv_row) (e : string) :
  In e (plain_branch rows) ->
  strip e <> EmptyString /\ contains "@" e = true.
Proof.
  unfold plain_branch, plain_accepted. rewrite filter_In, in_map_iff.
  intros [(r & <- & _) H]. apply andb_true_iff in H as [H _]. revert H.
  destruct r as [|c r]; simpl.
  - intros H. discriminate H.
  - apply accepted_trimmed.
Qed.

Lemma candidates_valid (reader : string -> list csv_row) (content e : string) :
  In e (candidates reader content) ->
  strip e <> EmptyString /\ contains "@" e = true.
Proof.
  unfold candidates.
  destruct (contains "email" (lower (readline content))).
  - apply header_branch_valid.
  - apply plain_branch_valid.
Qed.

(** C3.  Whatever the file and whatever rows the CSV reader makes of it,
    the list that [load_emails] returns has no address twice, holds
    exactly the accepted candidates, keeps every address at the place of
    its first occurrence among them, and every address in it is not empty
    once trimmed and has an ["@"]. *)
Theorem load_emails_unique_ordered_valid
  (reader : string -> list csv_row) (content : string) :
  NoDup (load_emails reader content)
  /\ (forall e, In e (load_emails reader content)
                <-> In e (candidates reader content))
  /\ (forall before e after,
         load_emails reader content = before ++ e :: after ->
         exists p q, candidates reader content = p ++ e :: q
                     /\ ~ In e p /\ before = dedup p)
  /\ (forall e, In e (load_emails reader content) ->
                strip e <> EmptyString /\ contains "@" e = true).
Proof.
  unfold load_emails.
  assert (Hin : forall e, In e (dedup (candidates reader content))
                          <-> In e (candidates reader content)).
  { intros e. rewrite dedup_fresh, fresh_In. simpl. tauto. }
  split; [rewrite dedup_fresh; apply fresh_NoDup|].
  split; [exact Hin|].
  split.
  - intros before e after H. now apply dedup_first_occurrence with after.
  - intros e H. apply Hin in H. now apply candidates_valid in H.
Qed.

End LoaderFacts.

Module HeaderFacts.
Import PyStr PyStrFacts Loader LoaderSpec LoaderFacts.

Lemma row_get_scan (key : string) (d : list (string * option string)) :
  row_get key d = fold_left (scan key) d None.
Proof. reflexivity. Qed.

Lemma scan_absent (key : string) (d : list (string * option string))
  (acc : option string) :
  ~ In key (map fst d) -> fold_left (scan key) d acc = acc.
Proof.
  revert acc. induction d as [|[k v] d IH]; intros acc H; simpl; [reflexivity|].
  simpl in H. rewrite IH by tauto.
  unfold scan. simpl.
  destruct (String.eqb k key) eqn:E; [|reflexivity].
  apply String.eqb_eq in E. tauto.
Qed.

Lemma zip_row_keys (fieldnames row : list string) :
  map fst (zip_row fieldnames row) = fieldnames.
Proof.
  revert row. induction fieldnames as [|k ks IH]; intros [|v vs]; simpl;
    try reflexivity.
  - f_equal. rewrite map_map. simpl. apply map_id.
  - f_equal. apply IH.
Qed.

Lemma zip_row_nil (fieldnames : list string) :
  zip_row fieldnames [] = map (fun k => (k, None)) fieldnames.
Proof. destruct fieldnames; reflexivity. Qed.

Lemma zip_row_app (pre fn row : list string) :
  zip_row (pre ++ fn) row
  = zip_row pre row ++ zip_row fn (skipn (length pre) row).
Proof.
  revert row. induction pre as [|k pre IH]; intros row; simpl.
  - destruct row; reflexivity.
  - destruct row as [|v vs].
    + rewrite !zip_row_nil, map_app. simpl. reflexivity.
    + simpl. f_equal. apply IH.
Qed.

Lemma zip_row_head (k : string) (post row : list string) :
  zip_row (k :: post) row = (k, hd_error row) :: zip_row post (tl row).
Proof.
  destruct row as [|v vs]; simpl; [|reflexivity].
  now rewrite zip_row_nil.
Qed.

Lemma hd_error_skipn (row : list string) (n : nat) :
  hd_error (skipn n row) = nth_error row n.
Proof.
  revert row. induction n as [|n IH]; intros [|v vs]; simpl; try reflexivity.
  apply IH.
Qed.

(** Looking up a field name that heads exactly one column gives that
    column's cell, or [None] when the row is too short. *)
Lemma row_get_column (k : string) (pre post row : list string) :
  ~ In k pre -> ~ In k post ->
  row_get k (zip_row (pre ++ k :: post) row) = nth_error row (length pre).
Proof.
  intros Hpre Hpost.
  rewrite row_get_scan, zip_row_app, fold_left_app.
  rewrite (scan_absent k (zip_row pre row)) by (now rewrite zip_row_keys).
  rewrite zip_row_head. cbn [fold_left].
  rewrite scan_absent by (now rewrite zip_row_keys).
  unfold scan. cbn [fst snd]. rewrite String.eqb_refl.
  apply hd_error_skipn.
Qed.

Lemma row_get_missing (k : string) (fieldnames row : list string) :
  ~ In k fieldnames -> row_get k (zip_row fieldnames row) = None.
Proof.
  intros H. rewrite row_get_scan.
  apply scan_absent. now rewrite zip_row_keys.
Qed.

Lemma known_spelling_cases (h : string) :
  known_spelling h = true -> h = "email" \/ h = "Email" \/ h = "EMAIL".
Proof.
  unfold known_spelling. rewrite !orb_true_iff, !String.eqb_eq. tauto.
Qed.

Lemma unknown_absent (k : string) (l : list string) :
  (forall x, In x l -> known_spelling x = false) ->
  known_spelling k = true -> ~ In k l.
Proof. intros H Hk Hin. apply H in Hin. congruence. Qed.

Lemma or_else_cell (c : option string) :
  match or_else c (Some EmptyString) with
  | Some s => strip s
  | None => strip EmptyString
  end
  = strip (match c with Some s => s | None => EmptyString end).
Proof. destruct c as [[|a s]|]; reflexivity. Qed.

Lemma header_candidate_column (pre post row : list string) (h : string) :
  known_spelling h = true ->
  (forall k, In k (pre ++ post) -> known_spelling k = false) ->
  header_candidate (zip_row (pre ++ h :: post) row)
  = column_cell (length pre) row.
Proof.
  intros Hh Hothers.
  assert (Hpre : forall k, known_spelling k = true -> ~ In k pre).
  { intros k Hk Hin. apply (unknown_absent k (pre ++ post) Hothers Hk).
    apply in_or_app. now left. }
  assert (Hpost : forall k, known_spelling k = true -> ~ In k post).
  { intros k Hk Hin. apply (unknown_absent k (pre ++ post) Hothers Hk).
    apply in_or_app. now right. }
  assert (Hmiss : forall k, known_spelling k = true -> k <> h ->
                            row_get k (zip_row (pre ++ h :: post) row) = None).
  { intros k Hk Hne. apply row_get_missing. rewrite in_app_iff. simpl.
    intros [H|[H|H]]; [now apply (Hpre k) | congruence | now apply (Hpost k)]. }
  assert (Hcell : strip (match nth_error row (length pre) with
                         | Some s => s | None => EmptyString end)
                  = column_cell (length pre) row).
  { unfold column_cell. f_equal.
    destruct (nth_error row (length pre)) eqn:E.
    - symmetry. now apply nth_error_nth.
    - symmetry. apply nth_overflow. now apply nth_error_None. }
  unfold header_candidate.
  destruct (known_spelling_cases h Hh) as [ -> | [ -> | -> ] ].
  - rewrite (row_get_column "email" pre post row (Hpre "email" eq_refl) (Hpost "email" eq_refl)).
    rewrite (Hmiss "Email"), (Hmiss "EMAIL") by (reflexivity || discriminate).
    cbn [or_else]. rewrite <- Hcell.
    destruct (nth_error row (length pre)) as [[|a s]|]; reflexivity.
  - rewrite (row_get_column "Email" pre post row (Hpre "Email" eq_refl) (Hpost "Email" eq_refl)).
    rewrite (Hmiss "email"), (Hmiss "EMAIL") by (reflexivity || discriminate).
    cbn [or_else]. rewrite <- Hcell.
    destruct (nth_error row (length pre)) as [[|a s]|]; reflexivity.
  - rewrite (row_get_column "EMAIL" pre post row (Hpre "EMAIL" eq_refl) (Hpost "EMAIL" eq_refl)).
    rewrite (Hmiss "email"), (Hmiss "Email") by (reflexivity || discriminate).
    cbn [or_else]. rewrite <- Hcell.
    destruct (nth_error row (length pre)) as [[|a s]|]; reflexivity.
Qed.

Lemma header_candidate_unknown (fieldnames row : list string) :
  (forall k, In k fieldnames -> known_spelling k = false) ->
  header_candidate (zip_row fieldnames row) = EmptyString.
Proof.
  intros H. unfold header_candidate.
  rewrite !row_get_missing; [reflexivity| | |];
    apply unknown_absent; auto.
Qed.

Lemma filter_accepted_empty (l : list csv_row) (f : csv_row -> string) :
  (forall r, f r = EmptyString) -> filter accepted (map f l) = [].
Proof.
  intros H. induction l as [|r l IH]; simpl; [reflexivity|].
  rewrite H. simpl. exact IH.
Qed.

(** C4, as the code has it.  When the first line contains [email] in any
    case, the first row of the reader is taken as the header row, and the
    candidates are the trimmed cells of the one column whose header is
    spelled [email], [Email] or [EMAIL]; a header row without any of
    these three spellings gives no address at all. *)
Theorem header_column_by_exact_spelling
  (reader : string -> list csv_row) (content : string)
  (fieldnames : list string) (rest : list csv_row) :
  contains "email" (lower (readline content)) = true ->
  reader content = fieldnames :: rest ->
  (forall pre h post,
      fieldnames = pre ++ h :: post ->
      known_spelling h = true ->
      (forall k, In k (pre ++ post) -> known_spelling k = false) ->
      load_emails reader content
      = dedup (filter accepted (map (column_cell (length pre)) (data_rows rest))))
  /\ ((forall k, In k fieldnames -> known_spelling k = false) ->
      load_emails reader content = []).
Proof.
  intros Hfirst Hrows.
  unfold load_emails, candidates. rewrite Hfirst, Hrows.
  unfold header_branch, dict_reader. fold (data_rows rest).
  split.
  - intros pre h post -> Hh Hothers. f_equal. f_equal.
    rewrite map_map. apply map_ext. intros row.
    now apply header_candidate_column.
  - intros Hnone. rewrite map_map.
    rewrite filter_accepted_empty; [reflexivity|].
    intros row. now apply header_candidate_unknown.
Qed.

Lemma header_column_by_exact_spelling_witness :
  contains "email" (lower (readline capitalised_file)) = true
  /\ load_emails simple_reader capitalised_file
     = ["ann@example.com"; "bob@example.com"].
Proof.
  split; [reflexivity|].
  destruct (header_column_by_exact_spelling simple_reader capitalised_file
              ["name"; "Email"]
              [["Ann"; " ann@example.com "]; ["Bob"; "bob@example.com"];
               ["Ann2"; "ann@example.com"]]
              eq_refl eq_refl) as [Hcol _].
  rewrite (Hcol ["name"] "Email" [] eq_refl eq_refl).
  - reflexivity.
  - intros k [<-|[]]. reflexivity.
Defined.

(** C4 as the claim words it fails: with the header spelled [eMail] the
    first line does contain [email] without regard to case, the column
    found without regard to case holds two addresses, and [load_emails]
    returns none. *)
Lemma mixed_case_header_yields_nothing :
  contains "email" (lower (readline mixed_case_file)) = true
  /\ spec_load_emails simple_reader mixed_case_file
     = ["ann@example.com"; "bob@example.com"]
  /\ load_emails simple_reader mixed_case_file = []
  /\ load_emails simple_reader mixed_case_file
     <> spec_load_emails simple_reader mixed_case_file.
Proof.
  repeat split; try reflexivity.
  intros H. vm_compute in H. discriminate H.
Qed.

End HeaderFacts.

(* ===================================================================== *)
(** * Facts about the attempt loop *)
(* ===================================================================== *)

Module AttemptFacts.
Import PyStr PyStrFacts PyVal Logger Orchestrator OrchestratorSpec.
Local Open Scope Z_scope.

Lemma bind_eff_done {A B : Type} (t : list event) (a : A) (k : A -> eff B) :
  bind_eff (t, Done a) k = (t ++ fst (k a), snd (k a)).
Proof. simpl. now destruct (k a). Qed.

Lemma bind_eff_raised {A B : Type} (t : list event) (e : exn) (k : A -> eff B) :
  bind_eff (t, Raised e) k = (t, Raised e).
Proof. reflexivity. Qed.

Lemma retry_pause_events (cfg : config) (attempt : Z) :
  retry_pause cfg attempt
  = (if attempt <? retry_count cfg then [RetrySleep] else [], Done tt).
Proof. unfold retry_pause. now destruct (attempt <? retry_count cfg). Qed.

(** One failed attempt followed by the rest of the loop. *)
Lemma attempt_loop_fail_step (cfg : config) (w : world) (to_email : string)
  (attempt : Z) (rest : list Z) (st : attempt_state) :
  dry_run cfg = false ->
  failed_attempt (send_message_to_email w to_email attempt) = true ->
  attempt_loop cfg w to_email (attempt :: rest) st
  = (fail_trace cfg to_email [attempt]
     ++ fst (attempt_loop cfg w to_email rest (fail_update w to_email st attempt)),
     snd (attempt_loop cfg w to_email rest (fail_update w to_email st attempt))).
Proof.
  intros Hdry Hfail.
  cbn [attempt_loop fail_trace]. rewrite Hdry.
  unfold fail_update, emit.
  destruct (send_message_to_email w to_email attempt) as [resp|msg] eqn:E.
  - simpl in Hfail. apply negb_true_iff in Hfail. rewrite Hfail.
    rewrite bind_eff_done, retry_pause_events, bind_eff_done.
    cbn [fst snd status_after failure_text attempts last_status message_id
           error_preview ok].
    rewrite app_nil_r. reflexivity.
  - rewrite bind_eff_done, retry_pause_events, bind_eff_done.
    cbn [fst snd status_after failure_text attempts last_status message_id
           error_preview ok].
    rewrite app_nil_r. reflexivity.
Qed.

(** A run of failed attempts, then whatever the loop does next. *)
Lemma attempt_loop_fail_prefix (cfg : config) (w : world) (to_email : string)
  (failing rest : list Z) (st : attempt_state) :
  dry_run cfg = false ->
  (forall a, In a failing -> failed_attempt (send_message_to_email w to_email a) = true) ->
  attempt_loop cfg w to_email (failing ++ rest) st
  = (fail_trace cfg to_email failing
     ++ fst (attempt_loop cfg w to_email rest
               (fold_left (fail_update w to_email) failing st)),
     snd (attempt_loop cfg w to_email rest
            (fold_left (fail_update w to_email) failing st))).
Proof.
  intros Hdry. revert st.
  induction failing as [|a failing IH]; intros st Hall.
  - simpl. now destruct (attempt_loop cfg w to_email rest st).
  - change ((a :: failing) ++ rest) with (a :: (failing ++ rest)).
    rewrite attempt_loop_fail_step by (auto; apply Hall; now left).
    rewrite IH by (intros b Hb; apply Hall; now right).
    cbn [fst snd fold_left fail_trace].
    rewrite app_nil_r. cbn [app]. rewrite <- app_assoc. reflexivity.
Qed.

Lemma attempt_loop_all_fail (cfg : config) (w : world) (to_email : string)
  (todo : list Z) (st : attempt_state) :
  dry_run cfg = false ->
  (forall a, In a todo -> failed_attempt (send_message_to_email w to_email a) = true) ->
  attempt_loop cfg w to_email todo st
  = (fail_trace cfg to_email todo,
     Done (fold_left (fail_update w to_email) todo st)).
Proof.
  intros Hdry Hall.
  rewrite <- (app_nil_r todo) at 1.
  rewrite attempt_loop_fail_prefix by assumption.
  simpl. now rewrite app_nil_r.
Qed.

(** A successful attempt ends the loop, whatever attempts are left. *)
Lemma attempt_loop_success (cfg : config) (w : world) (to_email : string)
  (attempt : Z) (rest : list Z) (st : attempt_state) (resp : response) :
  dry_run cfg = false ->
  send_message_to_email w to_email attempt = Returned resp ->
  is_success (status_code resp) = true ->
  attempt_loop cfg w to_email (attempt :: rest) st
  = ([TransportCall to_email attempt],
     match body_id (json_body resp) with
     | Done id => Done {| attempts := attempt;
                          last_status := JInt (status_code resp);
                          message_id := id;
                          error_preview := error_preview st;
                          ok := true |}
     | Raised e => Raised e
     end).
Proof.
  intros Hdry Hsend Hok.
  cbn [attempt_loop]. rewrite Hdry, Hsend, Hok.
  unfold emit, lift, body_id. rewrite bind_eff_done.
  destruct (py_get _ "id" (JStr "")); reflexivity.
Qed.

Lemma range_nil (start stop : Z) : stop <= start -> range start stop = [].
Proof.
  intros H. unfold range.
  replace (Z.to_nat (stop - start)) with 0%nat by lia. reflexivity.
Qed.

Lemma range_In (start stop a : Z) :
  In a (range start stop) <-> start <= a < stop.
Proof.
  unfold range. rewrite in_map_iff. split.
  - intros (k & <- & Hk). apply in_seq in Hk. lia.
  - intros H. exists (Z.to_nat (a - start)). split; [lia|].
    apply in_seq. lia.
Qed.

Lemma map_seq_offset {A : Type} (f : nat -> A) (a n : nat) :
  map f (seq a n) = map (fun k => f (a + k)%nat) (seq 0 n).
Proof.
  revert f a. induction n as [|n IH]; intros f a; simpl.
  - reflexivity.
  - rewrite Nat.add_0_r. f_equal.
    rewrite (IH f (S a)), (IH (fun k => f (a + k)%nat) 1%nat).
    apply map_ext. intros k. f_equal. lia.
Qed.

Lemma range_split (start mid stop : Z) :
  start <= mid <= stop ->
  range start stop = range start mid ++ range mid stop.
Proof.
  intros H. unfold range.
  replace (Z.to_nat (stop - start))
    with (Z.to_nat (mid - start) + Z.to_nat (stop - mid))%nat by lia.
  rewrite seq_app, map_app. f_equal.
  rewrite map_seq_offset. apply map_ext. intros k. lia.
Qed.

Lemma range_single (a : Z) : range a (a + 1) = [a].
Proof.
  unfold range. replace (Z.to_nat (a + 1 - a)) with 1%nat by lia.
  simpl. f_equal. lia.
Qed.

Lemma fold_fail_ok (w : world) (to_email : string) (todo : list Z)
  (st : attempt_state) :
  ok (fold_left (fail_update w to_email) todo st) = ok st
  /\ message_id (fold_left (fail_update w to_email) todo st) = message_id st.
Proof.
  revert st. induction todo as [|a todo IH]; intros st; simpl; [now split|].
  destruct (IH (fail_update w to_email st a)) as [-> ->]. now split.
Qed.

Lemma fold_fail_status (w : world) (to_email : string) (todo : list Z)
  (st : attempt_state) :
  last_status (fold_left (fail_update w to_email) todo st)
  = fold_left status_after (map (send_message_to_email w to_email) todo) (last_status st).
Proof.
  revert st. induction todo as [|a todo IH]; intros st; simpl; [reflexivity|].
  now rewrite IH.
Qed.

Lemma preview_short (s : string) : (String.length (preview s) <= 300)%nat.
Proof.
  unfold preview, flatten_newlines.
  rewrite length_map_chars. apply length_take.
Qed.

Lemma preview_one_line (s : string) : free_of newline (preview s).
Proof. unfold preview. apply flatten_newlines_free. Qed.

Lemma fold_fail_preview (w : world) (to_email : string) (todo : list Z)
  (st : attempt_state) :
  (String.length (error_preview st) <= 300)%nat ->
  free_of newline (error_preview st) ->
  (String.length (error_preview (fold_left (fail_update w to_email) todo st))
   <= 300)%nat
  /\ free_of newline (error_preview (fold_left (fail_update w to_email) todo st)).
Proof.
  revert st. induction todo as [|a todo IH]; intros st Hlen Hfree; simpl.
  - now split.
  - apply IH; simpl; [apply preview_short | apply preview_one_line].
Qed.

(** C2.  With the retry count [R], if every attempt from 1 to [R] fails
    (a status other than 200 and 201, or a transport exception), the
    attempt loop ends normally with [ok = False] and [attempts = R]; the
    status it holds is the last one that a response set, the preview is
    that of attempt [R] alone, cut to 300 characters and free of
    newlines; the row written says [failed], and the loop over the batch
    goes on with the recipients that follow. *)
Theorem exhausted_attempts_fail (cfg : config) (w : world) (to_email : string) :
  dry_run cfg = false ->
  0 <= retry_count cfg ->
  (forall a, 1 <= a <= retry_count cfg ->
             failed_attempt (send_message_to_email w to_email a) = true) ->
  exists st,
    attempt_recipient cfg w to_email
    = (fail_trace cfg to_email (range 1 (retry_count cfg + 1)), Done st)
    /\ ok st = false
    /\ attempts st = retry_count cfg
    /\ message_id st = JStr ""
    /\ last_status st
       = fold_left status_after
           (map (send_message_to_email w to_email) (range 1 (retry_count cfg + 1))) JNull
    /\ (1 <= retry_count cfg ->
        error_preview st
        = preview (failure_text (send_message_to_email w to_email (retry_count cfg)))
        /\ forall resp, send_message_to_email w to_email (retry_count cfg) = Returned resp ->
                        last_status st = JInt (status_code resp))
    /\ (String.length (error_preview st) <= 300)%nat
    /\ free_of newline (error_preview st)
    /\ forall rest t,
        deliver_batch cfg w (to_email :: rest) t
        = (fail_trace cfg to_email (range 1 (retry_count cfg + 1))
           ++ [LogRow (failed_row w to_email st)]
           ++ fst (deliver_batch cfg w rest
                     {| total_sent := total_sent t;
                        total_failed := total_failed t + 1 |}),
           snd (deliver_batch cfg w rest
                  {| total_sent := total_sent t;
                     total_failed := total_failed t + 1 |})).
Proof.
  intros Hdry HR Hall.
  set (todo := range 1 (retry_count cfg + 1)).
  set (st := fold_left (fail_update w to_email) todo initial_state).
  assert (Hrun : attempt_recipient cfg w to_email
                 = (fail_trace cfg to_email todo, Done st)).
  { unfold attempt_recipient. apply attempt_loop_all_fail; [exact Hdry|].
    intros a Ha. apply Hall. apply range_In in Ha. lia. }
  destruct (fold_fail_ok w to_email todo initial_state) as [Hok Hid].
  fold st in Hok, Hid. simpl in Hok, Hid.
  assert (Hlast : 1 <= retry_count cfg ->
                  st = fail_update w to_email
                         (fold_left (fail_update w to_email)
                            (range 1 (retry_count cfg)) initial_state)
                         (retry_count cfg)).
  { intros H1. unfold st, todo.
    rewrite (range_split 1 (retry_count cfg) (retry_count cfg + 1)) by lia.
    rewrite range_single, fold_left_app. reflexivity. }
  exists st. split; [exact Hrun|]. split; [exact Hok|].
  split.
  { destruct (Z.eq_dec (retry_count cfg) 0) as [E|E].
    - unfold st, todo. rewrite E. reflexivity.
    - rewrite Hlast by lia. reflexivity. }
  split; [exact Hid|].
  split; [unfold st; now rewrite fold_fail_status|].
  split.
  { intros H1. rewrite (Hlast H1). split; [reflexivity|].
    intros resp Hresp. simpl. now rewrite Hresp. }
  destruct (fold_fail_preview w to_email todo initial_state) as [Hlen Hfree];
    [simpl; lia | exact I |].
  fold st in Hlen, Hfree.
  split; [exact Hlen|]. split; [exact Hfree|].
  intros rest t. cbn [deliver_batch]. unfold deliver. rewrite Hrun.
  rewrite !bind_eff_done. unfold emit. rewrite !bind_eff_done.
  cbn [fst snd ret]. rewrite bind_eff_done.
  unfold result_row, count_result, failed_row. rewrite Hok.
  cbn [fst snd]. rewrite !app_nil_r, <- !app_assoc. reflexivity.
Qed.

Lemma exhausted_attempts_fail_witness :
  exists st,
    snd (attempt_recipient defaults down "ann@example.com") = Done st
    /\ ok st = false /\ attempts st = 3
    /\ last_status st = JInt 500
    /\ error_preview st = "Internal error".
Proof.
  destruct (exhausted_attempts_fail defaults down "ann@example.com"
              eq_refl ltac:(simpl; lia) (fun a _ => eq_refl))
    as (st & Hrun & Hok & Hatt & _ & Hst & Hlast & _).
  exists st. rewrite Hrun.
  split; [reflexivity|]. split; [exact Hok|]. split; [exact Hatt|].
  split.
  - exact (proj2 (Hlast ltac:(simpl; lia)) server_error eq_refl).
  - exact (proj1 (Hlast ltac:(simpl; lia))).
Defined.

Lemma body_id_cases :
  body_id JsonError = Done (JStr "")
  /\ (forall d, lookup "id" d = None ->
                body_id (JsonValue (JObj d)) = Done (JStr ""))
  /\ (forall d id, lookup "id" d = Some id ->
                   body_id (JsonValue (JObj d)) = Done id).
Proof.
  repeat split.
  - intros d H. unfold body_id, py_get, get_default. now rewrite H.
  - intros d id H. unfold body_id, py_get, get_default. now rewrite H.
Qed.

(** Failures on attempts 1 to [k], then a success on attempt [k + 1]
    whose body does not decode or decodes to an object: the loop stops
    there with [ok = True], [attempts = k + 1] and the identifier of the
    body; it made [k + 1] transport calls and no more. *)
Lemma success_after_failures (cfg : config) (w : world) (to_email : string)
  (k : Z) (resp : response) (id : json) :
  dry_run cfg = false ->
  0 <= k < retry_count cfg ->
  (forall a, 1 <= a <= k -> failed_attempt (send_message_to_email w to_email a) = true) ->
  send_message_to_email w to_email (k + 1) = Returned resp ->
  is_success (status_code resp) = true ->
  body_id (json_body resp) = Done id ->
  exists st,
    attempt_recipient cfg w to_email
    = (fail_trace cfg to_email (range 1 (k + 1))
       ++ [TransportCall to_email (k + 1)], Done st)
    /\ ok st = true
    /\ attempts st = k + 1
    /\ message_id st = id
    /\ last_status st = JInt (status_code resp)
    /\ transport_calls (fst (attempt_recipient cfg w to_email))
       = map (fun a => (to_email, a)) (range 1 (k + 2))
    /\ result_row w to_email st = sent_row w to_email st.
Proof.
  intros Hdry Hk Hfail Hsend Hok Hid.
  unfold attempt_recipient.
  rewrite (range_split 1 (k + 1) (retry_count cfg + 1)) by lia.
  rewrite attempt_loop_fail_prefix
    by (auto; intros a Ha; apply Hfail; apply range_In in Ha; lia).
  rewrite (range_split (k + 1) (k + 1 + 1) (retry_count cfg + 1)) by lia.
  rewrite range_single. cbn [app].
  rewrite (attempt_loop_success cfg w to_email (k + 1) _ _ resp Hdry Hsend Hok).
  rewrite Hid. cbn [fst snd].
  eexists. split; [reflexivity|]. cbn [ok attempts message_id last_status].
  repeat split.
  rewrite (range_split 1 (k + 1) (k + 2)) by lia.
  replace (k + 2) with (k + 1 + 1) by lia. rewrite range_single.
  rewrite map_app. cbn [map].
  generalize (range 1 (k + 1)) as l. intros l.
  induction l as [|a l IH]; [reflexivity|].
  cbn [fail_trace map app transport_calls].
  destruct (a <? retry_count cfg); cbn [app transport_calls]; now rewrite IH.
Qed.

(** C1, at the input where the code departs from it.  With the default
    retry count of 3, a first attempt that returns status 200 with a body
    that decodes to a JSON array makes [data.get] raise [AttributeError],
    which no handler of the loop catches: after one transport call the
    attempt loop is left by the exception, no row is written, and the
    recipient after it is never addressed. *)
Theorem array_body_aborts_run :
  send_message_to_email odd_body "ann@example.com" 1 = Returned created_with_array
  /\ is_success (status_code created_with_array) = true
  /\ attempt_recipient defaults odd_body "ann@example.com"
     = ([TransportCall "ann@example.com" 1], Raised AttributeError)
  /\ main_loop defaults odd_body ["ann@example.com"; "bob@example.com"]
     = ([TransportCall "ann@example.com" 1], Raised AttributeError)
  /\ logged_rows (fst (main_loop defaults odd_body
                         ["ann@example.com"; "bob@example.com"])) = [].
Proof. repeat split. Qed.

(** Status 500 twice, then status 200: [sent] on the third attempt. *)
Example flaky_sent_on_third_attempt :
  attempt_recipient defaults flaky "ann@example.com"
  = ([TransportCall "ann@example.com" 1; RetrySleep;
      TransportCall "ann@example.com" 2; RetrySleep;
      TransportCall "ann@example.com" 3],
     Done {| attempts := 3; last_status := JInt 200;
             message_id := JStr "Y2lzY29";
             error_preview := "Internal error"; ok := true |}).
Proof. reflexivity. Qed.

End AttemptFacts.

(* ===================================================================== *)
(** * Facts about the run *)
(* ===================================================================== *)

Module RunFacts.
Import PyStr PyStrFacts PyVal Logger Orchestrator OrchestratorSpec AttemptFacts.
Local Open Scope Z_scope.

Lemma bind_eff_inv {A B : Type} (m : eff A) (k : A -> eff B)
  (tr : list event) (b : B) :
  bind_eff m k = (tr, Done b) ->
  exists t1 a t2, m = (t1, Done a) /\ k a = (t2, Done b) /\ tr = t1 ++ t2.
Proof.
  destruct m as [t1 [a|e]]; simpl; [|discriminate].
  destruct (k a) as [t2 r] eqn:E. intros H. injection H as <- ->.
  now exists t1, a, t2.
Qed.

Lemma bind_eff_trace {A B : Type} (m : eff A) (k : A -> eff B) :
  exists t2, fst (bind_eff m k) = fst m ++ t2
             /\ (t2 = [] \/ exists a, snd m = Done a /\ t2 = fst (k a)).
Proof.
  destruct m as [t1 [a|e]]; simpl.
  - destruct (k a) as [t2 r] eqn:E. exists t2. split; [reflexivity|].
    right. exists a. now rewrite E.
  - exists []. now rewrite app_nil_r; auto.
Qed.

Lemma logged_rows_app (a b : list event) :
  logged_rows (a ++ b) = logged_rows a ++ logged_rows b.
Proof.
  induction a as [|[] a IH]; simpl; try exact IH; [reflexivity|].
  now rewrite IH.
Qed.

Lemma transport_calls_app (a b : list event) :
  transport_calls (a ++ b) = transport_calls a ++ transport_calls b.
Proof.
  induction a as [|[] a IH]; simpl; try exact IH; [reflexivity|].
  now rewrite IH.
Qed.

Lemma batch_sleeps_app (a b : list event) :
  batch_sleeps (a ++ b) = batch_sleeps a ++ batch_sleeps b.
Proof.
  induction a as [|[] a IH]; simpl; try exact IH; [reflexivity|].
  now rewrite IH.
Qed.

(** The attempt loop writes no row and takes no pause between batches. *)
Lemma attempt_loop_quiet (cfg : config) (w : world) (to_email : string)
  (todo : list Z) (st : attempt_state) :
  logged_rows (fst (attempt_loop cfg w to_email todo st)) = []
  /\ batch_sleeps (fst (attempt_loop cfg w to_email todo st)) = [].
Proof.
  revert st. induction todo as [|a todo IH]; intros st; [now split|].
  cbn [attempt_loop]. destruct (dry_run cfg); [now split|].
  unfold emit. rewrite bind_eff_done. cbn [fst app logged_rows batch_sleeps].
  destruct (send_message_to_email w to_email a) as [resp|msg].
  - destruct (is_success (status_code resp)).
    + unfold lift. destruct (py_get _ "id" (JStr "")); now split.
    + rewrite retry_pause_events, bind_eff_done. cbn [fst].
      rewrite logged_rows_app, batch_sleeps_app.
      rewrite (proj1 (IH _)), (proj2 (IH _)).
      destruct (a <? retry_count cfg); now split.
  - rewrite retry_pause_events, bind_eff_done. cbn [fst].
    rewrite logged_rows_app, batch_sleeps_app.
    rewrite (proj1 (IH _)), (proj2 (IH _)).
    destruct (a <? retry_count cfg); now split.
Qed.

(** In a dry run the attempt loop has no effect at all. *)
Lemma attempt_loop_dry (cfg : config) (w : world) (to_email : string)
  (todo : list Z) (st : attempt_state) :
  dry_run cfg = true ->
  fst (attempt_loop cfg w to_email todo st) = []
  /\ exists st', snd (attempt_loop cfg w to_email todo st) = Done st'.
Proof.
  intros Hdry. destruct todo as [|a todo]; cbn [attempt_loop].
  - split; [reflexivity|]. now exists st.
  - rewrite Hdry. split; [reflexivity|]. eexists. reflexivity.
Qed.

Lemma result_row_shape (w : world) (to_email : string) (st : attempt_state) :
  cell 1 (result_row w to_email st) = JStr to_email
  /\ is_data_row (result_row w to_email st) = true
  /\ is_sent (result_row w to_email st) = ok st
  /\ is_failed (result_row w to_email st) = negb (ok st)
  /\ (is_sent (result_row w to_email st) = true ->
      cell 6 (result_row w to_email st) = JStr "").
Proof.
  unfold result_row. destruct (ok st); repeat split; discriminate.
Qed.

(** What a recipient that was dealt with leaves behind. *)
Lemma deliver_done (cfg : config) (w : world) (to_email : string)
  (t t' : totals) (tr : list event) :
  deliver cfg w to_email t = (tr, Done t') ->
  exists st,
    snd (attempt_recipient cfg w to_email) = Done st
    /\ logged_rows tr = [result_row w to_email st]
    /\ batch_sleeps tr = []
    /\ t' = count_result st t.
Proof.
  unfold deliver. intros H.
  apply bind_eff_inv in H as (t1 & st & t2 & Hatt & H & ->).
  apply bind_eff_inv in H as (t3 & [] & t4 & Hemit & H & ->).
  injection Hemit as <-. injection H as <- <-.
  exists st. rewrite Hatt. split; [reflexivity|].
  rewrite logged_rows_app, batch_sleeps_app.
  destruct (attempt_loop_quiet cfg w to_email
              (range 1 (retry_count cfg + 1)) initial_state) as [Hq Hs].
  unfold attempt_recipient in Hatt. rewrite Hatt in Hq, Hs. simpl in Hq, Hs.
  rewrite Hq, Hs. now repeat split.
Qed.

Lemma row_of_done (cfg : config) (w : world) (to_email : string)
  (st : attempt_state) :
  snd (attempt_recipient cfg w to_email) = Done st ->
  row_of cfg w to_email = result_row w to_email st.
Proof. unfold row_of. now intros ->. Qed.

Lemma count_rows_cons (p : log_row -> bool) (row : log_row) (rows : list log_row) :
  count_rows p (row :: rows) = (if p row then 1 else 0) + count_rows p rows.
Proof.
  unfold count_rows. simpl. destruct (p row); simpl length; lia.
Qed.

Lemma count_rows_app (p : log_row -> bool) (a b : list log_row) :
  count_rows p (a ++ b) = count_rows p a + count_rows p b.
Proof.
  unfold count_rows. rewrite filter_app, length_app. lia.
Qed.

(** The invariant of the loop over a batch, read at its end. *)
Lemma deliver_batch_done (cfg : config) (w : world) (batch : list string)
  (t t' : totals) (tr : list event) :
  deliver_batch cfg w batch t = (tr, Done t') ->
  logged_rows tr = map (row_of cfg w) batch
  /\ batch_sleeps tr = []
  /\ Forall (fun e => exists st, snd (attempt_recipient cfg w e) = Done st) batch
  /\ total_sent t' = total_sent t + count_rows is_sent (map (row_of cfg w) batch)
  /\ total_failed t'
     = total_failed t + count_rows is_failed (map (row_of cfg w) batch).
Proof.
  revert t tr. induction batch as [|e batch IH]; intros t tr H.
  - injection H as <- <-. unfold count_rows. simpl. repeat split; try lia.
    constructor.
  - cbn [deliver_batch] in H.
    apply bind_eff_inv in H as (t1 & tm & t2 & Hd & H & ->).
    apply deliver_done in Hd as (st & Hst & Hrows & Hsl & ->).
    apply IH in H as (Hr & Hs & Hall & Hsent & Hfailed).
    rewrite logged_rows_app, batch_sleeps_app, Hrows, Hr, Hsl, Hs.
    cbn [map]. rewrite !count_rows_cons, (row_of_done _ _ _ _ Hst).
    destruct (result_row_shape w e st) as (_ & _ & Hsn & Hfl & _).
    rewrite Hsn, Hfl. rewrite Hsent, Hfailed.
    split; [reflexivity|]. split; [reflexivity|].
    split; [constructor; [now exists st | exact Hall]|].
    unfold count_result.
    destruct (ok st); cbn [total_sent total_failed negb]; split; lia.
Qed.

End RunFacts.

(* ===================================================================== *)
(** * Facts about batches *)
(* ===================================================================== *)

Module BatchFacts.
Import PyStr PyVal Logger Orchestrator OrchestratorSpec AttemptFacts RunFacts.
Local Open Scope Z_scope.

Section Chunks.
Context {A : Type}.
Variable items : list A.
Variable size : Z.
Hypothesis size_pos : 0 < size.

Let n : Z := Z.of_nat (length items).
Let b : nat := Z.to_nat size.

Lemma slice_chunk (k : nat) :
  slice items (Z.of_nat k * size) (Z.of_nat k * size + size) = chunk items size k.
Proof.
  unfold slice, chunk, b. f_equal; [f_equal; lia|].
  f_equal. rewrite Z2Nat.inj_mul by lia. now rewrite Nat2Z.id.
Qed.

Lemma chunked_chunks :
  chunked items size
  = Done (map (chunk items size) (seq 0 (Z.to_nat (ceil_div n size)))).
Proof.
  unfold chunked, range_step.
  destruct (Z.eqb_spec size 0) as [E|_]; [lia|].
  destruct (Z.ltb_spec 0 size) as [_|E]; [|lia].
  cbn [bind]. f_equal. rewrite map_map.
  unfold ceil_div. fold n. rewrite Z.sub_0_r.
  apply map_ext. intros k. cbn [Z.add]. apply slice_chunk.
Qed.

Lemma firstn_add (a c : nat) (l : list A) :
  firstn (a + c) l = firstn a l ++ firstn c (skipn a l).
Proof.
  revert l. induction a as [|a IH]; intros l; [reflexivity|].
  destruct l as [|x l]; simpl.
  - now rewrite firstn_nil.
  - now rewrite IH.
Qed.

Lemma concat_chunks (m : nat) :
  concat (map (chunk items size) (seq 0 m)) = firstn (m * b) items.
Proof.
  induction m as [|m IH]; [reflexivity|].
  rewrite seq_S, map_app, concat_app, IH. cbn [map concat Nat.add].
  rewrite app_nil_r. unfold chunk.
  replace (S m * b)%nat with (m * b + b)%nat by lia.
  now rewrite firstn_add.
Qed.

Lemma ceil_div_bounds :
  size * (ceil_div n size - 1) < n <= size * ceil_div n size.
Proof.
  unfold ceil_div.
  pose proof (Z.mul_div_le (n + size - 1) size size_pos).
  pose proof (Z.mul_succ_div_gt (n + size - 1) size size_pos).
  lia.
Qed.

Lemma ceil_div_nonneg : 0 <= ceil_div n size.
Proof.
  unfold ceil_div. apply Z.div_pos; [|exact size_pos]. unfold n. lia.
Qed.

(** Batch [i] is not the last one exactly when [i * size < n]. *)
Lemma before_last (i : Z) : i * size < n <-> i < ceil_div n size.
Proof. pose proof ceil_div_bounds. nia. Qed.

Lemma length_chunk (k : nat) :
  Z.of_nat (length (chunk items size k))
  = Z.max 0 (Z.min size (n - Z.of_nat k * size)).
Proof.
  unfold chunk. rewrite length_firstn, length_skipn.
  unfold n, b. nia.
Qed.

Lemma chunks_cover :
  concat (map (chunk items size) (seq 0 (Z.to_nat (ceil_div n size)))) = items.
Proof.
  rewrite concat_chunks. apply firstn_all2.
  pose proof ceil_div_bounds. pose proof ceil_div_nonneg.
  unfold n, b in *. nia.
Qed.

End Chunks.

Lemma range_cons (a stop : Z) : a < stop -> range a stop = a :: range (a + 1) stop.
Proof.
  intros H. rewrite (range_split a (a + 1) stop) by lia.
  now rewrite range_single.
Qed.

Lemma filter_all {A : Type} (p : A -> bool) (l : list A) :
  (forall x, In x l -> p x = true) -> filter p l = l.
Proof.
  induction l as [|x l IH]; intros H; simpl; [reflexivity|].
  rewrite H by (now left). f_equal. apply IH. intros y Hy. apply H. now right.
Qed.

(** The pauses of a loop over batches that came to its end. *)
Lemma batch_loop_done (cfg : config) (w : world) (n_emails : Z)
  (batches : list (list string)) (batch_index : Z) (t t' : totals)
  (tr : list event) :
  batch_loop cfg w n_emails batches batch_index t = (tr, Done t') ->
  batch_sleeps tr
  = filter (pause_after cfg n_emails)
      (range (batch_index + 1)
         (batch_index + 1 + Z.of_nat (length batches)))
  /\ logged_rows tr = map (row_of cfg w) (concat batches)
  /\ total_sent t'
     = total_sent t + count_rows is_sent (map (row_of cfg w) (concat batches))
  /\ total_failed t'
     = total_failed t
       + count_rows is_failed (map (row_of cfg w) (concat batches))
  /\ Forall (fun e => exists st, snd (attempt_recipient cfg w e) = Done st)
       (concat batches).
Proof.
  revert batch_index t tr.
  induction batches as [|batch rest IH]; intros batch_index t tr H.
  - injection H as <- <-. rewrite range_nil by (simpl; lia).
    unfold count_rows. simpl. repeat split; try lia. constructor.
  - cbn [batch_loop] in H.
    apply bind_eff_inv in H as (t1 & tm & t2 & Hb & H & ->).
    apply bind_eff_inv in H as (t3 & [] & t4 & Hp & H & ->).
    apply deliver_batch_done in Hb as (Hr1 & Hs1 & Hall1 & Hsent1 & Hfail1).
    apply IH in H as (Hs & Hr & Hsent & Hfail & Hall).
    rewrite !batch_sleeps_app, !logged_rows_app, Hs1, Hr1, Hs, Hr.
    cbn [concat length]. rewrite map_app, !count_rows_app.
    rewrite (range_cons (batch_index + 1)
               (batch_index + 1 + Z.of_nat (S (length rest)))) by lia.
    cbn [filter].
    replace (batch_index + 1 + Z.of_nat (S (length rest)))
      with (batch_index + 1 + 1 + Z.of_nat (length rest)) by lia.
    assert (Hpause : batch_sleeps t3
                     = (if pause_after cfg n_emails (batch_index + 1)
                        then [batch_index + 1] else [])
                     /\ logged_rows t3 = []).
    { destruct (pause_after cfg n_emails (batch_index + 1));
        injection Hp as <-; now split. }
    destruct Hpause as [-> ->].
    split.
    { destruct (pause_after cfg n_emails (batch_index + 1)); reflexivity. }
    split; [reflexivity|].
    split; [lia|]. split; [lia|].
    apply Forall_app. now split.
Qed.

Lemma main_loop_done (cfg : config) (w : world) (emails : list string)
  (t : totals) (tr : list event) :
  0 < batch_size cfg ->
  main_loop cfg w emails = (tr, Done t) ->
  batch_sleeps tr
  = range 1 (ceil_div (Z.of_nat (length emails)) (batch_size cfg))
  /\ logged_rows tr = map (row_of cfg w) emails
  /\ total_sent t = count_rows is_sent (map (row_of cfg w) emails)
  /\ total_failed t = count_rows is_failed (map (row_of cfg w) emails)
  /\ Forall (fun e => exists st, snd (attempt_recipient cfg w e) = Done st)
       emails.
Proof.
  intros Hpos H. unfold main_loop in H.
  rewrite (chunked_chunks emails (batch_size cfg) Hpos) in H.
  unfold lift in H. rewrite bind_eff_done in H. cbn [app] in H.
  set (n := Z.of_nat (length emails)) in *.
  set (nb := ceil_div n (batch_size cfg)) in *.
  destruct (batch_loop cfg w n
              (map (chunk emails (batch_size cfg)) (seq 0 (Z.to_nat nb))) 0
              {| total_sent := 0; total_failed := 0 |}) as [tr' r] eqn:E.
  cbn [fst snd] in H. injection H as -> ->.
  apply batch_loop_done in E as (Hs & Hr & Hsent & Hfail & Hall).
  pose proof (chunks_cover emails (batch_size cfg) Hpos) as Hc.
  fold n in Hc. fold nb in Hc. rewrite Hc in Hr, Hsent, Hfail, Hall.
  split; [|now repeat split].
  rewrite Hs, length_map, length_seq.
  pose proof (ceil_div_nonneg emails (batch_size cfg) Hpos) as Hnb.
  fold n nb in Hnb.
  replace (0 + 1 + Z.of_nat (Z.to_nat nb)) with (nb + 1) by lia.
  destruct (Z.eq_dec nb 0) as [E0|E0].
  - rewrite E0. reflexivity.
  - rewrite (range_split (0 + 1) nb (nb + 1)) by lia.
    rewrite range_single, filter_app. cbn [filter].
    assert (Hlast : pause_after cfg n nb = false).
    { unfold pause_after. apply Z.ltb_ge.
      pose proof (before_last emails (batch_size cfg) Hpos nb) as Hb.
      fold n nb in Hb. lia. }
    rewrite Hlast, app_nil_r. apply filter_all.
    intros i Hi. apply range_In in Hi. unfold pause_after. apply Z.ltb_lt.
    apply (before_last emails (batch_size cfg) Hpos i). fold n nb. lia.
Qed.

End BatchFacts.

(* ===================================================================== *)
(** * Batches, dry runs, accounting *)
(* ===================================================================== *)

Module RunTheorems.
Import PyStr PyVal Logger Orchestrator OrchestratorSpec RunSpec.
Import AttemptFacts RunFacts BatchFacts.
Local Open Scope Z_scope.

Lemma nth_chunks {A : Type} (items : list A) (size : Z) (m k : nat) :
  (k < m)%nat ->
  nth k (map (chunk items size) (seq 0 m)) [] = chunk items size k.
Proof.
  intros H.
  rewrite (nth_indep _ [] (chunk items size 0)) by (now rewrite length_map, length_seq).
  rewrite map_nth, seq_nth by exact H. reflexivity.
Qed.

(** C7.  For a positive batch size [B] and [N] recipients, [chunked]
    yields [ceil(N / B)] batches that are consecutive slices of the list
    and give it back when put end to end; every batch but the last has
    [B] recipients and the last has between 1 and [B]; the test after
    batch [i] asks for a pause exactly when [i * B < N], which is the
    case for every batch but the last; a loop that comes to its end has
    paused after the batches 1 to [ceil(N / B) - 1] and after no other. *)
Theorem batches_and_pauses (cfg : config) (emails : list string) :
  0 < batch_size cfg ->
  exists batches,
    chunked emails (batch_size cfg) = Done batches
    /\ concat batches = emails
    /\ Z.of_nat (length batches)
       = ceil_div (Z.of_nat (length emails)) (batch_size cfg)
    /\ (forall k, (k < length batches)%nat ->
          nth k batches []
          = slice emails (Z.of_nat k * batch_size cfg)
              (Z.of_nat k * batch_size cfg + batch_size cfg)
          /\ (Z.of_nat k + 1 < Z.of_nat (length batches) ->
              Z.of_nat (length (nth k batches [])) = batch_size cfg)
          /\ (Z.of_nat k + 1 = Z.of_nat (length batches) ->
              Z.of_nat (length (nth k batches []))
              = Z.of_nat (length emails) - Z.of_nat k * batch_size cfg
              /\ 0 < Z.of_nat (length (nth k batches [])) <= batch_size cfg))
    /\ (forall i,
          (pause_after cfg (Z.of_nat (length emails)) i = true
           <-> i * batch_size cfg < Z.of_nat (length emails))
          /\ (pause_after cfg (Z.of_nat (length emails)) i = true
              <-> i < Z.of_nat (length batches)))
    /\ (forall w tr t,
          main_loop cfg w emails = (tr, Done t) ->
          batch_sleeps tr = range 1 (Z.of_nat (length batches))).
Proof.
  intros Hpos.
  set (n := Z.of_nat (length emails)).
  set (nb := ceil_div n (batch_size cfg)).
  pose proof (ceil_div_nonneg emails (batch_size cfg) Hpos) as Hnb.
  pose proof (ceil_div_bounds emails (batch_size cfg) Hpos) as Hbounds.
  fold n in Hnb, Hbounds. fold nb in Hnb, Hbounds.
  exists (map (chunk emails (batch_size cfg)) (seq 0 (Z.to_nat nb))).
  assert (Hlen : Z.of_nat (length (map (chunk emails (batch_size cfg))
                                     (seq 0 (Z.to_nat nb)))) = nb).
  { rewrite length_map, length_seq. lia. }
  split; [apply chunked_chunks; exact Hpos|].
  split; [apply chunks_cover; exact Hpos|].
  split; [exact Hlen|].
  split.
  { intros k Hk. rewrite Hlen.
    rewrite length_map, length_seq in Hk.
    rewrite nth_chunks by exact Hk.
    rewrite <- slice_chunk by exact Hpos.
    split; [reflexivity|].
    rewrite slice_chunk by exact Hpos.
    pose proof (length_chunk emails (batch_size cfg) Hpos k) as Hl. fold n in Hl.
    split; intros Hi; nia. }
  split.
  { intros i. rewrite Hlen. unfold pause_after. rewrite Z.ltb_lt.
    split; [reflexivity|].
    apply (before_last emails (batch_size cfg) Hpos i). }
  intros w tr t Hrun. rewrite Hlen.
  now apply (main_loop_done cfg w emails t tr Hpos) in Hrun as [-> _].
Qed.

Lemma batches_and_pauses_witness :
  exists batches,
    chunked (recipients 23) 10 = Done batches
    /\ map (@length string) batches = [10; 10; 3]%nat
    /\ concat batches = recipients 23
    /\ map (pause_after defaults 23) [1; 2; 3] = [true; true; false]
    /\ batch_sleeps (fst (main_loop defaults flaky (recipients 23))) = [1; 2].
Proof.
  destruct (batches_and_pauses defaults (recipients 23) ltac:(simpl; lia))
    as (batches & Hc & Hcat & Hlen & _ & _ & Hsleep).
  exists batches. split; [exact Hc|].
  assert (Hthree : Z.of_nat (length batches) = 3) by exact Hlen.
  split.
  { vm_compute in Hc. injection Hc as <-. reflexivity. }
  split; [exact Hcat|]. split; [reflexivity|].
  change [1; 2] with (range 1 3). rewrite <- Hthree.
  apply (Hsleep flaky _ {| total_sent := 23; total_failed := 0 |}).
  vm_compute. reflexivity.
Defined.

Lemma attempt_recipient_dry (cfg : config) (w : world) (to_email : string) :
  dry_run cfg = true -> 1 <= retry_count cfg ->
  attempt_recipient cfg w to_email = ([], Done dry_state).
Proof.
  intros Hdry HR. unfold attempt_recipient.
  rewrite range_cons by lia. cbn [attempt_loop]. now rewrite Hdry.
Qed.

Lemma deliver_dry (cfg : config) (w : world) (to_email : string) (t : totals) :
  dry_run cfg = true -> 1 <= retry_count cfg ->
  deliver cfg w to_email t
  = ([LogRow (dry_row w to_email)],
     Done {| total_sent := total_sent t + 1; total_failed := total_failed t |}).
Proof.
  intros Hdry HR. unfold deliver.
  now rewrite (attempt_recipient_dry cfg w to_email Hdry HR).
Qed.

Lemma deliver_batch_dry (cfg : config) (w : world) (batch : list string)
  (t : totals) :
  dry_run cfg = true -> 1 <= retry_count cfg ->
  deliver_batch cfg w batch t
  = (map (fun e => LogRow (dry_row w e)) batch,
     Done {| total_sent := total_sent t + Z.of_nat (length batch);
             total_failed := total_failed t |}).
Proof.
  intros Hdry HR. revert t.
  induction batch as [|e batch IH]; intros t.
  - cbn [deliver_batch map length]. unfold ret. destruct t. simpl.
    now rewrite Z.add_0_r.
  - cbn [deliver_batch]. rewrite (deliver_dry cfg w e t Hdry HR).
    rewrite bind_eff_done, IH. cbn [fst snd map app total_sent total_failed length].
    do 3 f_equal. lia.
Qed.

Lemma dry_rows_quiet (w : world) (batch : list string) :
  transport_calls (map (fun e => LogRow (dry_row w e)) batch) = []
  /\ logged_rows (map (fun e => LogRow (dry_row w e)) batch)
     = map (dry_row w) batch.
Proof.
  induction batch as [|e batch [IH1 IH2]]; [now split|].
  cbn [map transport_calls logged_rows]. now rewrite IH1, IH2.
Qed.

Lemma batch_loop_dry (cfg : config) (w : world) (n_emails : Z)
  (batches : list (list string)) (batch_index : Z) (t : totals) :
  dry_run cfg = true -> 1 <= retry_count cfg ->
  exists tr,
    batch_loop cfg w n_emails batches batch_index t
    = (tr, Done {| total_sent := total_sent t
                                 + Z.of_nat (length (concat batches));
                   total_failed := total_failed t |})
    /\ transport_calls tr = []
    /\ logged_rows tr = map (dry_row w) (concat batches).
Proof.
  intros Hdry HR. revert batch_index t.
  induction batches as [|batch rest IH]; intros batch_index t.
  - exists []. cbn. destruct t. simpl. now rewrite Z.add_0_r.
  - cbn [batch_loop]. rewrite (deliver_batch_dry cfg w batch t Hdry HR).
    rewrite bind_eff_done.
    destruct (IH (batch_index + 1)
                {| total_sent := total_sent t + Z.of_nat (length batch);
                   total_failed := total_failed t |})
      as (tr & Hrun & Hcalls & Hrows).
    destruct (dry_rows_quiet w batch) as [Hq Hr].
    destruct (pause_after cfg n_emails (batch_index + 1)); unfold emit, ret;
      rewrite bind_eff_done, Hrun; cbn [fst snd total_sent total_failed concat];
      eexists; (split; [f_equal; f_equal; f_equal;
                        rewrite length_app; lia|]);
      rewrite !transport_calls_app, !logged_rows_app, Hq, Hr, Hcalls, Hrows,
        map_app; now split.
Qed.

(** C8.  In a dry run with at least one attempt allowed, the attempt loop
    of every recipient ends at once, without any event, with [ok = True],
    [attempts = 1], status 200 and the identifier ["(dry-run)"]; the row
    written says [sent]; and the whole run, whatever the batch size,
    makes no transport call.  With a positive batch size the run ends
    with every recipient counted as sent and one such row for each. *)
Theorem dry_run_sends_nothing (cfg : config) (w : world) :
  dry_run cfg = true ->
  1 <= retry_count cfg ->
  (forall to_email,
      attempt_recipient cfg w to_email = ([], Done dry_state))
  /\ (forall to_email t,
        deliver cfg w to_email t
        = ([LogRow (dry_row w to_email)],
           Done {| total_sent := total_sent t + 1;
                   total_failed := total_failed t |}))
  /\ (forall emails, transport_calls (fst (main_loop cfg w emails)) = [])
  /\ (forall emails,
        0 < batch_size cfg ->
        exists tr,
          main_loop cfg w emails
          = (tr, Done {| total_sent := Z.of_nat (length emails);
                         total_failed := 0 |})
          /\ logged_rows tr = map (dry_row w) emails).
Proof.
  intros Hdry HR.
  split; [intros e; now apply attempt_recipient_dry|].
  split; [intros e t; now apply deliver_dry|].
  split.
  - intros emails. unfold main_loop, lift.
    destruct (chunked emails (batch_size cfg)) as [batches|e]; [|reflexivity].
    rewrite bind_eff_done.
    destruct (batch_loop_dry cfg w (Z.of_nat (length emails)) batches 0
                {| total_sent := 0; total_failed := 0 |} Hdry HR)
      as (tr & -> & Hcalls & _).
    exact Hcalls.
  - intros emails Hpos. unfold main_loop, lift.
    rewrite (chunked_chunks emails (batch_size cfg) Hpos), bind_eff_done.
    destruct (batch_loop_dry cfg w (Z.of_nat (length emails))
                (map (chunk emails (batch_size cfg))
                   (seq 0 (Z.to_nat (ceil_div (Z.of_nat (length emails))
                                       (batch_size cfg))))) 0
                {| total_sent := 0; total_failed := 0 |} Hdry HR)
      as (tr & -> & _ & Hrows).
    rewrite (chunks_cover emails (batch_size cfg) Hpos) in Hrows |- *.
    exists tr. split; [reflexivity | exact Hrows].
Qed.

Lemma dry_run_sends_nothing_witness :
  attempt_recipient rehearsal down "ann@example.com" = ([], Done dry_state)
  /\ transport_calls (fst (main_loop rehearsal down trio)) = []
  /\ logged_rows (fst (main_loop rehearsal down trio))
     = map (dry_row down) trio.
Proof.
  destruct (dry_run_sends_nothing rehearsal down eq_refl ltac:(simpl; lia))
    as (Hatt & _ & Hcalls & Hrun).
  split; [apply Hatt|]. split; [apply Hcalls|].
  destruct (Hrun trio ltac:(simpl; lia)) as (tr & Heq & Hrows).
  rewrite Heq. exact Hrows.
Defined.

Lemma count_partition (rows : list log_row) :
  Forall (fun row => is_sent row = negb (is_failed row)) rows ->
  count_rows is_sent rows + count_rows is_failed rows = Z.of_nat (length rows).
Proof.
  induction 1 as [|row rows Hrow _ IH].
  - reflexivity.
  - rewrite !count_rows_cons, Hrow. cbn [length].
    destruct (is_failed row); cbn [negb]; lia.
Qed.

(** C10.  When the delivery loop, run with a positive batch size, comes
    to its end, the two counters add up to the number of recipients; the
    log has one row for each recipient, in the order of the list;
    [total_sent] is the number of rows that say [sent] and [total_failed]
    the number of rows that say [failed], and no row says both; and a row
    that says [sent] has an empty error preview. *)
Theorem completed_run_accounts_for_everyone
  (cfg : config) (w : world) (emails : list string)
  (tr : list event) (t : totals) :
  0 < batch_size cfg ->
  main_loop cfg w emails = (tr, Done t) ->
  total_sent t + total_failed t = Z.of_nat (length emails)
  /\ length (logged_rows tr) = length emails
  /\ map (cell 1) (logged_rows tr) = map JStr emails
  /\ total_sent t = count_rows is_sent (logged_rows tr)
  /\ total_failed t = count_rows is_failed (logged_rows tr)
  /\ Forall (fun row => is_sent row = negb (is_failed row)
                        /\ (is_sent row = true -> cell 6 row = JStr ""))
       (logged_rows tr).
Proof.
  intros Hpos Hrun.
  apply (main_loop_done cfg w emails t tr Hpos) in Hrun
    as (_ & Hrows & Hsent & Hfailed & Hall).
  assert (Hshape : Forall (fun row => is_sent row = negb (is_failed row)
                                      /\ (is_sent row = true ->
                                          cell 6 row = JStr ""))
                     (map (row_of cfg w) emails)
                   /\ map (cell 1) (map (row_of cfg w) emails)
                      = map JStr emails).
  { clear Hrows Hsent Hfailed.
    induction Hall as [|e rest [st Hst] _ [IH1 IH2]]; [now split|].
    cbn [map]. rewrite (row_of_done cfg w e st Hst), IH2.
    destruct (result_row_shape w e st) as (Hc & _ & Hs & Hf & Hp).
    rewrite Hc. split; [|reflexivity].
    constructor; [|exact IH1].
    split; [rewrite Hs, Hf; now destruct (ok st) | exact Hp]. }
  destruct Hshape as [Hshape Hcells].
  rewrite Hrows. rewrite length_map.
  split.
  { rewrite Hsent, Hfailed, count_partition, length_map; [reflexivity|].
    eapply Forall_impl; [|exact Hshape]. now intros row [H _]. }
  now repeat split.
Qed.

Lemma completed_run_accounts_for_everyone_witness :
  exists tr t,
    main_loop pairs mixed trio = (tr, Done t)
    /\ total_sent t = 2 /\ total_failed t = 1
    /\ total_sent t + total_failed t = Z.of_nat (length trio)
    /\ map (cell 1) (logged_rows tr) = map JStr trio
    /\ map (cell 2) (logged_rows tr) = [JStr "sent"; JStr "failed"; JStr "sent"]
    /\ map (cell 6) (logged_rows tr)
       = [JStr ""; JStr "Internal error"; JStr ""].
Proof.
  pose (r := main_loop pairs mixed trio).
  assert (E : r = (fst r, Done {| total_sent := 2; total_failed := 1 |}))
    by (vm_compute; reflexivity).
  exists (fst r), {| total_sent := 2; total_failed := 1 |}.
  destruct (completed_run_accounts_for_everyone pairs mixed trio (fst r)
              {| total_sent := 2; total_failed := 1 |}
              ltac:(simpl; lia) E) as (Hsum & _ & Hcells & _).
  split; [exact E|]. split; [reflexivity|]. split; [reflexivity|].
  split; [exact Hsum|]. split; [exact Hcells|].
  split; vm_compute; reflexivity.
Defined.

End RunTheorems.

(* ===================================================================== *)
(** * Facts about the log *)
(* ===================================================================== *)

Module LogFacts.
Import PyStr PyVal Logger Orchestrator OrchestratorSpec RunSpec.
Import AttemptFacts RunFacts.
Local Open Scope Z_scope.

Lemma write_file_same (fs : file_system) (path : string) (rows : list log_row) :
  write_file fs path rows path = Some rows.
Proof. unfold write_file. now rewrite String.eqb_refl. Qed.

Lemma write_file_other (fs : file_system) (path other : string)
  (rows : list log_row) :
  other <> path -> write_file fs path rows other = fs other.
Proof.
  intros H. unfold write_file.
  destruct (String.eqb_spec other path); [contradiction | reflexivity].
Qed.

(** The header goes in exactly when the path did not exist. *)
Lemma ensure_log_writer_header (fs : file_system) (log_path : string) :
  ensure_log_writer fs log_path log_path
  = match fs log_path with
    | None => Some [header]
    | Some rows => Some rows
    end.
Proof.
  unfold ensure_log_writer, exists_path, open_append.
  destruct (fs log_path) as [rows|] eqn:E; cbn [negb].
  - exact E.
  - unfold writerow. rewrite write_file_same. apply write_file_same.
Qed.

Lemma writerows_append (fs : file_system) (path : string)
  (old new : list log_row) :
  fs path = Some old ->
  writerows fs path new path = Some (old ++ new).
Proof.
  unfold writerows. revert fs old.
  induction new as [|row new IH]; intros fs old H; cbn [fold_left].
  - now rewrite app_nil_r.
  - rewrite (IH _ (old ++ [row])).
    + now rewrite <- app_assoc.
    + unfold writerow. rewrite H. apply write_file_same.
Qed.

Lemma run_log (cfg : config) (w : world) (fs : file_system)
  (log_file : string) (emails : list string) :
  fst (run cfg w fs log_file emails) log_file
  = Some (match fs log_file with None => [header] | Some rows => rows end
          ++ rows_of_run (cfg, w, emails)).
Proof.
  unfold run, rows_of_run. cbn [fst].
  apply writerows_append. rewrite ensure_log_writer_header.
  now destruct (fs log_file).
Qed.

(** Whatever way the attempts of a recipient end, every row that its
    turn writes is a data row. *)
Lemma deliver_rows (cfg : config) (w : world) (to_email : string) (t : totals) :
  Forall (fun row => is_data_row row = true)
    (logged_rows (fst (deliver cfg w to_email t))).
Proof.
  unfold deliver.
  destruct (attempt_loop_quiet cfg w to_email
              (range 1 (retry_count cfg + 1)) initial_state) as [Hq _].
  fold (attempt_recipient cfg w to_email) in Hq.
  destruct (attempt_recipient cfg w to_email) as [t1 [st|e]]; cbn [fst] in Hq.
  - rewrite bind_eff_done. cbn [fst]. rewrite logged_rows_app, Hq.
    unfold emit, ret. cbn.
    constructor; [|constructor].
    now destruct (result_row_shape w to_email st) as (_ & H & _).
  - cbn [bind_eff fst]. rewrite Hq. constructor.
Qed.

Lemma deliver_batch_rows (cfg : config) (w : world) (batch : list string)
  (t : totals) :
  Forall (fun row => is_data_row row = true)
    (logged_rows (fst (deliver_batch cfg w batch t))).
Proof.
  revert t. induction batch as [|e batch IH]; intros t; [constructor|].
  cbn [deliver_batch].
  pose proof (deliver_rows cfg w e t) as He.
  destruct (deliver cfg w e t) as [t1 [t'|ex]]; cbn [fst] in He.
  - rewrite bind_eff_done. cbn [fst]. rewrite logged_rows_app.
    apply Forall_app. split; [exact He | apply IH].
  - exact He.
Qed.

Lemma batch_loop_rows (cfg : config) (w : world) (n_emails : Z)
  (batches : list (list string)) (batch_index : Z) (t : totals) :
  Forall (fun row => is_data_row row = true)
    (logged_rows (fst (batch_loop cfg w n_emails batches batch_index t))).
Proof.
  revert batch_index t.
  induction batches as [|batch rest IH]; intros batch_index t; [constructor|].
  cbn [batch_loop].
  pose proof (deliver_batch_rows cfg w batch t) as Hb.
  destruct (deliver_batch cfg w batch t) as [t1 [t'|ex]]; cbn [fst] in Hb.
  - rewrite bind_eff_done. cbn [fst]. rewrite logged_rows_app.
    apply Forall_app. split; [exact Hb|].
    destruct (pause_after cfg n_emails (batch_index + 1)); unfold emit, ret;
      rewrite bind_eff_done; cbn [fst app logged_rows]; apply IH.
  - exact Hb.
Qed.

Lemma rows_of_run_data (r : config * world * list string) :
  Forall (fun row => is_data_row row = true) (rows_of_run r).
Proof.
  destruct r as [[cfg w] emails]. unfold rows_of_run, main_loop, lift.
  destruct (chunked emails (batch_size cfg)) as [batches|e].
  - rewrite bind_eff_done. cbn [fst app]. apply batch_loop_rows.
  - constructor.
Qed.

Lemma runs_log (log_file : string) (rs : list (config * world * list string))
  (fs : file_system) (rows : list log_row) :
  fs log_file = Some rows ->
  runs log_file rs fs log_file
  = Some (rows ++ concat (map rows_of_run rs)).
Proof.
  unfold runs. revert fs rows.
  induction rs as [|[[cfg w] emails] rs IH]; intros fs rows H; cbn [fold_left].
  - cbn. now rewrite app_nil_r.
  - rewrite (IH _ (rows ++ rows_of_run (cfg, w, emails))).
    + cbn [map concat]. now rewrite app_assoc.
    + rewrite run_log. now rewrite H.
Qed.

(** C9.  [ensure_log_writer] writes the header row, with its seven fixed
    column names, exactly when the path did not exist before the file was
    opened.  So when runs follow one another on a path that did not exist
    before the first of them, the file holds the header once, as its
    first row, and after it the data rows of the runs in order; none of
    these rows is the header. *)
Theorem header_written_once
  (log_file : string) (first : config * world * list string)
  (others : list (config * world * list string)) (fs : file_system) :
  fs log_file = None ->
  header = map JStr ["timestamp_utc"; "email"; "status"; "attempts";
                     "http_status"; "message_id"; "error_preview"]
  /\ (forall fs' path,
        ensure_log_writer fs' path path
        = match fs' path with
          | None => Some [header]
          | Some rows => Some rows
          end)
  /\ runs log_file (first :: others) fs log_file
     = Some (header :: concat (map rows_of_run (first :: others)))
  /\ ~ In header (concat (map rows_of_run (first :: others))).
Proof.
  intros Hnew.
  split; [reflexivity|].
  split; [intros fs' path; apply ensure_log_writer_header|].
  split.
  - destruct first as [[cfg w] emails].
    change (runs log_file ((cfg, w, emails) :: others) fs)
      with (runs log_file others (fst (run cfg w fs log_file emails))).
    rewrite (runs_log log_file others _
               ([header] ++ rows_of_run (cfg, w, emails))).
    + reflexivity.
    + rewrite run_log. now rewrite Hnew.
  - intros Hin. apply in_concat in Hin as (rows & Hrows & Hin).
    apply in_map_iff in Hrows as (r & <- & _).
    pose proof (rows_of_run_data r) as Hdata.
    rewrite Forall_forall in Hdata. apply Hdata in Hin. discriminate Hin.
Qed.

Lemma header_written_once_witness :
  no_files "send_log.csv" = None
  /\ runs "send_log.csv"
       [(pairs, mixed, trio); (rehearsal, down, trio); (defaults, odd_body, trio)]
       no_files "send_log.csv"
     = Some (header
             :: rows_of_run (pairs, mixed, trio)
             ++ rows_of_run (rehearsal, down, trio)
             ++ rows_of_run (defaults, odd_body, trio)).
Proof.
  split; [reflexivity|].
  destruct (header_written_once "send_log.csv" (pairs, mixed, trio)
              [(rehearsal, down, trio); (defaults, odd_body, trio)]
              no_files eq_refl) as (_ & _ & Hlog & _).
  rewrite Hlog. cbn [map concat]. now rewrite app_nil_r.
Defined.

End LogFacts.

(* ===================================================================== *)
(** * Facts about values *)
(* ===================================================================== *)

Module PyValFacts.
Import PyStr PyVal.

Lemma depth_item (x : json) (l : list json) :
  In x l -> depth x < depth (JArr l).
Proof.
  cbn [depth]. induction l as [|y l IH]; intros H; [destruct H|].
  cbn [fold_right]. destruct H as [->|H]; [lia|].
  specialize (IH H). lia.
Qed.

Lemma depth_value (k : string) (v : json) (d : list (string * json)) :
  In (k, v) d -> depth v < depth (JObj d).
Proof.
  cbn [depth]. induction d as [|[k' v'] d IH]; intros H; [destruct H|].
  cbn [fold_right]. destruct H as [H|H].
  - injection H as -> ->. lia.
  - specialize (IH H). lia.
Qed.

Lemma depth_incl (kept l : list json) :
  incl kept l -> depth (JArr kept) <= depth (JArr l).
Proof.
  intros H. induction kept as [|x kept IH]; cbn [depth fold_right]; [lia|].
  assert (Hx : depth x < depth (JArr l)) by (apply depth_item, H; now left).
  assert (Hk : depth (JArr kept) <= depth (JArr l)).
  { apply IH. intros y Hy. apply H. now right. }
  cbn [depth] in Hx, Hk. lia.
Qed.

Lemma lookup_In (key : string) (d : list (string * json)) (v : json) :
  lookup key d = Some v -> In (key, v) d.
Proof.
  induction d as [|[k w] d IH]; cbn [lookup]; [discriminate|].
  destruct (String.eqb_spec k key) as [->|_].
  - intros H. injection H as ->. now left.
  - intros H. right. now apply IH.
Qed.

Lemma lookup_dict_set (d : list (string * json)) (key k : string) (v : json) :
  lookup k (dict_set d key v)
  = if String.eqb key k then Some v else lookup k d.
Proof.
  induction d as [|[k' w] d IH]; cbn [dict_set lookup].
  - reflexivity.
  - destruct (String.eqb_spec k' key) as [->|Hne]; cbn [lookup].
    + destruct (String.eqb key k); reflexivity.
    + rewrite IH. destruct (String.eqb_spec k' k) as [->|_]; [|reflexivity].
      destruct (String.eqb_spec key k) as [->|_]; [contradiction|reflexivity].
Qed.

Lemma dict_set_In (d : list (string * json)) (key : string) (v : json)
  (k : string) (w : json) :
  In (k, w) (dict_set d key v) -> (k, w) = (key, v) \/ In (k, w) d.
Proof.
  induction d as [|[k' w'] d IH]; cbn [dict_set].
  - intros [H|[]]. now left.
  - destruct (String.eqb_spec k' key) as [->|_].
    + intros [H|H]; [now left | right; now right].
    + intros [H|H]; [right; now left|].
      destruct (IH H) as [E|E]; [now left | right; now right].
Qed.

(** Setting a key that the dict does not have puts the pair at the end. *)
Lemma dict_set_fresh (d : list (string * json)) (key : string) (v : json) :
  ~ In key (map fst d) -> dict_set d key v = d ++ [(key, v)].
Proof.
  induction d as [|[k w] d IH]; cbn [dict_set map fst]; intros H; [reflexivity|].
  destruct (String.eqb_spec k key) as [->|_].
  - exfalso. apply H. now left.
  - cbn [app]. f_equal. apply IH. intros Hin. apply H. now right.
Qed.

Lemma dict_set_keys (d : list (string * json)) (key : string) (v : json) :
  In key (map fst d) -> map fst (dict_set d key v) = map fst d.
Proof.
  induction d as [|[k w] d IH]; cbn [dict_set map fst]; intros H; [destruct H|].
  destruct (String.eqb_spec k key) as [->|Hne]; [reflexivity|].
  cbn [map fst]. f_equal. apply IH. destruct H as [H|H]; [contradiction|exact H].
Qed.

End PyValFacts.

(* ===================================================================== *)
(** * Facts about the renderer *)
(* ===================================================================== *)

Module PruneFacts.
Import PyStr PyStrFacts PyVal PyValFacts Renderer.

(** Case analysis on the two early exits of [prune_dict]. *)
Ltac case_text_block :=
  match goal with
  | |- context [is_str ?t "TextBlock" && ?b] =>
      destruct (is_str t "TextBlock" && b)
  end.

Ltac case_open_url :=
  match goal with
  | |- context [is_str ?t "Action.OpenUrl" && ?b] =>
      destruct (is_str t "Action.OpenUrl" && b)
  end.

Lemma keep_facts_incl (facts kept : list json) :
  keep_facts facts = Done kept -> incl kept facts.
Proof.
  revert kept. induction facts as [|f facts IH]; intros kept; cbn [keep_facts].
  - intros H. injection H as <-. intros x [].
  - destruct (fact_value f) as [v|e]; cbn [bind]; [|discriminate].
    destruct (keep_facts facts) as [kept'|e]; cbn [bind]; [|discriminate].
    intros H. injection H as <-. specialize (IH kept' eq_refl).
    destruct (_is_blank v).
    + intros x Hx. right. now apply IH.
    + intros x [->|Hx]; [now left | right; now apply IH].
Qed.

(** Iterating a string or the keys of a dict never leaves a fact. *)
Lemma keep_facts_strings (names : list string) (kept : list json) :
  keep_facts (map JStr names) = Done kept -> kept = [].
Proof.
  revert kept. induction names as [|s names IH]; intros kept; cbn [map keep_facts].
  - intros H. now injection H.
  - unfold fact_value. cbn [truthy].
    destruct s as [|c s]; cbn [nonempty py_get bind]; [|discriminate].
    destruct (keep_facts (map JStr names)) as [kept'|e]; cbn [bind];
      [|discriminate].
    cbn. intros H. injection H as <-. now apply IH.
Qed.

Lemma chars_strings (s : string) : exists names, chars s = map JStr names.
Proof.
  induction s as [|c s [names IH]].
  - now exists [].
  - exists (String c EmptyString :: names). cbn. now rewrite IH.
Qed.

(** Facts are only ever kept out of a list. *)
Lemma kept_facts_from_list (v : json) (facts kept : list json) :
  py_iter v = Done facts -> keep_facts facts = Done kept ->
  kept = [] \/ (v = JArr facts /\ incl kept facts).
Proof.
  destruct v; cbn [py_iter]; try discriminate; intros H; injection H as <-.
  - intros H. left. destruct (chars_strings s) as [names E].
    rewrite E in H. now apply keep_facts_strings in H.
  - intros H. right. split; [reflexivity | now apply keep_facts_incl].
  - intros H. left. rewrite <- map_map in H.
    now apply keep_facts_strings in H.
Qed.

Lemma prune_fields_ext (rec1 rec2 : json -> json -> outcome json)
  (node_type : json) (items out : list (string * json)) :
  (forall k v pt, In (k, v) items -> rec1 v pt = rec2 v pt) ->
  prune_fields rec1 node_type items out = prune_fields rec2 node_type items out.
Proof.
  revert out. induction items as [|[k v] items IH]; intros out H; [reflexivity|].
  cbn [prune_fields].
  assert (IH' : forall out', prune_fields rec1 node_type items out'
                             = prune_fields rec2 node_type items out').
  { intros out'. apply IH. intros k' v' pt Hin. apply (H k'). now right. }
  rewrite (H k v node_type) by (now left).
  destruct (is_container v); [|apply IH'].
  destruct (rec2 v node_type) as [pruned|e]; cbn [bind]; [|reflexivity].
  destruct (is_none pruned); apply IH'.
Qed.

Lemma prune_items_ext (rec1 rec2 : json -> json -> outcome json)
  (parent_type : json) (node children : list json) :
  (forall v pt, In v node -> rec1 v pt = rec2 v pt) ->
  prune_items rec1 parent_type node children
  = prune_items rec2 parent_type node children.
Proof.
  revert children. induction node as [|v node IH]; intros children H;
    [reflexivity|].
  cbn [prune_items].
  assert (IH' : forall c, prune_items rec1 parent_type node c
                          = prune_items rec2 parent_type node c).
  { intros c. apply IH. intros v' pt Hin. apply H. now right. }
  rewrite (H v parent_type) by (now left).
  destruct (rec2 v parent_type) as [pruned|e]; cbn [bind]; [|reflexivity].
  destruct (is_none pruned); apply IH'.
Qed.

(** The values that the loop of [_prune] on a fact set goes through are
    no deeper than those of the node itself. *)
Lemma factset_values_depth (node : list (string * json))
  (facts kept : list json) (k : string) (v : json) :
  py_iter (get_default "facts" (JArr []) node) = Done facts ->
  keep_facts facts = Done kept ->
  kept <> [] ->
  In (k, v) (dict_set node "facts" (JArr kept)) ->
  depth v < depth (JObj node).
Proof.
  intros Hiter Hkeep Hne Hin.
  apply dict_set_In in Hin as [E|Hin]; [|now apply depth_value with k].
  injection E as -> ->.
  destruct (kept_facts_from_list _ _ _ Hiter Hkeep) as [E|[E Hincl]];
    [contradiction|].
  unfold get_default in E.
  destruct (lookup "facts" node) as [w|] eqn:L.
  - subst w. apply lookup_In in L. apply depth_value in L.
    pose proof (depth_incl kept facts Hincl). lia.
  - injection E as <-. destruct kept as [|x kept]; [contradiction|].
    exfalso. apply (Hincl x). now left.
Qed.

Lemma prune_dict_ext (rec1 rec2 : json -> json -> outcome json)
  (node : list (string * json)) :
  (forall v pt, depth v < depth (JObj node) -> rec1 v pt = rec2 v pt) ->
  prune_dict rec1 node = prune_dict rec2 node.
Proof.
  intros H. unfold prune_dict.
  case_text_block; [reflexivity|].
  destruct (is_str (get "type" node) "FactSet").
  - destruct (py_iter (get_default "facts" (JArr []) node)) as [facts|e] eqn:Hiter;
      cbn [bind]; [|reflexivity].
    destruct (keep_facts facts) as [kept|e] eqn:Hkeep; cbn [bind]; [|reflexivity].
    destruct kept as [|x kept]; cbn [bind]; [reflexivity|].
    case_open_url; [reflexivity|].
    rewrite (prune_fields_ext rec1 rec2); [reflexivity|].
    intros k v pt Hin. apply H.
    now apply (factset_values_depth node facts (x :: kept) k v).
  - cbn [bind].
    case_open_url; [reflexivity|].
    rewrite (prune_fields_ext rec1 rec2); [reflexivity|].
    intros k v pt Hin. apply H. now apply depth_value with k.
Qed.

(** More fuel than the depth of the node changes nothing. *)
Lemma prune_fuel_stable (n m : nat) (node parent_type : json) :
  depth node < n -> depth node < m ->
  prune_fuel n node parent_type = prune_fuel m node parent_type.
Proof.
  revert m node parent_type.
  induction n as [|n IH]; intros m node parent_type Hn Hm; [lia|].
  destruct m as [|m]; [lia|].
  destruct node; try reflexivity; cbn [prune_fuel].
  - rewrite (prune_items_ext (prune_fuel n) (prune_fuel m)); [reflexivity|].
    intros v pt Hin. apply depth_item in Hin. apply IH; lia.
  - apply prune_dict_ext. intros v pt Hv. apply IH; lia.
Qed.

(** [_prune] unfolds as the source reads. *)
Lemma _prune_dict (node : list (string * json)) (parent_type : json) :
  _prune (JObj node) parent_type = prune_dict _prune node.
Proof.
  unfold _prune at 1. cbn [prune_fuel].
  apply prune_dict_ext. intros v pt Hv. unfold _prune.
  apply prune_fuel_stable; lia.
Qed.

Lemma _prune_list (node : list json) (parent_type : json) :
  _prune (JArr node) parent_type
  = (children <- prune_items _prune parent_type node [] ;;
     Done (JArr children))%outcome.
Proof.
  unfold _prune at 1. cbn [prune_fuel].
  rewrite (prune_items_ext (prune_fuel (depth (JArr node))) _prune);
    [reflexivity|].
  intros v pt Hin. apply depth_item in Hin. unfold _prune.
  apply prune_fuel_stable; lia.
Qed.

Lemma _prune_scalar (node parent_type : json) :
  is_container node = false -> _prune node parent_type = Done node.
Proof. destruct node; cbn; intros H; (reflexivity || discriminate). Qed.

End PruneFacts.

Module PruneShape.
Import PyStr PyStrFacts PyVal PyValFacts Renderer RendererSpec CardSpec PruneFacts.

(** Where an exception of the two loops comes from. *)
Lemma prune_items_raised (rec : json -> json -> outcome json)
  (parent_type : json) (node children : list json) (e : exn) :
  prune_items rec parent_type node children = Raised e ->
  exists v, In v node /\ rec v parent_type = Raised e.
Proof.
  revert children. induction node as [|v node IH]; intros children;
    cbn [prune_items]; [discriminate|].
  destruct (rec v parent_type) as [pruned|e'] eqn:E; cbn [bind].
  - destruct (is_none pruned); intros H; apply IH in H as (x & Hx & Hr);
      exists x; (split; [now right | exact Hr]).
  - intros H. injection H as ->. exists v. split; [now left | exact E].
Qed.

Lemma prune_fields_raised (rec : json -> json -> outcome json)
  (node_type : json) (items out : list (string * json)) (e : exn) :
  prune_fields rec node_type items out = Raised e ->
  exists k v, In (k, v) items /\ is_container v = true
              /\ rec v node_type = Raised e.
Proof.
  revert out. induction items as [|[k v] items IH]; intros out;
    cbn [prune_fields]; [discriminate|].
  destruct (is_container v) eqn:Ec.
  - destruct (rec v node_type) as [pruned|e'] eqn:E; cbn [bind].
    + destruct (is_none pruned); intros H;
        apply IH in H as (k' & x & Hx & Hr);
        exists k', x; (split; [now right | exact Hr]).
    + intros H. injection H as ->. exists k, v.
      split; [now left | now split].
  - intros H. apply IH in H as (k' & x & Hx & Hr).
    exists k', x. split; [now right | exact Hr].
Qed.

Lemma keep_facts_raised (facts : list json) (e : exn) :
  keep_facts facts = Raised e -> e = AttributeError.
Proof.
  induction facts as [|f facts IH]; cbn [keep_facts]; [discriminate|].
  unfold fact_value.
  destruct (if truthy f then f else JObj []); cbn [py_get bind];
    try (intros H; now injection H);
    destruct (keep_facts facts); cbn [bind]; try discriminate; exact IH.
Qed.

Lemma py_iter_raised (v : json) (e : exn) :
  py_iter v = Raised e -> e = TypeError.
Proof. destruct v; cbn; intros H; (discriminate || now injection H). Qed.

Lemma no_children_raised (out : list (string * json)) (key : string) (e : exn) :
  no_children out key = Raised e -> e = TypeError.
Proof.
  unfold no_children.
  destruct (get_default key (JArr []) out); cbn;
    intros H; (discriminate || now injection H).
Qed.

Lemma finish_raised (rec : json -> json -> outcome json) (node_type : json)
  (node' : list (string * json)) (e : exn) :
  finish rec node_type node' = Raised e ->
  (exists k v, In (k, v) node' /\ is_container v = true
               /\ rec v node_type = Raised e)
  \/ (exists out key, prune_fields rec node_type node' [] = Done out
                      /\ collection_key key
                      /\ no_children out key = Raised e).
Proof.
  unfold finish, collection_key.
  destruct (prune_fields rec node_type node' []) as [out|e'] eqn:E; cbn [bind].
  - intros H. right. exists out.
    destruct (is_str node_type "Container" || is_str node_type "Column").
    + destruct (no_children out "items") as [[]|] eqn:E1; cbn [bind] in H;
        [discriminate H | | injection H as <-; exists "items"; tauto].
      destruct (is_str node_type "ColumnSet").
      * destruct (no_children out "columns") as [[]|] eqn:E2; cbn [bind] in H;
          [discriminate H | | injection H as <-; exists "columns"; tauto].
        destruct (is_str node_type "ActionSet"); [|discriminate H].
        destruct (no_children out "actions") as [[]|] eqn:E3; cbn [bind] in H;
          [discriminate H | discriminate H
          | injection H as <-; exists "actions"; tauto].
      * cbn [bind] in H.
        destruct (is_str node_type "ActionSet"); [|discriminate H].
        destruct (no_children out "actions") as [[]|] eqn:E3; cbn [bind] in H;
          [discriminate H | discriminate H
          | injection H as <-; exists "actions"; tauto].
    + cbn [bind] in H. destruct (is_str node_type "ColumnSet").
      * destruct (no_children out "columns") as [[]|] eqn:E2; cbn [bind] in H;
          [discriminate H | | injection H as <-; exists "columns"; tauto].
        destruct (is_str node_type "ActionSet"); [|discriminate H].
        destruct (no_children out "actions") as [[]|] eqn:E3; cbn [bind] in H;
          [discriminate H | discriminate H
          | injection H as <-; exists "actions"; tauto].
      * cbn [bind] in H.
        destruct (is_str node_type "ActionSet"); [|discriminate H].
        destruct (no_children out "actions") as [[]|] eqn:E3; cbn [bind] in H;
          [discriminate H | discriminate H
          | injection H as <-; exists "actions"; tauto].
  - intros H. injection H as <-. left.
    now apply prune_fields_raised in E.
Qed.

Lemma finish_done (rec : json -> json -> outcome json) (node_type : json)
  (node' : list (string * json)) (r : json) :
  finish rec node_type node' = Done r ->
  exists out, prune_fields rec node_type node' [] = Done out
              /\ (r = JNull \/ r = JObj out).
Proof.
  unfold finish.
  destruct (prune_fields rec node_type node' []) as [out|e'] eqn:E; cbn [bind];
    [|discriminate].
  intros H. exists out. split; [reflexivity|].
  destruct (if is_str node_type "Container" || is_str node_type "Column"
            then no_children out "items" else Done false) as [[]|];
    cbn [bind] in H; [injection H as <-; now left | | discriminate H].
  destruct (if is_str node_type "ColumnSet"
            then no_children out "columns" else Done false) as [[]|];
    cbn [bind] in H; [injection H as <-; now left | | discriminate H].
  destruct (if is_str node_type "ActionSet"
            then no_children out "actions" else Done false) as [[]|];
    cbn [bind] in H; [injection H as <-; now left | | discriminate H].
  injection H as <-. now right.
Qed.

(** [prune_dict] either leaves by an early exit or finishes on its loop
    input. *)
Lemma prune_dict_cases (rec : json -> json -> outcome json)
  (node : list (string * json)) :
  prune_dict rec node = Done JNull
  \/ (is_str (get "type" node) "FactSet" = true
      /\ exists e, py_iter (get_default "facts" (JArr []) node) = Raised e
                   /\ prune_dict rec node = Raised e)
  \/ (is_str (get "type" node) "FactSet" = true
      /\ exists facts e,
          py_iter (get_default "facts" (JArr []) node) = Done facts
          /\ keep_facts facts = Raised e
          /\ prune_dict rec node = Raised e)
  \/ exists node', loop_input node node'
                   /\ prune_dict rec node = finish rec (get "type" node) node'.
Proof.
  unfold prune_dict. fold (finish rec (get "type" node)).
  case_text_block; [now left|].
  destruct (is_str (get "type" node) "FactSet") eqn:Hfs.
  - destruct (py_iter (get_default "facts" (JArr []) node)) as [facts|e] eqn:Hiter;
      cbn [bind]; [|right; left; split; [reflexivity | now exists e]].
    destruct (keep_facts facts) as [kept|e] eqn:Hkeep; cbn [bind];
      [|right; right; left; split; [reflexivity | now exists facts, e]].
    destruct kept as [|x kept]; cbn [bind]; [now left|].
    case_open_url; [now left|].
    right; right; right. exists (dict_set node "facts" (JArr (x :: kept))).
    split; [|reflexivity]. right. exists facts, (x :: kept).
    repeat split; try assumption. discriminate.
  - cbn [bind]. case_open_url; [now left|].
    right; right; right. exists node. split; [now left | reflexivity].
Qed.

Lemma loop_input_depth (node node' : list (string * json))
  (k : string) (v : json) :
  loop_input node node' -> In (k, v) node' -> depth v < depth (JObj node).
Proof.
  intros [->|(facts & kept & _ & Hiter & Hkeep & Hne & ->)] Hin.
  - now apply depth_value with k.
  - now apply (factset_values_depth node facts kept k v).
Qed.

(** An exception out of one call on a dict is an [AttributeError] or a
    [TypeError] of that call, or it comes out of a recursive call on a
    value that lies less deep. *)
Lemma prune_dict_raised (rec : json -> json -> outcome json)
  (node : list (string * json)) (e : exn) :
  prune_dict rec node = Raised e ->
  (e = AttributeError \/ e = TypeError)
  \/ exists v pt, depth v < depth (JObj node) /\ rec v pt = Raised e.
Proof.
  intros H.
  destruct (prune_dict_cases rec node)
    as [E|[[_ (e' & Hi & E)]|[[_ (facts & e' & _ & Hk & E)]|(node' & Hin & E)]]];
    rewrite E in H.
  - discriminate H.
  - injection H as <-. apply py_iter_raised in Hi. left. now right.
  - injection H as <-. apply keep_facts_raised in Hk. left. now left.
  - apply finish_raised in H as [(k & v & Hv & _ & Hr)|(out & key & _ & _ & Hr)].
    + right. exists v, (get "type" node).
      split; [now apply (loop_input_depth node node' k) | exact Hr].
    + apply no_children_raised in Hr. left. now right.
Qed.

(** [_prune] raises nothing but [AttributeError] and [TypeError]: the
    fuel it is given is enough. *)
Lemma _prune_raised (node parent_type : json) (e : exn) :
  _prune node parent_type = Raised e -> e = AttributeError \/ e = TypeError.
Proof.
  remember (S (depth node)) as n eqn:Hn.
  assert (Hlt : depth node < n) by lia. clear Hn.
  revert node parent_type Hlt.
  induction n as [|n IH]; intros node parent_type Hlt; [lia|].
  destruct node; try (rewrite _prune_scalar by reflexivity; discriminate).
  - rewrite _prune_list.
    destruct (prune_items _prune parent_type items []) as [c|e'] eqn:E;
      cbn [bind]; [discriminate|].
    intros H. injection H as <-.
    apply prune_items_raised in E as (v & Hin & Hr).
    apply depth_item in Hin. apply (IH v parent_type); [lia | exact Hr].
  - rewrite _prune_dict. intros H.
    apply prune_dict_raised in H as [H|(v & pt & Hv & Hr)]; [exact H|].
    apply (IH v pt); [lia | exact Hr].
Qed.

(** A dict comes out of [_prune] as a dict or not at all, a list as a
    list, anything else as it is. *)
Lemma _prune_done (node parent_type r : json) :
  _prune node parent_type = Done r ->
  match node with
  | JObj _ => r = JNull \/ is_dict r = true
  | JArr _ => exists children, r = JArr children
  | _ => r = node
  end.
Proof.
  destruct node; try (rewrite _prune_scalar by reflexivity;
                      intros H; now injection H).
  - rewrite _prune_list.
    destruct (prune_items _prune parent_type items []) as [c|e']; cbn [bind];
      [|discriminate].
    intros H. injection H as <-. now exists c.
  - rewrite _prune_dict. intros H.
    destruct (prune_dict_cases _prune fields)
      as [E|[[_ (e' & _ & E)]|[[_ (facts & e' & _ & _ & E)]|(node' & _ & E)]]];
      rewrite E in H; try discriminate H.
    + injection H as <-. now left.
    + apply finish_done in H as (out & _ & [->| ->]); [now left | now right].
Qed.

End PruneShape.

Module PruneTotal.
Import PyStr PyStrFacts PyVal PyValFacts Renderer RendererSpec CardSpec.
Import PruneFacts PruneShape.

Lemma shape_field (d : list (string * json)) (k : string) (v : json) :
  shape_ok (JObj d) = true -> In (k, v) d ->
  field_ok k v = true /\ shape_ok v = true.
Proof.
  cbn [shape_ok]. rewrite forallb_forall. intros H Hin.
  specialize (H (k, v) Hin). now apply andb_true_iff in H.
Qed.

Lemma shape_item (l : list json) (v : json) :
  shape_ok (JArr l) = true -> In v l -> shape_ok v = true.
Proof. cbn [shape_ok]. rewrite forallb_forall. auto. Qed.

(** In a well-formed card the facts of a node are a list of objects and
    nulls. *)
Lemma shape_facts (d : list (string * json)) :
  shape_ok (JObj d) = true ->
  exists l, get_default "facts" (JArr []) d = JArr l
            /\ forallb (fun f => is_dict f || is_none f) l = true
            /\ shape_ok (JArr l) = true.
Proof.
  intros H. unfold get_default.
  destruct (lookup "facts" d) as [x|] eqn:L; [|now exists []].
  apply lookup_In in L. destruct (shape_field d "facts" x H L) as [Hf Hs].
  unfold field_ok in Hf. cbn in Hf.
  destruct x; try discriminate Hf. now exists items.
Qed.

Lemma keep_facts_total (l : list json) :
  forallb (fun f => is_dict f || is_none f) l = true ->
  exists kept, keep_facts l = Done kept.
Proof.
  induction l as [|f l IH]; cbn [forallb keep_facts]; [now exists []|].
  intros H. apply andb_true_iff in H as [Hf Hl].
  destruct (IH Hl) as [kept ->].
  unfold fact_value.
  destruct f; try discriminate Hf; cbn [truthy py_get bind];
    try (destruct fields); cbn [py_get bind]; eexists; reflexivity.
Qed.

Lemma loop_input_shape (node node' : list (string * json))
  (k : string) (v : json) :
  shape_ok (JObj node) = true ->
  loop_input node node' -> In (k, v) node' ->
  shape_ok v = true
  /\ (is_container v = false -> In (k, v) node).
Proof.
  intros Hs [->|(facts & kept & _ & Hiter & Hkeep & Hne & ->)] Hin.
  - split; [now apply (shape_field node k v Hs) | auto].
  - apply dict_set_In in Hin as [E|Hin].
    + injection E as -> ->. split; [|discriminate].
      destruct (shape_facts node Hs) as (l & Hl & _ & Hsl).
      rewrite Hl in Hiter. cbn in Hiter. injection Hiter as <-.
      apply keep_facts_incl in Hkeep.
      cbn [shape_ok]. apply forallb_forall. intros x Hx.
      apply (shape_item l x Hsl). now apply Hkeep.
    + split; [now apply (shape_field node k v Hs) | auto].
Qed.

(** Where the pairs of the dict that the loop builds come from. *)
Lemma prune_fields_entries (rec : json -> json -> outcome json)
  (node_type : json) (items out0 out : list (string * json))
  (k : string) (v' : json) :
  prune_fields rec node_type items out0 = Done out ->
  lookup k out = Some v' ->
  lookup k out0 = Some v'
  \/ exists v, In (k, v) items
               /\ ((is_container v = false /\ v' = v)
                   \/ (is_container v = true /\ rec v node_type = Done v'
                       /\ is_none v' = false)).
Proof.
  revert out0. induction items as [|[k0 v0] items IH]; intros out0;
    cbn [prune_fields].
  - intros H. injection H as <-. now left.
  - assert (Hnext : forall w,
               (is_container v0 = false /\ w = v0)
               \/ (is_container v0 = true /\ rec v0 node_type = Done w
                   /\ is_none w = false) ->
               prune_fields rec node_type items (dict_set out0 k0 w) = Done out ->
               lookup k out = Some v' ->
               lookup k out0 = Some v'
               \/ exists v, In (k, v) ((k0, v0) :: items)
                    /\ ((is_container v = false /\ v' = v)
                        \/ (is_container v = true /\ rec v node_type = Done v'
                            /\ is_none v' = false))).
    { intros w Hw Hrun Hlook.
      destruct (IH _ Hrun Hlook) as [Hl|(v & Hin & Hv)].
      - rewrite lookup_dict_set in Hl.
        destruct (String.eqb_spec k0 k) as [->|_]; [|now left].
        injection Hl as ->. right. exists v0. split; [now left | exact Hw].
      - right. exists v. split; [now right | exact Hv]. }
    destruct (is_container v0) eqn:Ec.
    + destruct (rec v0 node_type) as [pruned|e] eqn:E; cbn [bind]; [|discriminate].
      destruct (is_none pruned) eqn:En.
      * intros Hrun Hlook.
        destruct (IH _ Hrun Hlook) as [Hl|(v & Hin & Hv)]; [now left|].
        right. exists v. split; [now right | exact Hv].
      * intros Hrun Hlook. apply (Hnext pruned); auto.
    + intros Hrun Hlook. apply (Hnext v0); auto.
Qed.

Lemma sized_len (v : json) : sized v = true -> exists b, len_is_zero v = Done b.
Proof. destruct v; cbn; intros H; try discriminate H; eexists; reflexivity. Qed.

Lemma collection_field (key : string) (v : json) :
  collection_key key -> field_ok key v = true -> sized v = true.
Proof. intros [->|[->| ->]]; cbn; auto. Qed.

(** On a well-formed card [_prune] raises nothing. *)
Lemma _prune_total (node parent_type : json) :
  shape_ok node = true -> exists r, _prune node parent_type = Done r.
Proof.
  remember (S (depth node)) as n eqn:Hn.
  assert (Hlt : depth node < n) by lia. clear Hn.
  revert node parent_type Hlt.
  induction n as [|n IH]; intros node parent_type Hlt Hs; [lia|].
  destruct (_prune node parent_type) as [r|e] eqn:E; [now exists r|].
  exfalso.
  destruct node; try (rewrite _prune_scalar in E by reflexivity; discriminate E).
  - rewrite _prune_list in E.
    destruct (prune_items _prune parent_type items []) as [c|e'] eqn:E';
      cbn [bind] in E; [discriminate E|].
    apply prune_items_raised in E' as (v & Hin & Hr).
    destruct (IH v parent_type) as [r Hd];
      [apply depth_item in Hin; lia | now apply (shape_item items) |].
    congruence.
  - rewrite _prune_dict in E.
    destruct (shape_facts fields Hs) as (l & Hl & Hfl & Hsl).
    destruct (prune_dict_cases _prune fields)
      as [E'|[[_ (e' & Hi & _)]|[[_ (facts & e' & Hi & Hk & _)]|(node' & Hin & E')]]].
    + congruence.
    + rewrite Hl in Hi. discriminate Hi.
    + rewrite Hl in Hi. cbn in Hi. injection Hi as <-.
      destruct (keep_facts_total l Hfl) as [kept Hkept]. congruence.
    + rewrite E' in E.
      apply finish_raised in E
        as [(k & v & Hv & Hc & Hr)|(out & key & Hout & Hkey & Hr)].
      * destruct (loop_input_shape fields node' k v Hs Hin Hv) as [Hsv _].
        destruct (IH v (get "type" fields)) as [r Hd];
          [apply (loop_input_depth fields node' k v Hin) in Hv; lia
          | exact Hsv |].
        congruence.
      * unfold no_children, get_default in Hr.
        destruct (lookup key out) as [v'|] eqn:L; [|discriminate Hr].
        destruct (prune_fields_entries _ _ _ _ _ _ _ Hout L)
          as [H0|(v & Hv & [[Hc ->]|(Hc & Hd & Hn)])]; [discriminate H0| |].
        -- destruct (loop_input_shape fields node' key v Hs Hin Hv) as [_ Hd].
           destruct (shape_field fields key v Hs (Hd Hc)) as [Hf _].
           destruct (sized_len v (collection_field key v Hkey Hf)) as [b Hb].
           congruence.
        -- apply _prune_done in Hd.
           destruct v; try discriminate Hc.
           ++ destruct Hd as [c ->]. discriminate Hr.
           ++ destruct Hd as [->|Hd]; [discriminate Hn|].
              destruct v'; try discriminate Hd. discriminate Hr.
Qed.

End PruneTotal.

(* ===================================================================== *)
(** * The root of the card *)
(* ===================================================================== *)

Module RootFacts.
Import PyStr PyStrFacts PyVal PyValFacts Renderer RendererSpec CardSpec.
Import PruneFacts PruneShape PruneTotal.

Lemma token_head (k : string) :
  token k = String brace (String brace (k ++ "}}")%string).
Proof. reflexivity. Qed.

(** A string without an opening brace holds no placeholder. *)
Lemma substitute_free (variables : list (string * option string)) (s : string) :
  free_of brace s -> substitute variables s = s.
Proof.
  intros H. unfold substitute.
  induction variables as [|[k v] variables IH]; cbn [fold_left]; [reflexivity|].
  cbn [fst snd]. rewrite token_head, replace_absent by exact H. exact IH.
Qed.

Lemma lookup_replaced (variables : list (string * option string))
  (key : string) (d : list (string * json)) :
  lookup key (map (fun kv : string * json =>
                     let (k, v) := kv in
                     (k, _deep_replace_placeholders v variables)) d)
  = option_map (fun v => _deep_replace_placeholders v variables) (lookup key d).
Proof.
  induction d as [|[k v] d IH]; cbn [map lookup]; [reflexivity|].
  destruct (String.eqb k key); [reflexivity | exact IH].
Qed.

Lemma keys_replaced (variables : list (string * option string))
  (d : list (string * json)) :
  map fst (map (fun kv : string * json =>
                  let (k, v) := kv in
                  (k, _deep_replace_placeholders v variables)) d)
  = map fst d.
Proof.
  rewrite map_map. apply map_ext. now intros [k v].
Qed.

Lemma forallb_map_ext {A B : Type} (f : B -> bool) (g : A -> B) (h : A -> bool)
  (l : list A) :
  (forall x, In x l -> f (g x) = h x) -> forallb f (map g l) = forallb h l.
Proof.
  induction l as [|x l IH]; intros H; cbn [map forallb]; [reflexivity|].
  rewrite H by (now left). f_equal. apply IH. intros y Hy. apply H. now right.
Qed.

Lemma field_ok_replaced (variables : list (string * option string))
  (k : string) (v : json) :
  field_ok k (_deep_replace_placeholders v variables) = field_ok k v.
Proof.
  assert (Hs : sized (_deep_replace_placeholders v variables) = sized v)
    by (now destruct v).
  assert (Hf : fact_list (_deep_replace_placeholders v variables) = fact_list v).
  { destruct v; try reflexivity. cbn [_deep_replace_placeholders fact_list].
    apply forallb_map_ext. intros x _. now destruct x. }
  unfold field_ok. now rewrite Hs, Hf.
Qed.

(** Substitution keeps a card well formed. *)
Lemma shape_replaced (variables : list (string * option string)) (v : json) :
  shape_ok (_deep_replace_placeholders v variables) = shape_ok v.
Proof.
  remember (S (depth v)) as n eqn:Hn.
  assert (Hlt : depth v < n) by lia. clear Hn. revert v Hlt.
  induction n as [|n IH]; intros v Hlt; [lia|].
  destruct v; try reflexivity; cbn [_deep_replace_placeholders shape_ok].
  - apply forallb_map_ext. intros x Hx. apply IH.
    apply depth_item in Hx. lia.
  - apply forallb_map_ext. intros [k x] Hx.
    rewrite field_ok_replaced. f_equal. apply IH.
    apply depth_value in Hx. lia.
Qed.

Lemma distinct_cons (k : string) (rest : list string) :
  distinct (k :: rest) = true <-> ~ In k rest /\ distinct rest = true.
Proof.
  cbn [distinct]. rewrite andb_true_iff, negb_true_iff.
  assert (H : existsb (String.eqb k) rest = false <-> ~ In k rest).
  { split.
    - intros He Hin.
      assert (Ht : existsb (String.eqb k) rest = true).
      { apply existsb_exists. exists k. split; [exact Hin | apply String.eqb_refl]. }
      congruence.
    - intros Hn. destruct (existsb (String.eqb k) rest) eqn:E; [|reflexivity].
      apply existsb_exists in E as (x & Hx & He).
      apply String.eqb_eq in He. subst x. contradiction. }
  now rewrite H.
Qed.

Lemma lookup_absent (key : string) (d : list (string * json)) :
  ~ In key (map fst d) -> lookup key d = None.
Proof.
  induction d as [|[k v] d IH]; cbn [lookup map fst]; intros H; [reflexivity|].
  destruct (String.eqb_spec k key) as [->|_].
  - exfalso. apply H. now left.
  - apply IH. intros Hin. apply H. now right.
Qed.

(** What the loop leaves under each key, for a dict with distinct keys. *)
Lemma prune_fields_lookup (rec : json -> json -> outcome json)
  (node_type : json) (items out0 out : list (string * json)) (k : string) :
  well_keyed items = true ->
  prune_fields rec node_type items out0 = Done out ->
  lookup k out
  = match lookup k items with
    | Some v => pruned_entry rec node_type (lookup k out0) v
    | None => lookup k out0
    end.
Proof.
  unfold well_keyed. revert out0.
  induction items as [|[k0 v0] items IH]; intros out0 Hd;
    cbn [prune_fields lookup map fst] in *.
  - intros H. now injection H as <-.
  - apply distinct_cons in Hd as [Hfresh Hd].
    assert (Hset : forall w,
               prune_fields rec node_type items (dict_set out0 k0 w) = Done out ->
               lookup k out
               = if String.eqb k0 k then Some w
                 else match lookup k items with
                      | Some v => pruned_entry rec node_type (lookup k out0) v
                      | None => lookup k out0
                      end).
    { intros w Hrun. rewrite (IH _ Hd Hrun), lookup_dict_set.
      destruct (String.eqb_spec k0 k) as [->|_]; [|reflexivity].
      now rewrite (lookup_absent k items Hfresh). }
    destruct (is_container v0) eqn:Ec.
    + destruct (rec v0 node_type) as [pruned|e] eqn:E; cbn [bind]; [|discriminate].
      destruct (is_none pruned) eqn:En.
      * intros Hrun. rewrite (IH _ Hd Hrun).
        destruct (String.eqb_spec k0 k) as [->|_]; [|reflexivity].
        rewrite (lookup_absent k items Hfresh).
        unfold pruned_entry. now rewrite Ec, E, En.
      * intros Hrun. rewrite (Hset pruned Hrun).
        destruct (String.eqb k0 k); [|reflexivity].
        unfold pruned_entry. now rewrite Ec, E, En.
    + intros Hrun. rewrite (Hset v0 Hrun).
      destruct (String.eqb k0 k); [|reflexivity].
      unfold pruned_entry. now rewrite Ec.
Qed.

(** On a dict typed as the root, [_prune] is its loop and nothing else. *)
Lemma _prune_root (d : list (string * json)) (parent_type : json) :
  get "type" d = JStr "AdaptiveCard" ->
  _prune (JObj d) parent_type
  = (out <- prune_fields _prune (JStr "AdaptiveCard") d [] ;;
     Done (JObj out))%outcome.
Proof.
  intros H. rewrite _prune_dict. unfold prune_dict. rewrite H. cbn.
  now destruct (prune_fields _prune (JStr "AdaptiveCard") d []).
Qed.

(** The root after substitution: same keys, same declared type. *)
Lemma root_replaced (raw : list (string * json))
  (variables : list (string * option string)) :
  well_keyed raw = true ->
  lookup "type" raw = Some (JStr "AdaptiveCard") ->
  exists d, _deep_replace_placeholders (JObj raw) variables = JObj d
            /\ well_keyed d = true
            /\ lookup "type" d = Some (JStr "AdaptiveCard").
Proof.
  intros Hk Ht. eexists. split; [reflexivity|]. split.
  - unfold well_keyed. now rewrite keys_replaced.
  - rewrite lookup_replaced, Ht. cbn [option_map _deep_replace_placeholders].
    rewrite substitute_free; [reflexivity|]. cbn. repeat split; discriminate.
Qed.

Lemma load_card_json_check (raw : json)
  (variables : list (string * option string)) (rendered : json) :
  _prune (_deep_replace_placeholders raw variables) JNull = Done rendered ->
  load_card_json (Parsed raw) variables
  = if is_card rendered then Done rendered else Raised (SystemExit root_error).
Proof.
  intros H. unfold load_card_json. rewrite H. cbn [bind].
  now destruct rendered.
Qed.

(** C5.  For a template whose root is a dict that declares the type
    [AdaptiveCard]: pruning never drops the root; whenever rendering
    returns, it returns a dict that declares the same type, and this is
    the pruned root; rendering never ends in the fatal error of the final
    check, the only exceptions being those that a malformed inner node
    raises; and on a well-formed template rendering does return.  For any
    template at all, a pruned result that is not a dict of the root type
    makes [load_card_json] exit with its fatal error, and one that is
    such a dict is returned. *)
Theorem root_survives_pruning (raw : list (string * json))
  (variables : list (string * option string)) :
  well_keyed raw = true ->
  lookup "type" raw = Some (JStr "AdaptiveCard") ->
  _prune (_deep_replace_placeholders (JObj raw) variables) JNull <> Done JNull
  /\ (forall card,
        load_card_json (Parsed (JObj raw)) variables = Done card ->
        exists out,
          card = JObj out
          /\ get "type" out = JStr "AdaptiveCard"
          /\ _prune (_deep_replace_placeholders (JObj raw) variables) JNull
             = Done card)
  /\ (forall e,
        load_card_json (Parsed (JObj raw)) variables = Raised e ->
        e = AttributeError \/ e = TypeError)
  /\ (shape_ok (JObj raw) = true ->
      exists out,
        load_card_json (Parsed (JObj raw)) variables = Done (JObj out)
        /\ get "type" out = JStr "AdaptiveCard")
  /\ (forall template vars rendered,
        _prune (_deep_replace_placeholders template vars) JNull = Done rendered ->
        (is_card rendered = false ->
         load_card_json (Parsed template) vars = Raised (SystemExit root_error))
        /\ (is_card rendered = true ->
            load_card_json (Parsed template) vars = Done rendered)).
Proof.
  intros Hk Ht.
  destruct (root_replaced raw variables Hk Ht) as (d & Hd & Hkd & Htd).
  assert (Hty : get "type" d = JStr "AdaptiveCard")
    by (unfold get, get_default; now rewrite Htd).
  assert (Hrun : forall r,
             _prune (JObj d) JNull = Done r ->
             exists out, r = JObj out /\ get "type" out = JStr "AdaptiveCard").
  { intros r. rewrite (_prune_root d JNull Hty).
    destruct (prune_fields _prune (JStr "AdaptiveCard") d []) as [out|e] eqn:E;
      cbn [bind]; [|discriminate].
    intros H. injection H as <-. exists out. split; [reflexivity|].
    unfold get, get_default.
    rewrite (prune_fields_lookup _ _ _ _ _ "type" Hkd E), Htd. reflexivity. }
  assert (Hload : forall r,
             _prune (JObj d) JNull = Done r ->
             load_card_json (Parsed (JObj raw)) variables = Done r).
  { intros r Hr. rewrite (load_card_json_check (JObj raw) variables r)
      by (now rewrite Hd).
    destruct (Hrun r Hr) as (out & -> & Hout). cbn [is_card].
    now rewrite Hout. }
  rewrite Hd.
  split.
  { intros H. destruct (Hrun _ H) as (out & Hout & _). discriminate Hout. }
  split.
  { intros card H.
    destruct (_prune (JObj d) JNull) as [r|e] eqn:E.
    - rewrite (Hload r eq_refl) in H. injection H as <-.
      destruct (Hrun r eq_refl) as (out & Hout & Hty'). exists out.
      now repeat split.
    - unfold load_card_json in H. rewrite Hd, E in H. discriminate H. }
  split.
  { intros e H.
    destruct (_prune (JObj d) JNull) as [r|e'] eqn:E.
    - rewrite (Hload r eq_refl) in H. discriminate H.
    - unfold load_card_json in H. rewrite Hd, E in H. injection H as <-.
      now apply _prune_raised in E. }
  split.
  { intros Hs.
    destruct (_prune_total (JObj d) JNull) as [r Hr].
    { rewrite <- Hd. now rewrite shape_replaced. }
    destruct (Hrun r Hr) as (out & -> & Hout).
    exists out. split; [now apply Hload | exact Hout]. }
  intros template vars rendered H.
  rewrite (load_card_json_check template vars rendered H).
  split; now intros ->.
Qed.

Lemma root_survives_pruning_witness :
  exists out,
    load_card_json (Parsed sample_card) sample_variables = Done (JObj out)
    /\ get "type" out = JStr "AdaptiveCard"
    /\ get "body" out
       = JArr [text_block "New opportunity: ACME Corp";
               fact_set [fact "Amount" "$50,000"]].
Proof.
  destruct (root_survives_pruning
              [("type", JStr "AdaptiveCard"); ("version", JStr "1.3");
               ("body",
                JArr [text_block "New opportunity: {{account}}";
                      text_block "{{due}}";
                      fact_set [fact "Amount" "{{amount}}"; fact "Due" "{{due}}"];
                      JObj [("type", JStr "Container");
                            ("items", JArr [fact_set [fact "Due" "{{due}}"]])]]);
               ("actions",
                JArr [JObj [("type", JStr "Action.OpenUrl"); ("title", JStr "Open");
                            ("url", JStr "{{cta_url}}")]])]
              sample_variables eq_refl eq_refl)
    as (_ & _ & _ & Hok & _).
  destruct (Hok eq_refl) as (out & Hrun & Hty).
  exists out. split; [exact Hrun|]. split; [exact Hty|].
  vm_compute in Hrun. injection Hrun as <-. reflexivity.
Defined.

End RootFacts.

(* ===================================================================== *)
(** * Fact sets *)
(* ===================================================================== *)

Module FactSetFacts.
Import PyStr PyStrFacts PyVal PyValFacts Renderer RendererSpec CardSpec.
Import PruneFacts PruneShape PruneTotal RootFacts.

Lemma distinct_NoDup (l : list string) : distinct l = true -> NoDup l.
Proof.
  induction l as [|k l IH]; intros H; [constructor|].
  apply distinct_cons in H as [Hk Hl]. constructor; auto.
Qed.

Lemma NoDup_distinct (l : list string) : NoDup l -> distinct l = true.
Proof.
  induction 1 as [|k l Hk _ IH]; [reflexivity|].
  apply distinct_cons. now split.
Qed.

(** The loop gives back a dict whose values it leaves alone. *)
Lemma prune_fields_fixed (rec : json -> json -> outcome json)
  (node_type : json) (items out0 : list (string * json)) :
  NoDup (map fst out0 ++ map fst items) ->
  Forall (fun kv : string * json =>
            is_container (snd kv) = false
            \/ (rec (snd kv) node_type = Done (snd kv)
                /\ is_none (snd kv) = false)) items ->
  prune_fields rec node_type items out0 = Done (out0 ++ items).
Proof.
  revert out0. induction items as [|[k v] items IH]; intros out0 Hnd Hall;
    cbn [prune_fields].
  - now rewrite app_nil_r.
  - inversion Hall as [|? ? Hv Hrest]; subst. cbn [snd] in Hv.
    assert (Hfresh : ~ In k (map fst out0)).
    { cbn [map fst] in Hnd. apply NoDup_remove_2 in Hnd.
      intros Hin. apply Hnd. apply in_or_app. now left. }
    assert (Hnext : prune_fields rec node_type items (dict_set out0 k v)
                    = Done (out0 ++ (k, v) :: items)).
    { rewrite (dict_set_fresh out0 k v Hfresh), IH.
      - now rewrite <- app_assoc.
      - rewrite map_app. cbn [map fst]. rewrite <- app_assoc. exact Hnd.
      - exact Hrest. }
    destruct (is_container v) eqn:Ec; [|exact Hnext].
    destruct Hv as [Hv|[Hr Hn]]; [discriminate Hv|].
    rewrite Hr. cbn [bind]. rewrite Hn. exact Hnext.
Qed.

Lemma prune_items_fixed (rec : json -> json -> outcome json)
  (parent_type : json) (node children : list json) :
  Forall (fun v => rec v parent_type = Done v /\ is_none v = false) node ->
  prune_items rec parent_type node children = Done (children ++ node).
Proof.
  revert children. induction node as [|v node IH]; intros children Hall;
    cbn [prune_items].
  - now rewrite app_nil_r.
  - inversion Hall as [|? ? [Hr Hn] Hrest]; subst.
    rewrite Hr. cbn [bind]. rewrite Hn, IH by exact Hrest.
    now rewrite <- app_assoc.
Qed.

Lemma pruned_type_cases (ty : json) :
  pruned_type ty = false ->
  is_str ty "TextBlock" = false /\ is_str ty "FactSet" = false
  /\ is_str ty "Action.OpenUrl" = false /\ is_str ty "Container" = false
  /\ is_str ty "Column" = false /\ is_str ty "ColumnSet" = false
  /\ is_str ty "ActionSet" = false.
Proof.
  unfold pruned_type. rewrite !orb_false_iff. tauto.
Qed.

Lemma scalar_fields_fixed (rec : json -> json -> outcome json)
  (node_type : json) (d : list (string * json)) :
  scalar_fields d = true ->
  Forall (fun kv : string * json =>
            is_container (snd kv) = false
            \/ (rec (snd kv) node_type = Done (snd kv)
                /\ is_none (snd kv) = false)) d.
Proof.
  unfold scalar_fields. rewrite forallb_forall, Forall_forall.
  intros H kv Hin. left. apply negb_true_iff. now apply H.
Qed.

(** A plain fact goes through [_prune] unchanged. *)
Lemma _prune_plain_fact (f parent_type : json) :
  plain_fact f = true ->
  _prune f parent_type = Done f /\ is_none f = false.
Proof.
  destruct f as [| | | | | |d]; try discriminate. cbn [plain_fact].
  rewrite !andb_true_iff, negb_true_iff. intros [[Hk Hs] Ht].
  split; [|reflexivity].
  destruct (pruned_type_cases _ Ht) as (H1 & H2 & H3 & H4 & H5 & H6 & H7).
  rewrite _prune_dict. unfold prune_dict.
  rewrite H1, H2, H3, H4, H5, H6, H7. cbn [andb orb bind].
  rewrite (prune_fields_fixed _prune (get "type" d) d []).
  - reflexivity.
  - cbn [map app]. now apply distinct_NoDup.
  - now apply scalar_fields_fixed.
Qed.

Lemma fact_value_entry (f : json) :
  fact_entry f = true ->
  fact_value f = Done (match f with JObj d => get "value" d | _ => JNull end).
Proof.
  destruct f as [| | | | | |d]; try discriminate; intros _; unfold fact_value.
  - reflexivity.
  - destruct d; reflexivity.
Qed.

(** On facts and nulls the comprehension of [_prune] is a [filter]. *)
Lemma keep_facts_filter (facts : list json) :
  forallb fact_entry facts = true ->
  keep_facts facts = Done (filter (fun f => negb (blank_fact f)) facts).
Proof.
  induction facts as [|f facts IH]; cbn [forallb keep_facts filter];
    [reflexivity|].
  intros H. apply andb_true_iff in H as [Hf Hrest].
  rewrite (fact_value_entry f Hf), (IH Hrest). cbn [bind].
  destruct f as [| | | | | |d]; try discriminate Hf; cbn [blank_fact _is_blank negb].
  - reflexivity.
  - now destruct (_is_blank (get "value" d)).
Qed.

(** The facts that are kept are plain facts. *)
Lemma kept_facts_plain (facts : list json) (f : json) :
  forallb fact_entry facts = true ->
  In f (filter (fun f => negb (blank_fact f)) facts) ->
  plain_fact f = true.
Proof.
  intros Hall Hin. apply filter_In in Hin as [Hin Hnb].
  rewrite forallb_forall in Hall. specialize (Hall f Hin).
  unfold fact_entry in Hall. apply orb_true_iff in Hall as [H|H]; [exact H|].
  destruct f; discriminate.
Qed.

Lemma _prune_kept_facts (facts : list json) (parent_type : json) :
  forallb fact_entry facts = true ->
  _prune (JArr (filter (fun f => negb (blank_fact f)) facts)) parent_type
  = Done (JArr (filter (fun f => negb (blank_fact f)) facts)).
Proof.
  intros Hall. rewrite _prune_list, (prune_items_fixed _prune parent_type _ []).
  - reflexivity.
  - apply Forall_forall. intros f Hf. apply _prune_plain_fact.
    now apply (kept_facts_plain facts).
Qed.

(** Where the facts stand in a dict with distinct keys. *)
Lemma facts_position (d : list (string * json)) (x : json) :
  NoDup (map fst d) -> lookup "facts" d = Some x ->
  exists pre post,
    d = pre ++ ("facts", x) :: post
    /\ ~ In "facts" (map fst pre) /\ ~ In "facts" (map fst post)
    /\ forall y, dict_set d "facts" y = pre ++ ("facts", y) :: post.
Proof.
  induction d as [|[k v] d IH]; cbn [lookup map fst]; [discriminate|].
  intros Hnd Hl. inversion Hnd as [|? ? Hk Hnd']; subst.
  destruct (String.eqb_spec k "facts") as [->|Hne].
  - injection Hl as ->. exists [], d. cbn [app map].
    split; [reflexivity|]. split; [intros []|]. split; [exact Hk|].
    intros y. cbn [dict_set]. now rewrite String.eqb_refl.
  - destruct (IH Hnd' Hl) as (pre & post & -> & Hpre & Hpost & Hset).
    exists ((k, v) :: pre), post. cbn [app map fst].
    split; [reflexivity|].
    split; [intros [E|Hin]; [contradiction | now apply Hpre]|].
    split; [exact Hpost|].
    intros y. cbn [dict_set].
    destruct (String.eqb_spec k "facts") as [E|_]; [contradiction|].
    now rewrite Hset.
Qed.

(** One call of [_prune] on a fact set of facts and nulls. *)
Lemma _prune_fact_set (d : list (string * json)) (facts : list json)
  (parent_type : json) :
  lookup "type" d = Some (JStr "FactSet") ->
  lookup "facts" d = Some (JArr facts) ->
  forallb fact_entry facts = true ->
  _prune (JObj d) parent_type
  = match filter (fun f => negb (blank_fact f)) facts with
    | [] => Done JNull
    | kept =>
        (out <- prune_fields _prune (JStr "FactSet")
                  (dict_set d "facts" (JArr kept)) [] ;;
         Done (JObj out))%outcome
    end.
Proof.
  intros Hty Hfacts Hall.
  assert (Hget : get "type" d = JStr "FactSet")
    by (unfold get, get_default; now rewrite Hty).
  rewrite _prune_dict. unfold prune_dict. rewrite Hget.
  change (is_str (JStr "FactSet") "TextBlock") with false.
  change (is_str (JStr "FactSet") "FactSet") with true.
  change (is_str (JStr "FactSet") "Action.OpenUrl") with false.
  change (is_str (JStr "FactSet") "Container") with false.
  change (is_str (JStr "FactSet") "Column") with false.
  change (is_str (JStr "FactSet") "ColumnSet") with false.
  change (is_str (JStr "FactSet") "ActionSet") with false.
  cbn [andb orb]. unfold get_default at 1. rewrite Hfacts.
  cbn [py_iter bind]. rewrite (keep_facts_filter facts Hall). cbn [bind].
  destruct (filter (fun f => negb (blank_fact f)) facts) as [|x kept];
    cbn [bind]; [reflexivity|].
  now destruct (prune_fields _prune (JStr "FactSet")
                  (dict_set d "facts" (JArr (x :: kept))) []).
Qed.

(** C6.  Take a fact-set node, as it stands after substitution, whose
    facts are plain facts or nulls.  If every fact has a blank value,
    [_prune] drops the node, and a list that holds it loses it.  If some
    fact has a value that is not blank, [_prune] never drops the node, and
    whenever it returns, the node it returns has under [facts] exactly the
    facts whose value is not blank, in the order they had; when the other
    fields of the node are scalars it does return, and nothing but the
    facts has changed; on a well-formed node it returns too. *)
Theorem fact_set_keeps_nonblank_facts
  (d : list (string * json)) (facts : list json) (parent_type : json) :
  well_keyed d = true ->
  lookup "type" d = Some (JStr "FactSet") ->
  lookup "facts" d = Some (JArr facts) ->
  forallb fact_entry facts = true ->
  (forallb blank_fact facts = true ->
   _prune (JObj d) parent_type = Done JNull
   /\ _prune (JArr [JObj d]) parent_type = Done (JArr []))
  /\ (existsb (fun f => negb (blank_fact f)) facts = true ->
      _prune (JObj d) parent_type <> Done JNull
      /\ (forall r,
            _prune (JObj d) parent_type = Done r ->
            exists out,
              r = JObj out
              /\ get "facts" out
                 = JArr (filter (fun f => negb (blank_fact f)) facts))
      /\ (flat_factset d = true ->
          _prune (JObj d) parent_type
          = Done (JObj (dict_set d "facts"
                          (JArr (filter (fun f => negb (blank_fact f)) facts)))))
      /\ (shape_ok (JObj d) = true ->
          exists out, _prune (JObj d) parent_type = Done (JObj out))).
Proof.
  intros Hk Hty Hfacts Hall.
  pose proof (fun pt => _prune_fact_set d facts pt Hty Hfacts Hall) as Hrun.
  set (kept := filter (fun f => negb (blank_fact f)) facts) in *.
  split.
  - intros Hblank.
    assert (Hnil : kept = []).
    { unfold kept. clear -Hblank.
      induction facts as [|f facts IH]; [reflexivity|].
      cbn [forallb] in Hblank. apply andb_true_iff in Hblank as [Hf Hrest].
      cbn [filter]. rewrite Hf. cbn [negb]. now apply IH. }
    split.
    + rewrite Hrun. now rewrite Hnil.
    + rewrite _prune_list. cbn [prune_items]. rewrite Hrun, Hnil.
      reflexivity.
  - intros Hsome.
    assert (Hne : kept <> []).
    { unfold kept. apply existsb_exists in Hsome as (f & Hin & Hf).
      intros E. assert (Hk' : In f (filter (fun f => negb (blank_fact f)) facts))
        by (apply filter_In; now split).
      rewrite E in Hk'. destruct Hk'. }
    assert (Hloop : forall pt,
               _prune (JObj d) pt
               = (out <- prune_fields _prune (JStr "FactSet")
                           (dict_set d "facts" (JArr kept)) [] ;;
                  Done (JObj out))%outcome).
    { intros pt. rewrite Hrun. destruct kept; [contradiction | reflexivity]. }
    assert (Hkeys : well_keyed (dict_set d "facts" (JArr kept)) = true).
    { unfold well_keyed. rewrite dict_set_keys; [exact Hk|].
      apply lookup_In in Hfacts. apply in_map_iff. now exists ("facts", JArr facts). }
    assert (Hret : forall r,
               _prune (JObj d) parent_type = Done r ->
               exists out, r = JObj out /\ get "facts" out = JArr kept).
    { intros r. rewrite Hloop.
      destruct (prune_fields _prune (JStr "FactSet")
                  (dict_set d "facts" (JArr kept)) []) as [out|e] eqn:E;
        cbn [bind]; [|discriminate].
      intros H. injection H as <-. exists out. split; [reflexivity|].
      unfold get, get_default.
      rewrite (prune_fields_lookup _ _ _ _ _ "facts" Hkeys E).
      rewrite lookup_dict_set, String.eqb_refl.
      unfold pruned_entry. cbn [is_container].
      unfold kept. rewrite (_prune_kept_facts facts (JStr "FactSet") Hall).
      reflexivity. }
    split.
    { intros H. destruct (Hret _ H) as (out & Hout & _). discriminate Hout. }
    split; [exact Hret|].
    split.
    + intros Hflat. rewrite Hloop.
      destruct (facts_position d (JArr facts) (distinct_NoDup _ Hk) Hfacts)
        as (pre & post & Hd & Hpre & Hpost & Hset).
      rewrite (prune_fields_fixed _prune (JStr "FactSet")
                 (dict_set d "facts" (JArr kept)) []).
      * reflexivity.
      * cbn [map app]. now apply distinct_NoDup.
      * rewrite Hset. unfold flat_factset in Hflat. rewrite Hd in Hflat.
        rewrite forallb_app in Hflat. cbn [forallb] in Hflat.
        apply andb_true_iff in Hflat as [Hfpre Hfpost].
        apply andb_true_iff in Hfpost as [_ Hfpost].
        assert (Hscalar : forall l,
                   ~ In "facts" (map fst l) ->
                   forallb (fun kv : string * json =>
                              String.eqb (fst kv) "facts"
                              || negb (is_container (snd kv))) l = true ->
                   Forall (fun kv : string * json =>
                             is_container (snd kv) = false
                             \/ (_prune (snd kv) (JStr "FactSet") = Done (snd kv)
                                 /\ is_none (snd kv) = false)) l).
        { intros l Hno Hfl. rewrite forallb_forall in Hfl.
          apply Forall_forall. intros [k v] Hin. left. cbn [snd].
          specialize (Hfl (k, v) Hin). cbn [fst snd] in Hfl.
          destruct (String.eqb_spec k "facts") as [->|_].
          - exfalso. apply Hno. apply in_map_iff. now exists ("facts", v).
          - now apply negb_true_iff. }
        apply Forall_app. split; [now apply Hscalar|].
        constructor; [|now apply Hscalar].
        right. cbn [snd]. split; [|reflexivity].
        unfold kept. now apply _prune_kept_facts.
    + intros Hs. destruct (_prune_total (JObj d) parent_type Hs) as [r Hr].
      destruct (Hret r Hr) as (out & -> & _). now exists out.
Qed.

Lemma fact_set_keeps_nonblank_facts_witness :
  _prune (fact_set [fact "Amount" "$50,000"; fact "Due" "   "; JNull;
                    fact "Owner" "Ann"]) JNull
  = Done (fact_set [fact "Amount" "$50,000"; fact "Owner" "Ann"])
  /\ _prune (fact_set [fact "Due" ""; JObj [("title", JStr "Stage")]]) JNull
     = Done JNull.
Proof.
  split.
  - exact (proj1 (proj2 (proj2 (proj2 (fact_set_keeps_nonblank_facts
             [("type", JStr "FactSet");
              ("facts", JArr [fact "Amount" "$50,000"; fact "Due" "   "; JNull;
                              fact "Owner" "Ann"])]
             [fact "Amount" "$50,000"; fact "Due" "   "; JNull; fact "Owner" "Ann"]
             JNull eq_refl eq_refl eq_refl eq_refl) eq_refl))) eq_refl).
  - exact (proj1 (proj1 (fact_set_keeps_nonblank_facts
             [("type", JStr "FactSet");
              ("facts", JArr [fact "Due" ""; JObj [("title", JStr "Stage")]])]
             [fact "Due" ""; JObj [("title", JStr "Stage")]]
             JNull eq_refl eq_refl eq_refl eq_refl) eq_refl)).
Defined.

End FactSetFacts.

(* ===================================================================== *)
(** * The embedding on concrete inputs *)
(* ===================================================================== *)

Module Checks.
Import PyStr PyVal Loader LoaderSpec Renderer RendererSpec CardSpec.
Import Logger Orchestrator OrchestratorSpec RunSpec.

Example strip_both_ends :
  strip (String (ascii_of_nat 9) " ann@example.com  ") = "ann@example.com".
Proof. reflexivity. Qed.

Example lower_mixed_case : lower "eMail,NAME" = "email,name".
Proof. reflexivity. Qed.

Example replace_every_occurrence :
  replace "{{due}} and {{due}}" "{{due}}" "Friday" = "Friday and Friday".
Proof. reflexivity. Qed.

Example replace_without_overlap : replace "aaa" "aa" "b" = "ba".
Proof. reflexivity. Qed.

Example readline_stops_at_newline :
  readline ("email,name" ++ nl ++ "ann@example.com,Ann")%string
  = ("email,name" ++ nl)%string.
Proof. reflexivity. Qed.

Example loader_skips_header_like_rows :
  load_emails simple_reader
    ("ann@example.com,Ann" ++ nl ++ "E-mail,Name" ++ nl ++ nl
     ++ " bob@example.com" ++ nl ++ "not an address" ++ nl
     ++ "ann@example.com,again" ++ nl)%string
  = ["ann@example.com"; "bob@example.com"].
Proof. reflexivity. Qed.

Example headerless_file_with_email_in_first_line :
  load_emails simple_reader
    ("ann@email.example,Ann" ++ nl ++ "bob@example.com,Bob" ++ nl)%string
  = [].
Proof. reflexivity. Qed.

Example blank_text_block_is_dropped :
  _prune (JArr [text_block "  "; text_block "kept"]) JNull
  = Done (JArr [text_block "kept"]).
Proof. reflexivity. Qed.

Example empty_container_is_dropped :
  _prune (JObj [("type", JStr "Container");
                ("items", JArr [text_block ""; fact_set [fact "Due" ""]])]) JNull
  = Done JNull.
Proof. reflexivity. Qed.

Example non_object_fact_raises :
  _prune (fact_set [JInt 5]) JNull = Raised AttributeError.
Proof. reflexivity. Qed.

Example template_that_is_not_a_card :
  load_card_json (Parsed (text_block "hello")) sample_variables
  = Raised (SystemExit root_error).
Proof. reflexivity. Qed.

Example twenty_recipients_two_batches :
  map (@length string) (match chunked (recipients 20) 10 with
                        | Done batches => batches
                        | Raised _ => []
                        end) = [10; 10]
  /\ pause_after defaults 20 1 = true
  /\ pause_after defaults 20 2 = false.
Proof. repeat split. Qed.

Example zero_batch_size_raises :
  chunked trio 0 = Raised ValueError.
Proof. reflexivity. Qed.

Example existing_log_gets_no_header :
  ensure_log_writer (write_file no_files "send_log.csv" []) "send_log.csv"
    "send_log.csv" = Some [].
Proof. reflexivity. Qed.

End Checks.

(* ===================================================================== *)
(** * Further properties of the loader *)
(* ===================================================================== *)

Module LoaderMore.
Import PyStr PyStrFacts Loader LoaderSpec LoaderSamples LoaderFacts HeaderFacts MoreSpec.

Lemma fresh_fixed (seen l : list string) :
  NoDup l -> (forall x, In x l -> ~ In x seen) -> fresh seen l = l.
Proof.
  revert seen. induction l as [|e l IH]; intros seen Hnd Hdisj; [reflexivity|].
  cbn [fresh]. inversion Hnd as [|? ? He Hl]; subst.
  destruct (mem e seen) eqn:E.
  - apply mem_In in E. exfalso. apply (Hdisj e); [now left | exact E].
  - f_equal. apply IH; [exact Hl|].
    intros x Hx [<-|Hs]; [contradiction|].
    apply (Hdisj x); [now right | exact Hs].
Qed.

Lemma fresh_seen (seen l : list string) :
  (forall x, In x l -> In x seen) -> fresh seen l = [].
Proof.
  induction l as [|e l IH]; intros H; [reflexivity|]. cbn [fresh].
  assert (E : mem e seen = true) by (apply mem_In, H; now left).
  rewrite E. apply IH. intros x Hx. apply H. now right.
Qed.

(** X1.  The de-duplication of [load_emails] changes nothing the second
    time, returns a list without duplicates as it is, and is blind to
    later rows that repeat addresses already met. *)
Theorem dedup_settles (emails : list string) :
  dedup (dedup emails) = dedup emails
  /\ (NoDup emails -> dedup emails = emails)
  /\ (forall again, (forall x, In x again -> In x emails) ->
                    dedup (emails ++ again) = dedup emails).
Proof.
  assert (Hfix : forall l, NoDup l -> dedup l = l).
  { intros l H. rewrite dedup_fresh. apply fresh_fixed; [exact H|].
    intros x _ []. }
  split.
  - apply Hfix. rewrite dedup_fresh. apply fresh_NoDup.
  - split; [apply Hfix|].
    intros again H. rewrite !dedup_fresh, fresh_app.
    rewrite (fresh_seen (emails ++ []) again).
    + apply app_nil_r.
    + intros x Hx. rewrite app_nil_r. now apply H.
Qed.

Lemma row_get_cell (key : string) (fieldnames row : list string) (s : string) :
  row_get key (zip_row fieldnames row) = Some s -> In s row.
Proof.
  rewrite row_get_scan.
  assert (H : forall d acc,
             (forall k v, In (k, Some v) d -> In v row) ->
             fold_left (scan key) d acc = Some s ->
             acc = Some s \/ In s row).
  { induction d as [|[k v] d IH]; intros acc Hd; cbn [fold_left]; [now left|].
    intros Hf. apply IH in Hf; [|intros k' v' Hin; apply (Hd k'); now right].
    destruct Hf as [Hf|Hf]; [|now right].
    unfold scan in Hf. cbn [fst snd] in Hf.
    destruct (String.eqb k key); [|now left].
    subst v. right. apply (Hd k). now left. }
  intros Hs. destruct (H (zip_row fieldnames row) None) as [E|E];
    [|exact Hs|discriminate E|exact E].
  clear. revert row.
  induction fieldnames as [|f fs IH]; intros [|c cs] k v; cbn [zip_row].
  - intros [].
  - intros [].
  - intros Hin. apply in_map_iff in Hin as (x & E & _). discriminate E.
  - intros [E|Hin]; [injection E as _ ->; now left|].
    right. now apply (IH cs k v).
Qed.

(** A candidate of the header branch that is not empty is a trimmed cell
    of its row. *)
Lemma header_candidate_cell (fieldnames row : list string) :
  header_candidate (zip_row fieldnames row) = EmptyString
  \/ exists c, In c row
               /\ header_candidate (zip_row fieldnames row) = strip c.
Proof.
  unfold header_candidate, or_else.
  destruct (row_get "email" (zip_row fieldnames row)) as [s1|] eqn:E1;
    [destruct (nonempty s1);
     [right; exists s1; split; [now apply (row_get_cell "email" fieldnames)|reflexivity]|]|];
    (destruct (row_get "Email" (zip_row fieldnames row)) as [s2|] eqn:E2;
     [destruct (nonempty s2);
      [right; exists s2; split;
       [now apply (row_get_cell "Email" fieldnames)|reflexivity]|]|]);
    (destruct (row_get "EMAIL" (zip_row fieldnames row)) as [s3|] eqn:E3;
     [destruct (nonempty s3);
      [right; exists s3; split;
       [now apply (row_get_cell "EMAIL" fieldnames)|reflexivity]|]|]);
    now left.
Qed.

Lemma load_emails_In (reader : string -> list csv_row) (content e : string) :
  In e (load_emails reader content) <-> In e (candidates reader content).
Proof.
  unfold load_emails. rewrite dedup_fresh, fresh_In. split; [tauto|].
  intros H. split; [exact H | intros []].
Qed.

(** X2.  [load_emails] invents nothing: every address it returns is a cell
    of some row of the file, trimmed. *)
Theorem load_emails_from_cells (reader : string -> list csv_row)
  (content e : string) :
  In e (load_emails reader content) ->
  exists row c, In row (reader content) /\ In c row /\ e = strip c.
Proof.
  intros H. apply load_emails_In in H.
  revert H. unfold candidates.
  destruct (contains "email" (lower (readline content))).
  - unfold header_branch, dict_reader.
    destruct (reader content) as [|fieldnames rest]; [intros []|].
    rewrite filter_In, in_map_iff.
    intros [(d & <- & Hd) Hacc].
    apply in_map_iff in Hd as (row & <- & Hrow). apply filter_In in Hrow as [Hrow _].
    destruct (header_candidate_cell fieldnames row) as [E|(c & Hc & E)].
    + rewrite E in Hacc. discriminate Hacc.
    + exists row, c. split; [now right|]. now split.
  - unfold plain_branch. rewrite filter_In, in_map_iff.
    intros [(row & <- & Hrow) Hacc]. apply filter_In in Hrow as [Hrow Hne].
    destruct row as [|c row]; [discriminate Hne|].
    exists (c :: row), c. split; [exact Hrow|]. split; [now left | reflexivity].
Qed.

Lemma load_emails_from_cells_witness :
  In "ann@example.com" (load_emails simple_reader capitalised_file)
  /\ exists row c, In row (simple_reader capitalised_file) /\ In c row
                   /\ "ann@example.com" = strip c.
Proof.
  assert (H : In "ann@example.com" (load_emails simple_reader capitalised_file))
    by (vm_compute; now left).
  split; [exact H|].
  exact (load_emails_from_cells simple_reader capitalised_file _ H).
Defined.

(** X3.  In a file without a header row the address is the trimmed first
    cell of a row, and a first cell that begins with [email] in any case
    is passed over, also when it is an address. *)
Theorem headerless_skips_email_cells (reader : string -> list csv_row)
  (content e : string) :
  contains "email" (lower (readline content)) = false ->
  In e (load_emails reader content) ->
  startswith (lower e) "email" = false
  /\ exists c row, In (c :: row) (reader content) /\ e = strip c.
Proof.
  intros Hfirst H. apply load_emails_In in H. revert H.
  unfold candidates. rewrite Hfirst. unfold plain_branch.
  rewrite filter_In, in_map_iff.
  intros [(row & <- & Hrow) Hacc]. apply filter_In in Hrow as [Hrow Hne].
  unfold plain_accepted in Hacc. apply andb_true_iff in Hacc as [_ Hacc].
  split; [now destruct (startswith (lower (first_cell row)) "email")|].
  destruct row as [|c row]; [discriminate Hne|].
  now exists c, row.
Qed.

Lemma headerless_skips_email_cells_witness :
  contains "email" (lower (readline headerless_file)) = false
  /\ load_emails simple_reader headerless_file = ["bob@example.com"]
  /\ startswith (lower "bob@example.com") "email" = false.
Proof.
  assert (Hfirst : contains "email" (lower (readline headerless_file)) = false)
    by reflexivity.
  assert (Hin : In "bob@example.com" (load_emails simple_reader headerless_file))
    by (vm_compute; now left).
  split; [exact Hfirst|]. split; [reflexivity|].
  exact (proj1 (headerless_skips_email_cells simple_reader headerless_file _
                  Hfirst Hin)).
Defined.

Lemma nth_error_default (row : list string) (i : nat) :
  match nth_error row i with
  | Some s => s
  | None => EmptyString
  end = nth i row EmptyString.
Proof.
  revert i. induction row as [|c row IH]; intros [|i]; cbn; auto.
Qed.

(** X4.  When the header row names both an [email] and an [Email] column
    (and no [EMAIL] column), each row gives the cell under [email] unless
    that cell is missing or empty, and then the cell under [Email]; a cell
    of blanks under [email] is taken and gives no address. *)
Theorem email_column_before_Email_column
  (reader : string -> list csv_row) (content : string)
  (pre1 post1 pre2 post2 : list string) (rest : list csv_row) :
  contains "email" (lower (readline content)) = true ->
  reader content = (pre1 ++ "email" :: post1) :: rest ->
  pre1 ++ "email" :: post1 = pre2 ++ "Email" :: post2 ->
  ~ In "email" (pre1 ++ post1) ->
  ~ In "Email" (pre2 ++ post2) ->
  ~ In "EMAIL" (pre1 ++ post1) ->
  load_emails reader content
  = dedup (filter accepted
             (map (fun row =>
                     if nonempty (nth (length pre1) row EmptyString)
                     then column_cell (length pre1) row
                     else column_cell (length pre2) row)
                  (data_rows rest))).
Proof.
  intros Hfirst Hrows Hsame H1 H2 H3.
  unfold load_emails, candidates. rewrite Hfirst, Hrows.
  unfold header_branch, dict_reader. fold (data_rows rest).
  f_equal. f_equal. rewrite map_map. apply map_ext. intros row.
  unfold header_candidate, column_cell.
  rewrite (row_get_column "email" pre1 post1 row)
    by (intros Hin; apply H1, in_or_app; auto).
  rewrite Hsame.
  rewrite (row_get_column "Email" pre2 post2 row)
    by (intros Hin; apply H2, in_or_app; auto).
  rewrite <- Hsame.
  rewrite (row_get_missing "EMAIL")
    by (intros Hin; apply H3; apply in_app_or in Hin as [Hin|[Hin|Hin]];
        [apply in_or_app; now left | discriminate Hin
        | apply in_or_app; now right]).
  rewrite <- (nth_error_default row (length pre1)).
  rewrite <- (nth_error_default row (length pre2)).
  destruct (nth_error row (length pre1)) as [[|a1 s1]|];
    destruct (nth_error row (length pre2)) as [[|a2 s2]|]; reflexivity.
Qed.

Lemma email_column_before_Email_column_witness :
  contains "email" (lower (readline two_column_file)) = true
  /\ load_emails simple_reader two_column_file
     = ["ann@example.com"; "bob@example.com"].
Proof.
  split; [reflexivity|].
  rewrite (email_column_before_Email_column simple_reader two_column_file
             ["Email"] [] [] ["email"]
             [["old@example.com"; "ann@example.com"]; ["bob@example.com"; ""];
              ["cat@example.com"; " "]]
             eq_refl eq_refl eq_refl).
  - reflexivity.
  - intros [E|[]]. discriminate E.
  - intros [E|[]]. discriminate E.
  - intros [E|[]]. discriminate E.
Defined.

End LoaderMore.

(* ===================================================================== *)
(** * Further properties of the attempt loop *)
(* ===================================================================== *)

Module AttemptMore.
Import PyStr PyVal Logger Orchestrator OrchestratorSpec RunSpec MoreSpec.
Import AttemptFacts RunFacts BatchFacts.
Local Open Scope Z_scope.

Lemma retry_sleeps_app (a b : list event) :
  retry_sleeps (a ++ b) = (retry_sleeps a + retry_sleeps b)%nat.
Proof.
  induction a as [|[] a IH]; cbn [app retry_sleeps]; auto.
  now rewrite IH.
Qed.

Lemma fail_trace_calls (cfg : config) (to_email : string) (todo : list Z) :
  transport_calls (fail_trace cfg to_email todo)
  = map (fun a => (to_email, a)) todo.
Proof.
  induction todo as [|a todo IH]; [reflexivity|].
  cbn [fail_trace transport_calls map]. f_equal.
  rewrite transport_calls_app, IH. now destruct (a <? retry_count cfg).
Qed.

Lemma fail_trace_sleeps (cfg : config) (to_email : string) (todo : list Z) :
  retry_sleeps (fail_trace cfg to_email todo)
  = length (filter (fun a => a <? retry_count cfg) todo).
Proof.
  induction todo as [|a todo IH]; [reflexivity|].
  cbn [fail_trace retry_sleeps filter].
  rewrite retry_sleeps_app, IH. now destruct (a <? retry_count cfg).
Qed.

Lemma first_success (f : Z -> bool) (todo : list Z) :
  (forall a, In a todo -> f a = true)
  \/ exists failing a rest,
       todo = failing ++ a :: rest
       /\ (forall x, In x failing -> f x = true) /\ f a = false.
Proof.
  induction todo as [|a todo IH].
  - left. intros a [].
  - destruct (f a) eqn:E.
    + destruct IH as [IH|(failing & b & rest & -> & Hf & Hb)].
      * left. intros x [<-|Hx]; auto.
      * right. exists (a :: failing), b, rest. split; [reflexivity|].
        split; [|exact Hb]. intros x [<-|Hx]; auto.
    + right. exists [], a, todo. split; [reflexivity|].
      split; [intros x []|exact E].
Qed.

Lemma range_prefix (start stop : Z) (p q : list Z) :
  range start stop = p ++ q ->
  p = range start (start + Z.of_nat (length p))
  /\ q = range (start + Z.of_nat (length p)) stop.
Proof.
  revert start. induction p as [|x p IH]; intros start H.
  - cbn [length Z.of_nat]. rewrite Z.add_0_r.
    split; [now rewrite range_nil by lia | exact (eq_sym H)].
  - destruct (Z_lt_le_dec start stop) as [Hlt|Hle];
      [|rewrite range_nil in H by exact Hle; discriminate H].
    rewrite range_cons in H by exact Hlt. cbn [app] in H.
    injection H as <- H. apply IH in H as [Hp Hq].
    replace (start + Z.of_nat (length (start :: p)))
      with (start + 1 + Z.of_nat (length p)) by (cbn [length]; lia).
    split; [|exact Hq].
    rewrite (range_cons start) by lia. now f_equal.
Qed.

Lemma length_range (start stop : Z) :
  Z.of_nat (length (range start stop)) = Z.max 0 (stop - start).
Proof. unfold range. rewrite length_map, length_seq. lia. Qed.

Lemma fold_fail_attempts (w : world) (to_email : string) (todo : list Z)
  (st : attempt_state) :
  attempts (fold_left (fail_update w to_email) todo st)
  = last todo (attempts st).
Proof.
  revert st. induction todo as [|a todo IH]; intros st; [reflexivity|].
  cbn [fold_left]. rewrite IH. cbn [fail_update attempts].
  destruct todo as [|b todo]; [reflexivity|].
  change (last (a :: b :: todo) (attempts st))
    with (last (b :: todo) (attempts st)).
  generalize (attempts st). clear. revert b.
  induction todo as [|c todo IH]; intros b d; [reflexivity|].
  change (last (b :: c :: todo) a) with (last (c :: todo) a).
  change (last (b :: c :: todo) d) with (last (c :: todo) d).
  apply IH.
Qed.

Lemma last_range (stop d : Z) :
  last (range 1 (stop + 1)) d = if 1 <=? stop then stop else d.
Proof.
  destruct (1 <=? stop) eqn:E.
  - apply Z.leb_le in E.
    rewrite (range_split 1 stop (stop + 1)) by lia.
    rewrite range_single. apply last_last.
  - apply Z.leb_gt in E. now rewrite range_nil by lia.
Qed.

Lemma filter_none {A : Type} (p : A -> bool) (l : list A) :
  (forall x, In x l -> p x = false) -> filter p l = [].
Proof.
  induction l as [|x l IH]; intros H; [reflexivity|]. cbn [filter].
  rewrite (H x) by now left. apply IH. intros y Hy. apply H. now right.
Qed.

(** The pauses among the failed attempts [1 .. k] when [k] does not
    exceed the retry count: one after each attempt but the last allowed. *)
Lemma sleeps_of_failures (cfg : config) (to_email : string) (k : Z) :
  k <= retry_count cfg ->
  Z.of_nat (retry_sleeps (fail_trace cfg to_email (range 1 (k + 1))))
  = if k <? retry_count cfg then Z.max 0 k else Z.max 0 (k - 1).
Proof.
  intros Hk. rewrite fail_trace_sleeps.
  destruct (k <? retry_count cfg) eqn:E.
  - apply Z.ltb_lt in E. rewrite filter_all.
    + rewrite length_range. lia.
    + intros a Ha. apply range_In in Ha. apply Z.ltb_lt. lia.
  - apply Z.ltb_ge in E. assert (k = retry_count cfg) as -> by lia.
    destruct (Z_lt_le_dec (retry_count cfg) 1) as [Hs|Hs].
    + rewrite range_nil by lia. cbn. lia.
    + rewrite (range_split 1 (retry_count cfg) (retry_count cfg + 1)) by lia.
      rewrite range_single, filter_app, length_app.
      rewrite filter_all.
      * cbn [filter]. rewrite Z.ltb_irrefl. cbn [length].
        rewrite Nat.add_0_r, length_range. lia.
      * intros a Ha. apply range_In in Ha. apply Z.ltb_lt. lia.
Qed.

(** X5.  What the outcome of a recipient's attempt loop says about the
    transport, outside a dry run: the calls made are the attempts
    [1 .. attempts] in order, every attempt before the last one failed,
    [ok] is set only when the last attempt made came back with status 200
    or 201, the message id then being the [id] of its body, and it stays
    unset only when every allowed attempt failed. *)
Theorem attempt_outcome_sound (cfg : config) (w : world) (to_email : string)
  (tr : list event) (st : attempt_state) :
  dry_run cfg = false ->
  attempt_recipient cfg w to_email = (tr, Done st) ->
  transport_calls tr
  = map (fun a => (to_email, a)) (range 1 (attempts st + 1))
  /\ (forall a, 1 <= a < attempts st ->
                failed_attempt (send_message_to_email w to_email a) = true)
  /\ (ok st = true ->
      1 <= attempts st <= retry_count cfg
      /\ Z.of_nat (retry_sleeps tr) = attempts st - 1
      /\ exists resp,
           send_message_to_email w to_email (attempts st) = Returned resp
           /\ is_success (status_code resp) = true
           /\ last_status st = JInt (status_code resp)
           /\ body_id (json_body resp) = Done (message_id st))
  /\ (ok st = false ->
      attempts st = Z.max 0 (retry_count cfg)
      /\ Z.of_nat (retry_sleeps tr) = Z.max 0 (retry_count cfg - 1)
      /\ forall a, 1 <= a <= retry_count cfg ->
                   failed_attempt (send_message_to_email w to_email a) = true).
Proof.
  intros Hdry Hrun. unfold attempt_recipient in Hrun.
  destruct (first_success
              (fun a => failed_attempt (send_message_to_email w to_email a))
              (range 1 (retry_count cfg + 1)))
    as [Hall|(failing & a & rest & Hsplit & Hfail & Ha)].
  - rewrite (attempt_loop_all_fail cfg w to_email _ _ Hdry Hall) in Hrun.
    injection Hrun as <- <-.
    assert (Hatt : attempts (fold_left (fail_update w to_email)
                               (range 1 (retry_count cfg + 1)) initial_state)
                   = Z.max 0 (retry_count cfg)).
    { rewrite fold_fail_attempts, last_range. cbn [initial_state attempts].
      destruct (1 <=? retry_count cfg) eqn:E;
        [apply Z.leb_le in E | apply Z.leb_gt in E]; lia. }
    assert (Hok : ok (fold_left (fail_update w to_email)
                        (range 1 (retry_count cfg + 1)) initial_state) = false)
      by (now rewrite (proj1 (fold_fail_ok w to_email _ initial_state))).
    rewrite Hatt, Hok.
    assert (Hall' : forall a, 1 <= a <= retry_count cfg ->
               failed_attempt (send_message_to_email w to_email a) = true).
    { intros a Hr. apply Hall, range_In. lia. }
    split.
    { rewrite fail_trace_calls.
      destruct (Z_lt_le_dec (retry_count cfg) 0) as [Hneg|Hpos].
      - now rewrite !range_nil by lia.
      - now rewrite Z.max_r by lia. }
    split; [intros a Hr; apply Hall'; lia|].
    split; [discriminate|]. intros _.
    split; [reflexivity|]. split; [|exact Hall'].
    rewrite sleeps_of_failures by lia. now rewrite Z.ltb_irrefl.
  - destruct (range_prefix _ _ _ _ Hsplit) as [Hp Hq].
    assert (Hin : In a (range 1 (retry_count cfg + 1)))
      by (rewrite Hsplit; apply in_or_app; right; now left).
    apply range_In in Hin.
    assert (Hlen : a = 1 + Z.of_nat (length failing)).
    { destruct (Z_lt_le_dec (1 + Z.of_nat (length failing)) (retry_count cfg + 1))
        as [Hlt|Hle].
      - rewrite range_cons in Hq by exact Hlt. now injection Hq.
      - rewrite range_nil in Hq by exact Hle. discriminate Hq. }
    rewrite <- Hlen in Hp.
    rewrite Hsplit in Hrun.
    rewrite (attempt_loop_fail_prefix cfg w to_email failing (a :: rest)
               initial_state Hdry Hfail) in Hrun.
    destruct (send_message_to_email w to_email a) as [resp|msg] eqn:Es;
      [|discriminate Ha].
    cbn [failed_attempt] in Ha. apply negb_false_iff in Ha.
    rewrite (attempt_loop_success cfg w to_email a rest _ resp Hdry Es Ha) in Hrun.
    cbn [fst snd] in Hrun.
    destruct (body_id (json_body resp)) as [id|e] eqn:Eid; [|discriminate Hrun].
    injection Hrun as <- <-. cbn [attempts ok last_status message_id].
    assert (Hbefore : forall x, 1 <= x < a ->
               failed_attempt (send_message_to_email w to_email x) = true).
    { intros x Hx. apply Hfail. rewrite Hp. apply range_In. lia. }
    split.
    { rewrite transport_calls_app, fail_trace_calls.
      rewrite (range_split 1 a (a + 1)) by lia.
      rewrite range_single, map_app, Hp at 1. reflexivity. }
    split; [exact Hbefore|].
    split; [|discriminate]. intros _.
    split; [lia|]. split.
    + rewrite retry_sleeps_app. cbn [retry_sleeps]. rewrite Nat.add_0_r.
      rewrite Hp. replace a with (a - 1 + 1) at 1 by lia.
      rewrite sleeps_of_failures by lia.
      replace (a - 1 <? retry_count cfg) with true
        by (symmetry; apply Z.ltb_lt; lia).
      lia.
    + exists resp. rewrite Es. repeat split; assumption.
Qed.

Lemma attempt_outcome_sound_witness :
  dry_run defaults = false
  /\ transport_calls (fst (attempt_recipient defaults flaky "ann@example.com"))
     = map (fun a => ("ann@example.com", a)) [1; 2; 3]
  /\ Z.of_nat (retry_sleeps
                 (fst (attempt_recipient defaults flaky "ann@example.com"))) = 2.
Proof.
  pose (r := attempt_recipient defaults flaky "ann@example.com").
  assert (E : r = (fst r, Done {| attempts := 3; last_status := JInt 200;
                                  message_id := JStr "Y2lzY29";
                                  error_preview := "Internal error";
                                  ok := true |}))
    by (vm_compute; reflexivity).
  destruct (attempt_outcome_sound defaults flaky "ann@example.com" _ _
              eq_refl E) as (Hcalls & _ & Hok & _).
  split; [reflexivity|]. split; [exact Hcalls|].
  exact (proj1 (proj2 (Hok eq_refl))).
Defined.

(** The trace of an attempt loop outside a dry run: failed attempts, then
    possibly one attempt that came back with a success status, whose body
    decides how the loop ends. *)
Lemma attempt_loop_cases (cfg : config) (w : world) (to_email : string)
  (todo : list Z) (st : attempt_state) :
  dry_run cfg = false ->
  (exists st', attempt_loop cfg w to_email todo st
               = (fail_trace cfg to_email todo, Done st'))
  \/ exists failing a rest resp,
       todo = failing ++ a :: rest
       /\ send_message_to_email w to_email a = Returned resp
       /\ is_success (status_code resp) = true
       /\ fst (attempt_loop cfg w to_email todo st)
          = fail_trace cfg to_email failing ++ [TransportCall to_email a]
       /\ match body_id (json_body resp) with
          | Done _ => exists st', snd (attempt_loop cfg w to_email todo st) = Done st'
          | Raised e => snd (attempt_loop cfg w to_email todo st) = Raised e
          end.
Proof.
  intros Hdry.
  destruct (first_success
              (fun a => failed_attempt (send_message_to_email w to_email a)) todo)
    as [Hall|(failing & a & rest & -> & Hfail & Ha)].
  - left. eexists. now apply attempt_loop_all_fail.
  - right.
    destruct (send_message_to_email w to_email a) as [resp|msg] eqn:Es;
      [|discriminate Ha].
    cbn [failed_attempt] in Ha. apply negb_false_iff in Ha.
    exists failing, a, rest, resp.
    rewrite (attempt_loop_fail_prefix cfg w to_email failing (a :: rest)
               st Hdry Hfail).
    rewrite (attempt_loop_success cfg w to_email a rest _ resp Hdry Es Ha).
    cbn [fst snd]. repeat (split; [reflexivity || assumption|]).
    destruct (body_id (json_body resp)); [eexists|]; reflexivity.
Qed.

Lemma body_id_raised (b : json_result) (e : exn) :
  body_id b = Raised e ->
  e = AttributeError /\ exists v, b = JsonValue v /\ is_dict v = false.
Proof.
  destruct b as [|v]; [discriminate|].
  destruct v; cbn; try discriminate;
    intros H; injection H as <-; (split; [reflexivity|]);
    eexists; (split; reflexivity).
Qed.

(** The only exception that comes out of an attempt loop. *)
Lemma attempt_loop_raised (cfg : config) (w : world) (to_email : string)
  (todo : list Z) (st : attempt_state) (tr : list event) (e : exn) :
  attempt_loop cfg w to_email todo st = (tr, Raised e) ->
  dry_run cfg = false /\ e = AttributeError
  /\ exists a resp v,
       In a todo
       /\ send_message_to_email w to_email a = Returned resp
       /\ is_success (status_code resp) = true
       /\ json_body resp = JsonValue v /\ is_dict v = false.
Proof.
  intros H. destruct (dry_run cfg) eqn:Hdry.
  - destruct (attempt_loop_dry cfg w to_email todo st Hdry) as [_ [st' E]].
    rewrite H in E. discriminate E.
  - split; [reflexivity|].
    destruct (attempt_loop_cases cfg w to_email todo st Hdry)
      as [[st' E]|(failing & a & rest & resp & -> & Es & Hs & _ & Hb)].
    + rewrite H in E. discriminate E.
    + rewrite H in Hb. cbn [snd] in Hb.
      destruct (body_id (json_body resp)) as [id|e'] eqn:Eb.
      * destruct Hb as [st' Hb]. discriminate Hb.
      * injection Hb as ->. apply body_id_raised in Eb as (-> & v & Ev & Hv).
        split; [reflexivity|]. exists a, resp, v.
        split; [apply in_or_app; right; now left|]. auto.
Qed.

(** The transport is only called for the recipient at hand, with an
    attempt number of the loop. *)
Lemma attempt_loop_calls (cfg : config) (w : world) (to_email : string)
  (todo : list Z) (st : attempt_state) (x : string) (k : Z) :
  In (x, k) (transport_calls (fst (attempt_loop cfg w to_email todo st))) ->
  x = to_email /\ In k todo.
Proof.
  destruct (dry_run cfg) eqn:Hdry.
  - rewrite (proj1 (attempt_loop_dry cfg w to_email todo st Hdry)). intros [].
  - assert (Hf : forall l, In (x, k) (transport_calls (fail_trace cfg to_email l))
                           -> x = to_email /\ In k l).
    { intros l. rewrite fail_trace_calls, in_map_iff.
      intros (a & E & Ha). injection E as <- <-. now split. }
    destruct (attempt_loop_cases cfg w to_email todo st Hdry)
      as [[st' E]|(failing & a & rest & resp & -> & _ & _ & E & _)];
      rewrite E; cbn [fst]; [apply Hf|].
    rewrite transport_calls_app, in_app_iff.
    intros [H|[H|[]]].
    + apply Hf in H as [-> H]. split; [reflexivity|].
      apply in_or_app. now left.
    + injection H as <- <-. split; [reflexivity|].
      apply in_or_app. right. now left.
Qed.

Lemma deliver_cases (cfg : config) (w : world) (to_email : string) (t : totals) :
  match attempt_recipient cfg w to_email with
  | (tr, Done st) =>
      deliver cfg w to_email t
      = (tr ++ [LogRow (result_row w to_email st)], Done (count_result st t))
  | (tr, Raised e) => deliver cfg w to_email t = (tr, Raised e)
  end.
Proof.
  unfold deliver. destruct (attempt_recipient cfg w to_email) as [tr [st|e]];
    reflexivity.
Qed.

Lemma deliver_calls (cfg : config) (w : world) (to_email : string) (t : totals) :
  transport_calls (fst (deliver cfg w to_email t))
  = transport_calls (fst (attempt_recipient cfg w to_email)).
Proof.
  pose proof (deliver_cases cfg w to_email t) as H.
  destruct (attempt_recipient cfg w to_email) as [tr [st|e]];
    rewrite H; cbn [fst]; [|reflexivity].
  rewrite transport_calls_app. apply app_nil_r.
Qed.

(** A call names its recipient. *)
Lemma attempt_recipient_calls (cfg : config) (w : world) (to_email x : string)
  (k : Z) :
  In (x, k) (transport_calls (fst (attempt_recipient cfg w to_email))) ->
  x = to_email /\ 1 <= k <= retry_count cfg.
Proof.
  intros H. apply attempt_loop_calls in H as [-> H].
  apply range_In in H. split; [reflexivity | lia].
Qed.

Lemma deliver_batch_calls (cfg : config) (w : world) (batch : list string)
  (t : totals) (x : string) (k : Z) :
  In (x, k) (transport_calls (fst (deliver_batch cfg w batch t))) ->
  In x batch
  /\ In (x, k) (transport_calls (fst (attempt_recipient cfg w x))).
Proof.
  revert t. induction batch as [|to_email rest IH]; intros t;
    cbn [deliver_batch]; [intros []|].
  destruct (bind_eff_trace (deliver cfg w to_email t)
              (fun t0 => deliver_batch cfg w rest t0)) as (t2 & -> & Ht2).
  rewrite transport_calls_app, in_app_iff, deliver_calls. intros [H|H].
  - destruct (attempt_recipient_calls _ _ _ _ _ H) as [-> _].
    split; [now left | exact H].
  - destruct Ht2 as [->|(t' & _ & ->)]; [destruct H|].
    apply IH in H as [H1 H2]. split; [now right | exact H2].
Qed.

(** A batch that is cut short: the recipients before the one whose attempt
    loop raised have their rows, and nobody after it was called. *)
Lemma deliver_batch_raised (cfg : config) (w : world) (batch : list string)
  (t : totals) (tr : list event) (e : exn) :
  deliver_batch cfg w batch t = (tr, Raised e) ->
  exists before to_email after,
    batch = before ++ to_email :: after
    /\ logged_rows tr = map (row_of cfg w) before
    /\ (forall x k, In (x, k) (transport_calls tr) ->
                    In x (before ++ [to_email]))
    /\ snd (attempt_recipient cfg w to_email) = Raised e.
Proof.
  revert t tr. induction batch as [|to_email rest IH]; intros t tr;
    cbn [deliver_batch]; [discriminate|].
  destruct (deliver cfg w to_email t) as [t1 [t'|e1]] eqn:Ed.
  - rewrite bind_eff_done.
    destruct (deliver_batch cfg w rest t') as [t2 r2] eqn:Er. cbn [fst snd].
    intros H. injection H as <- ->.
    destruct (IH _ _ Er) as (before & y & after & -> & Hrows & Hcalls & Hy).
    exists (to_email :: before), y, after.
    split; [reflexivity|].
    destruct (deliver_done _ _ _ _ _ _ Ed) as (st & Hst & Hrow & _).
    split.
    { rewrite logged_rows_app, Hrow, Hrows. cbn [map app]. f_equal.
      symmetry. now apply row_of_done. }
    split; [|exact Hy].
    intros x k. rewrite transport_calls_app, in_app_iff. intros [H|H].
    + left. symmetry.
      apply (attempt_recipient_calls cfg w to_email x k).
      rewrite <- (deliver_calls cfg w to_email t). now rewrite Ed.
    + right. now apply (Hcalls x k).
  - rewrite bind_eff_raised. intros H. injection H as <- <-.
    exists [], to_email, rest. split; [reflexivity|].
    pose proof (deliver_cases cfg w to_email t) as Hd.
    destruct (attempt_recipient cfg w to_email) as [ta [st|ea]] eqn:Ea;
      rewrite Ed in Hd; [discriminate Hd|]. injection Hd as -> ->.
    split.
    { pose proof (attempt_loop_quiet cfg w to_email
                    (range 1 (retry_count cfg + 1)) initial_state) as [Hq _].
      fold (attempt_recipient cfg w to_email) in Hq. now rewrite Ea in Hq. }
    split; [|reflexivity].
    intros x k H. left. symmetry.
    apply (attempt_recipient_calls cfg w to_email x k). now rewrite Ea.
Qed.

Lemma pause_events (cfg : config) (n_emails i : Z) :
  exists tp,
    (if pause_after cfg n_emails i then emit (BatchSleep i) else ret tt)
    = (tp, Done tt)
    /\ logged_rows tp = [] /\ transport_calls tp = [].
Proof.
  destruct (pause_after cfg n_emails i); eexists; repeat split.
Qed.

Lemma batch_loop_raised (cfg : config) (w : world) (n_emails : Z)
  (batches : list (list string)) (batch_index : Z) (t : totals)
  (tr : list event) (e : exn) :
  batch_loop cfg w n_emails batches batch_index t = (tr, Raised e) ->
  exists before to_email after,
    concat batches = before ++ to_email :: after
    /\ logged_rows tr = map (row_of cfg w) before
    /\ (forall x k, In (x, k) (transport_calls tr) ->
                    In x (before ++ [to_email]))
    /\ snd (attempt_recipient cfg w to_email) = Raised e.
Proof.
  revert batch_index t tr. induction batches as [|batch rest IH];
    intros batch_index t tr; cbn [batch_loop]; [discriminate|].
  destruct (deliver_batch cfg w batch t) as [t1 [t'|e1]] eqn:Ed.
  - rewrite bind_eff_done. cbn [fst snd].
    destruct (pause_events cfg n_emails (batch_index + 1))
      as (tp & -> & Hp1 & Hp2).
    rewrite bind_eff_done.
    destruct (batch_loop cfg w n_emails rest (batch_index + 1) t')
      as [t2 r2] eqn:Er. cbn [fst snd].
    intros H. injection H as <- ->.
    destruct (IH _ _ _ Er) as (before & y & after & Hc & Hrows & Hcalls & Hy).
    exists (batch ++ before), y, after. cbn [concat].
    split; [now rewrite Hc, app_assoc|].
    destruct (deliver_batch_done _ _ _ _ _ _ Ed) as (Hrow & _).
    split.
    { now rewrite !logged_rows_app, Hrow, Hp1, Hrows, map_app. }
    split; [|exact Hy].
    intros x k. rewrite !transport_calls_app, Hp2, !in_app_iff.
    intros [H|[[]|H]].
    + left. left. apply (deliver_batch_calls cfg w batch t x k).
      now rewrite Ed.
    + apply Hcalls in H. apply in_app_iff in H. tauto.
  - rewrite bind_eff_raised. intros H. injection H as <- <-.
    destruct (deliver_batch_raised _ _ _ _ _ _ Ed)
      as (before & y & after & -> & Hrows & Hcalls & Hy).
    exists before, y, (after ++ concat rest). cbn [concat].
    split; [now rewrite <- app_assoc|]. auto.
Qed.

Lemma chunked_cases {A : Type} (items : list A) (size : Z) :
  (size = 0 /\ chunked items size = Raised ValueError)
  \/ (size < 0 /\ chunked items size = Done [])
  \/ (0 < size /\ exists batches,
         chunked items size = Done batches /\ concat batches = items).
Proof.
  destruct (Z.lt_trichotomy size 0) as [Hneg|[->|Hpos]].
  - right. left. split; [exact Hneg|].
    unfold chunked, range_step.
    replace (size =? 0) with false by (symmetry; apply Z.eqb_neq; lia).
    replace (0 <? size) with false by (symmetry; apply Z.ltb_ge; lia).
    cbn [bind].
    replace (Z.to_nat ((0 - Z.of_nat (length items) - size - 1) / - size))
      with 0%nat; [reflexivity|].
    assert ((0 - Z.of_nat (length items) - size - 1) / - size < 1)
      by (apply Z.div_lt_upper_bound; lia).
    lia.
  - left. split; reflexivity.
  - right. right. split; [exact Hpos|].
    eexists. split; [apply chunked_chunks; exact Hpos|].
    apply chunks_cover. exact Hpos.
Qed.

Lemma batch_loop_calls (cfg : config) (w : world) (n_emails : Z)
  (batches : list (list string)) (batch_index : Z) (t : totals)
  (x : string) (k : Z) :
  In (x, k) (transport_calls
               (fst (batch_loop cfg w n_emails batches batch_index t))) ->
  In x (concat batches)
  /\ In (x, k) (transport_calls (fst (attempt_recipient cfg w x))).
Proof.
  revert batch_index t. induction batches as [|batch rest IH];
    intros batch_index t; cbn [batch_loop]; [intros []|].
  destruct (deliver_batch cfg w batch t) as [t1 [t'|e1]] eqn:Ed.
  - rewrite bind_eff_done. cbn [fst snd].
    destruct (pause_events cfg n_emails (batch_index + 1))
      as (tp & -> & _ & Hp2).
    rewrite bind_eff_done. cbn [fst snd concat].
    rewrite !transport_calls_app, Hp2, !in_app_iff.
    intros [H|[[]|H]].
    + destruct (deliver_batch_calls cfg w batch t x k) as [H1 H2];
        [now rewrite Ed|]. auto.
    + apply IH in H as [H1 H2]. auto.
  - rewrite bind_eff_raised. cbn [fst concat]. intros H.
    destruct (deliver_batch_calls cfg w batch t x k) as [H1 H2];
      [now rewrite Ed|].
    split; [apply in_or_app; now left | exact H2].
Qed.

Lemma main_loop_cases (cfg : config) (w : world) (emails : list string) :
  (batch_size cfg = 0 /\ main_loop cfg w emails = ([], Raised ValueError))
  \/ (batch_size cfg < 0
      /\ main_loop cfg w emails
         = ([], Done {| total_sent := 0; total_failed := 0 |}))
  \/ (0 < batch_size cfg
      /\ exists batches,
           concat batches = emails
           /\ main_loop cfg w emails
              = batch_loop cfg w (Z.of_nat (length emails)) batches 0
                  {| total_sent := 0; total_failed := 0 |}).
Proof.
  unfold main_loop.
  destruct (chunked_cases emails (batch_size cfg))
    as [[H ->]|[[H ->]|[H (batches & -> & Hc)]]].
  - left. now split.
  - right. left. now split.
  - right. right. split; [exact H|]. exists batches. split; [exact Hc|].
    unfold lift. rewrite bind_eff_done. cbn [app].
    now destruct (batch_loop cfg w (Z.of_nat (length emails)) batches 0 _).
Qed.

Lemma main_loop_calls (cfg : config) (w : world) (emails : list string)
  (x : string) (k : Z) :
  In (x, k) (transport_calls (fst (main_loop cfg w emails))) ->
  In x emails
  /\ In (x, k) (transport_calls (fst (attempt_recipient cfg w x))).
Proof.
  destruct (main_loop_cases cfg w emails)
    as [[_ E]|[[_ E]|[_ (batches & Hc & E)]]]; rewrite E;
    [intros []|intros []|].
  intros H. apply batch_loop_calls in H as [H1 H2].
  rewrite Hc in H1. now split.
Qed.

(** The exceptions of the loop, and the recipient an exception of an
    attempt comes from. *)
Lemma main_loop_raised (cfg : config) (w : world) (emails : list string)
  (tr : list event) (e : exn) :
  main_loop cfg w emails = (tr, Raised e) ->
  (batch_size cfg = 0 /\ e = ValueError /\ tr = [])
  \/ (0 < batch_size cfg
      /\ exists before to_email after,
           emails = before ++ to_email :: after
           /\ logged_rows tr = map (row_of cfg w) before
           /\ (forall x k, In (x, k) (transport_calls tr) ->
                           In x (before ++ [to_email]))
           /\ snd (attempt_recipient cfg w to_email) = Raised e).
Proof.
  intros H.
  destruct (main_loop_cases cfg w emails)
    as [[Hz E]|[[Hn E]|[Hp (batches & Hc & E)]]]; rewrite E in H.
  - left. injection H as <- <-. auto.
  - discriminate H.
  - right. split; [exact Hp|].
    destruct (batch_loop_raised _ _ _ _ _ _ _ _ H)
      as (before & y & after & Hsplit & Hrest).
    exists before, y, after. now rewrite <- Hc, Hsplit.
Qed.

Lemma attempt_recipient_raised (cfg : config) (w : world) (to_email : string)
  (e : exn) :
  snd (attempt_recipient cfg w to_email) = Raised e ->
  dry_run cfg = false /\ e = AttributeError
  /\ exists a resp v,
       1 <= a <= retry_count cfg
       /\ send_message_to_email w to_email a = Returned resp
       /\ is_success (status_code resp) = true
       /\ json_body resp = JsonValue v /\ is_dict v = false.
Proof.
  unfold attempt_recipient.
  destruct (attempt_loop cfg w to_email (range 1 (retry_count cfg + 1))
              initial_state) as [ty ry] eqn:Ey.
  cbn [snd]. intros ->.
  destruct (attempt_loop_raised _ _ _ _ _ _ _ Ey)
    as (Hdry & -> & a & resp & v & Ha & Hrest).
  apply range_In in Ha.
  split; [exact Hdry|]. split; [reflexivity|].
  exists a, resp, v. split; [lia | exact Hrest].
Qed.

End AttemptMore.


(* ===================================================================== *)
(** * Further properties of a run *)
(* ===================================================================== *)

Module RunMore.
Import PyStr PyVal Logger Orchestrator OrchestratorSpec RunSpec MoreSpec.
Import AttemptFacts RunFacts BatchFacts LogFacts AttemptMore.
Local Open Scope Z_scope.



(** X7.  With a batch size of zero or less nobody is addressed and no row
    is written, whoever is on the list: zero ends the loop with
    [ValueError], a negative size ends it normally with both counters at
    zero.  The log file is left as [ensure_log_writer] made it. *)
Theorem degenerate_batch_size (cfg : config) (w : world) (fs : file_system)
  (log_file : string) (emails : list string) :
  batch_size cfg <= 0 ->
  main_loop cfg w emails
  = ([], if batch_size cfg =? 0 then Raised ValueError
         else Done {| total_sent := 0; total_failed := 0 |})
  /\ fst (run cfg w fs log_file emails) = ensure_log_writer fs log_file.
Proof.
  intros Hb.
  assert (E : main_loop cfg w emails
              = ([], if batch_size cfg =? 0 then Raised ValueError
                     else Done {| total_sent := 0; total_failed := 0 |})).
  { destruct (main_loop_cases cfg w emails)
      as [[Hz E]|[[Hn E]|[Hp _]]]; [| |lia]; rewrite E.
    - now rewrite Hz.
    - now replace (batch_size cfg =? 0) with false
        by (symmetry; apply Z.eqb_neq; lia). }
  split; [exact E|]. unfold run. now rewrite E.
Qed.

Lemma degenerate_batch_size_witness :
  main_loop {| batch_size := 0; retry_count := 3; dry_run := false |}
    flaky trio = ([], Raised ValueError)
  /\ fst (run {| batch_size := 0; retry_count := 3; dry_run := false |}
            flaky no_files "send_log.csv" trio) "send_log.csv"
     = Some [header].
Proof.
  assert (Hb : batch_size {| batch_size := 0; retry_count := 3;
                             dry_run := false |} <= 0) by (cbn; lia).
  destruct (degenerate_batch_size _ flaky no_files "send_log.csv" trio Hb)
    as [H1 H2].
  split; [exact H1|]. now rewrite H2.
Defined.

(** X8.  Every call of the transport made by a run is for a recipient of
    the list, with an attempt number between 1 and the retry count. *)
Theorem calls_stay_in_bounds (cfg : config) (w : world) (emails : list string)
  (x : string) (k : Z) :
  In (x, k) (transport_calls (fst (main_loop cfg w emails))) ->
  In x emails /\ 1 <= k <= retry_count cfg.
Proof.
  intros H. apply main_loop_calls in H as [H1 H2].
  split; [exact H1|]. now apply attempt_recipient_calls in H2.
Qed.

Lemma calls_stay_in_bounds_witness :
  In ("bob@example.com", 3) (transport_calls (fst (main_loop pairs mixed trio)))
  /\ In "bob@example.com" trio /\ 1 <= 3 <= retry_count pairs.
Proof.
  assert (H : In ("bob@example.com", 3)
                (transport_calls (fst (main_loop pairs mixed trio))))
    by (vm_compute; tauto).
  split; [exact H|].
  exact (calls_stay_in_bounds pairs mixed trio _ _ H).
Defined.

Lemma no_calls (cfg : config) (w : world) (emails : list string) :
  (forall x, transport_calls (fst (attempt_recipient cfg w x)) = []) ->
  transport_calls (fst (main_loop cfg w emails)) = [].
Proof.
  intros H.
  destruct (transport_calls (fst (main_loop cfg w emails)))
    as [|[x k] l] eqn:E; [reflexivity|].
  destruct (main_loop_calls cfg w emails x k) as [_ Hx];
    [rewrite E; now left|].
  rewrite H in Hx. destruct Hx.
Qed.

Lemma count_rows_const (p : log_row -> bool) (b : bool) (rows : list log_row) :
  (forall row, In row rows -> p row = b) ->
  count_rows p rows = if b then Z.of_nat (length rows) else 0.
Proof.
  intros H. unfold count_rows. destruct b.
  - now rewrite filter_all.
  - now rewrite filter_none.
Qed.

(** X9.  With a retry count of zero or less no attempt is made, in a dry
    run as well: the transport is never called and every recipient is
    logged as failed with 0 attempts, no status and no error text. *)
Theorem no_attempt_allowed (cfg : config) (w : world) (emails : list string) :
  retry_count cfg <= 0 ->
  0 < batch_size cfg ->
  exists tr,
    main_loop cfg w emails
    = (tr, Done {| total_sent := 0;
                   total_failed := Z.of_nat (length emails) |})
    /\ transport_calls tr = []
    /\ logged_rows tr = map (untried_row w) emails.
Proof.
  intros Hr Hb.
  assert (Hatt : forall x, attempt_recipient cfg w x = ([], Done initial_state)).
  { intros x. unfold attempt_recipient. now rewrite range_nil by lia. }
  assert (Hrow : forall x, row_of cfg w x = untried_row w x).
  { intros x. unfold row_of. now rewrite Hatt. }
  destruct (main_loop cfg w emails) as [tr [t|e]] eqn:E.
  - exists tr.
    destruct (main_loop_done cfg w emails t tr Hb E)
      as (_ & Hrows & Hsent & Hfailed & _).
    rewrite (map_ext _ _ Hrow) in Hrows, Hsent, Hfailed.
    rewrite (count_rows_const is_sent false) in Hsent
      by (intros row Hin; apply in_map_iff in Hin as (x & <- & _); reflexivity).
    rewrite (count_rows_const is_failed true) in Hfailed
      by (intros row Hin; apply in_map_iff in Hin as (x & <- & _); reflexivity).
    rewrite length_map in Hfailed.
    split; [destruct t; cbn in *; now subst|].
    split; [|exact Hrows].
    pose proof (no_calls cfg w emails) as Hc. rewrite E in Hc. apply Hc.
    intros x. now rewrite Hatt.
  - exfalso.
    destruct (main_loop_raised _ _ _ _ _ E)
      as [(Hz & _)|(_ & before & y & after & _ & _ & _ & Hy)]; [lia|].
    rewrite Hatt in Hy. discriminate Hy.
Qed.

Lemma no_attempt_allowed_witness :
  exists tr,
    main_loop {| batch_size := 2; retry_count := 0; dry_run := true |}
      flaky trio
    = (tr, Done {| total_sent := 0; total_failed := 3 |})
    /\ transport_calls tr = []
    /\ logged_rows tr = map (untried_row flaky) trio.
Proof.
  apply (no_attempt_allowed
           {| batch_size := 2; retry_count := 0; dry_run := true |}
           flaky trio); cbn; lia.
Defined.

End RunMore.

(* ===================================================================== *)
(** * The program as a whole and the files *)
(* ===================================================================== *)

Module MainMore.
Import PyStr PyVal Loader LoaderSpec Renderer RendererSpec Logger Orchestrator.
Import OrchestratorSpec RunSpec MoreSpec Main MainSpec.
Import AttemptFacts RunFacts BatchFacts LogFacts AttemptMore.
Import PruneShape.
Local Open Scope Z_scope.

Lemma writerow_other (fs : file_system) (path other : string) (row : log_row) :
  other <> path -> writerow fs path row other = fs other.
Proof.
  intros H. unfold writerow. destruct (fs path); [|reflexivity].
  now apply write_file_other.
Qed.

Lemma writerows_other (fs : file_system) (path other : string)
  (rows : list log_row) :
  other <> path -> writerows fs path rows other = fs other.
Proof.
  intros H. unfold writerows. revert fs.
  induction rows as [|row rows IH]; intros fs; [reflexivity|].
  cbn [fold_left]. rewrite IH. now apply writerow_other.
Qed.

Lemma ensure_log_writer_other (fs : file_system) (path other : string) :
  other <> path -> ensure_log_writer fs path other = fs other.
Proof.
  intros H. unfold ensure_log_writer, open_append, exists_path.
  destruct (fs path) eqn:E; cbn [negb]; [reflexivity|].
  rewrite writerow_other by exact H. now apply write_file_other.
Qed.

Lemma run_other (cfg : config) (w : world) (fs : file_system)
  (log_file other : string) (emails : list string) :
  other <> log_file -> fst (run cfg w fs log_file emails) other = fs other.
Proof.
  intros H. unfold run. cbn [fst].
  rewrite writerows_other by exact H. now apply ensure_log_writer_other.
Qed.

Lemma main_from_csv_cases (csv_reader : string -> list csv_row) (j : job)
  (w : world) (fs : file_system) :
  (exists e, main_from_csv csv_reader j w fs = (fs, ([], Raised e))
             /\ (e = Settings.exit_failure
                 \/ load_card_json (job_template j) (make_variables j) = Raised e))
  \/ exists content emails card,
       job_csv j = Some content
       /\ load_emails csv_reader content = emails /\ emails <> []
       /\ load_card_json (job_template j) (make_variables j) = Done card
       /\ main_from_csv csv_reader j w fs
          = run (job_config j) w fs (job_log_file j) emails.
Proof.
  unfold main_from_csv.
  destruct (job_csv j) as [content|]; [|left; eexists; split; eauto].
  destruct (load_emails csv_reader content) as [|x emails] eqn:El;
    [left; eexists; split; eauto|].
  destruct (load_card_json (job_template j) (make_variables j)) as [card|e]
    eqn:Ec; [|left; eexists; split; eauto].
  right. exists content, (x :: emails), card.
  repeat (split; [reflexivity || assumption || discriminate|]). reflexivity.
Qed.

(** X10.  The program writes to one file only, the log, and only by
    appending: every other path is after the run as it was before, and
    the rows that the log held come first in it afterwards, whether the
    run completes, is aborted or never starts. *)
Theorem only_the_log_is_written (csv_reader : string -> list csv_row) (j : job)
  (w : world) (fs : file_system) :
  (forall path, path <> job_log_file j ->
                fst (main_from_csv csv_reader j w fs) path = fs path)
  /\ (forall rows, fs (job_log_file j) = Some rows ->
        exists more,
          fst (main_from_csv csv_reader j w fs) (job_log_file j)
          = Some (rows ++ more)).
Proof.
  destruct (main_from_csv_cases csv_reader j w fs)
    as [(e & -> & _)|(content & emails & card & _ & _ & _ & _ & ->)].
  - split; [reflexivity|]. intros rows H. exists []. cbn [fst].
    now rewrite app_nil_r.
  - split; [intros path H; now apply run_other|].
    intros rows H. rewrite run_log, H. eexists. reflexivity.
Qed.

(** X11.  When the program ends with [SystemExit], nothing was done: no
    recipient was called and no file was created or changed, the log
    included.  The exit comes from the set-up, never from the loop. *)
Theorem exit_means_nothing_done (csv_reader : string -> list csv_row) (j : job)
  (w : world) (fs fs' : file_system) (tr : list event) (msg : string) :
  main_from_csv csv_reader j w fs = (fs', (tr, Raised (SystemExit msg))) ->
  fs' = fs /\ tr = []
  /\ (job_csv j = None
      \/ (exists content, job_csv j = Some content
                          /\ load_emails csv_reader content = [])
      \/ load_card_json (job_template j) (make_variables j)
         = Raised (SystemExit msg)).
Proof.
  intros H. unfold main_from_csv in H.
  destruct (job_csv j) as [content|];
    [|injection H as <- <- _; auto].
  destruct (load_emails csv_reader content) as [|x emails] eqn:El;
    [injection H as <- <- _; split; [reflexivity|]; split; [reflexivity|];
     right; left; now exists content|].
  destruct (load_card_json (job_template j) (make_variables j)) as [card|e]
    eqn:Ec.
  - exfalso. unfold run in H. injection H as _ H.
    destruct (main_loop_raised _ _ _ _ _ H)
      as [(_ & E & _)|(_ & before & y & after & _ & _ & _ & Hy)];
      [discriminate E|].
    apply attempt_recipient_raised in Hy as (_ & E & _). discriminate E.
  - injection H as <- <- ->. auto.
Qed.

Lemma exit_means_nothing_done_witness :
  main_from_csv simple_reader job_without_csv flaky no_files
  = (no_files, ([], Raised (SystemExit "1")))
  /\ (job_csv job_without_csv = None
      \/ (exists content, job_csv job_without_csv = Some content
                          /\ load_emails simple_reader content = [])
      \/ load_card_json (job_template job_without_csv)
           (make_variables job_without_csv)
         = Raised (SystemExit "1")).
Proof.
  assert (H : main_from_csv simple_reader job_without_csv flaky no_files
              = (no_files, ([], Raised (SystemExit "1")))) by reflexivity.
  split; [exact H|].
  destruct (exit_means_nothing_done simple_reader job_without_csv flaky
              no_files no_files [] "1" H) as (_ & _ & Hc).
  exact Hc.
Defined.

End MainMore.

(* ===================================================================== *)
(** * Further properties of the substitution *)
(* ===================================================================== *)

Module SubstituteMore.
Import PyStr PyStrFacts PyVal PyValFacts Renderer RendererSpec CardSpec MoreSpec.
Import PruneFacts RootFacts.

Lemma map_fixed {A : Type} (f : A -> A) (l : list A) :
  (forall x, In x l -> f x = x) -> map f l = l.
Proof.
  induction l as [|x l IH]; intros H; [reflexivity|]. cbn [map].
  rewrite (H x) by now left. f_equal. apply IH. intros y Hy. apply H. now right.
Qed.

Lemma brace_free_item (l : list json) (x : json) :
  brace_free (JArr l) -> In x l -> brace_free x.
Proof.
  cbn [brace_free]. induction l as [|y l IH]; cbn [fold_right In]; [tauto|].
  intros [Hy Hl] [<-|Hx]; auto.
Qed.

Lemma brace_free_value (d : list (string * json)) (k : string) (x : json) :
  brace_free (JObj d) -> In (k, x) d -> brace_free x.
Proof.
  cbn [brace_free]. induction d as [|[k' y] d IH]; cbn [fold_right In]; [tauto|].
  intros [Hy Hd] [E|Hx]; [injection E as <- <-; exact Hy | auto].
Qed.

(** X12.  The substitution only rewrites the text of strings: the nesting,
    the keys and their order, and every number, boolean and null of the
    template stay as they are; a template without an opening brace is
    left unchanged altogether. *)
Theorem substitution_keeps_structure (value : json)
  (variables : list (string * option string)) :
  skeleton (_deep_replace_placeholders value variables) = skeleton value
  /\ (brace_free value -> _deep_replace_placeholders value variables = value).
Proof.
  remember (S (depth value)) as n eqn:Hn.
  assert (Hlt : depth value < n) by lia. clear Hn. revert value Hlt.
  induction n as [|n IH]; intros v Hlt; [lia|].
  destruct v as [| | | |s|l|d]; try (split; reflexivity);
    cbn [_deep_replace_placeholders skeleton].
  - split; [reflexivity|]. cbn [brace_free]. intros H.
    now rewrite substitute_free.
  - split.
    + f_equal. rewrite map_map. apply map_ext_in. intros x Hx.
      apply IH. apply depth_item in Hx. lia.
    + intros H. f_equal. apply map_fixed. intros x Hx.
      apply IH; [apply depth_item in Hx; lia|].
      now apply (brace_free_item l).
  - split.
    + f_equal. rewrite map_map. apply map_ext_in. intros [k x] Hx.
      f_equal. apply IH. apply depth_value in Hx. lia.
    + intros H. f_equal. apply map_fixed. intros [k x] Hx.
      f_equal. apply IH; [apply depth_value in Hx; lia|].
      now apply (brace_free_value d k).
Qed.

Lemma prefix_refl (s : string) : String.prefix s s = true.
Proof.
  induction s as [|c s IH]; [reflexivity|]. cbn [String.prefix].
  destruct (ascii_dec c c) as [_|H]; [exact IH | contradiction].
Qed.

Lemma replace_from_skip (old new : string) (skip : nat) (s : string) :
  String.length s <= skip -> replace_from old new skip s = EmptyString.
Proof.
  revert skip. induction s as [|c s IH]; intros skip H; [reflexivity|].
  cbn [String.length] in H. destruct skip as [|k]; [lia|].
  cbn [replace_from]. apply IH. lia.
Qed.

Lemma append_empty (s : string) : (s ++ "")%string = s.
Proof. induction s as [|c s IH]; cbn; [reflexivity | now rewrite IH]. Qed.

(** A string that is exactly the pattern becomes the replacement. *)
Lemma replace_exact (old new : string) :
  old <> EmptyString -> replace old old new = new.
Proof.
  destruct old as [|c s]; [contradiction|]. intros _.
  unfold replace. cbn [replace_from]. rewrite prefix_refl.
  rewrite replace_from_skip by (cbn [String.length]; lia).
  apply append_empty.
Qed.

Lemma free_of_app (c : ascii) (a b : string) :
  free_of c a -> free_of c b -> free_of c (a ++ b).
Proof.
  induction a as [|d a IH]; cbn [free_of String.append]; [tauto|].
  intros [Hd Ha] Hb. split; [exact Hd | now apply IH].
Qed.

(** Two placeholders with different plain names do not start alike. *)
Lemma tail_mismatch (k k' : string) :
  free_of closing_brace k -> free_of closing_brace k' -> k <> k' ->
  String.prefix (k' ++ "}}") (k ++ "}}") = false.
Proof.
  revert k. induction k' as [|c' k' IH]; intros [|c k] Hk Hk' Hne.
  - contradiction.
  - cbn [free_of] in Hk. destruct Hk as [Hc _].
    exact (prefix_head_mismatch closing_brace c "}" (k ++ "}}") Hc).
  - cbn [free_of] in Hk'. destruct Hk' as [Hc _].
    apply (prefix_head_mismatch c' closing_brace (k' ++ "}}") "}").
    intros E. now apply Hc.
  - cbn [free_of] in Hk, Hk'. destruct Hk as [_ Hk]. destruct Hk' as [_ Hk'].
    cbn [String.append String.prefix].
    destruct (ascii_dec c' c) as [->|_]; [|reflexivity].
    apply IH; try assumption. intros ->. now apply Hne.
Qed.

Lemma prefix_same_head (c : ascii) (a b : string) :
  String.prefix (String c a) (String c b) = String.prefix a b.
Proof.
  cbn [String.prefix]. destruct (ascii_dec c c) as [_|H];
    [reflexivity | contradiction].
Qed.

(** The placeholder of one plain name is left alone by the replacement
    of the placeholder of another. *)
Lemma replace_other_token (k k' new : string) :
  plain_name k -> plain_name k' -> k <> k' ->
  replace (token k) (token k') new = token k.
Proof.
  intros [Hb Hc] [Hb' Hc'] Hne.
  rewrite (token_head k'). unfold replace. rewrite (token_head k).
  cbn [replace_from].
  rewrite !prefix_same_head, (tail_mismatch k k' Hc Hc' Hne).
  assert (H1 : String.prefix (String brace (k' ++ "}}")) (k ++ "}}") = false).
  { destruct k as [|c k].
    - apply (prefix_head_mismatch brace closing_brace (k' ++ "}}") "}").
      discriminate.
    - cbn [free_of] in Hb. destruct Hb as [Hcb _].
      exact (prefix_head_mismatch brace c (k' ++ "}}") (k ++ "}}") Hcb). }
  rewrite H1. do 2 f_equal.
  apply (replace_absent brace (String brace (k' ++ "}}")) new (k ++ "}}")).
  apply free_of_app; [exact Hb|]. cbn. repeat split; discriminate.
Qed.

(** The substitution on a string that is exactly a placeholder. *)
Lemma placeholder_value
  (before after : list (string * option string)) (k : string)
  (v : option string) :
  plain_name k ->
  (forall k', In k' (map fst before) -> plain_name k' /\ k' <> k) ->
  free_of brace (match v with Some s => s | None => EmptyString end) ->
  substitute (before ++ (k, v) :: after) (token k)
  = match v with Some s => s | None => EmptyString end.
Proof.
  intros Hk Hbefore Hv.
  unfold substitute. rewrite fold_left_app. cbn [fold_left fst snd].
  assert (Hpre : fold_left
                   (fun out kv =>
                      replace out (token (fst kv))
                        (match snd kv with Some v0 => v0 | None => EmptyString end))
                   before (token k) = token k).
  { induction before as [|[k' v'] before IH]; [reflexivity|].
    cbn [fold_left fst snd].
    destruct (Hbefore k') as [Hp Hne]; [now left|].
    rewrite replace_other_token by auto.
    apply IH. intros x Hx. apply Hbefore. now right. }
  rewrite Hpre, replace_exact by discriminate.
  now apply (substitute_free after).
Qed.

(** X13.  A string that is exactly the placeholder of a variable becomes
    the value of that variable ([None] gives the empty string), when the
    names of the variables before it are other plain names and the value
    holds no opening brace. *)
Theorem placeholder_gets_value
  (before after : list (string * option string)) (k : string)
  (v : option string) :
  plain_name k ->
  (forall k', In k' (map fst before) -> plain_name k' /\ k' <> k) ->
  free_of brace (match v with Some s => s | None => EmptyString end) ->
  _deep_replace_placeholders (JStr (token k)) (before ++ (k, v) :: after)
  = JStr (match v with Some s => s | None => EmptyString end).
Proof.
  intros Hk Hbefore Hv. cbn [_deep_replace_placeholders]. f_equal.
  now apply placeholder_value.
Qed.
Lemma placeholder_gets_value_witness :
  plain_name "amount"
  /\ _deep_replace_placeholders (JStr "{{amount}}") sample_variables
     = JStr "$50,000".
Proof.
  assert (Hk : plain_name "amount") by (cbn; repeat split; discriminate).
  split; [exact Hk|].
  apply (placeholder_gets_value
           [("account", Some "ACME Corp"); ("opportunity", Some "Q4 Expansion")]
           [("due", Some "");
            ("cta_url", Some "https://example.crm.com/opportunities/ABC123")]
           "amount" (Some "$50,000") Hk).
  - intros k' [<-|[<-|[]]]; (split; [cbn; repeat split; discriminate
                                   | discriminate]).
  - cbn. repeat split; discriminate.
Defined.

(** X14.  Rendering drops a text block whose text is just the placeholder
    of a variable with a blank value, and an [Action.OpenUrl] whose url is
    such a placeholder: substitution and pruning together turn the
    element into nothing. *)
Theorem blank_placeholder_drops_element
  (before after : list (string * option string)) (k title : string)
  (v : option string) (parent_type : json) :
  plain_name k ->
  (forall k', In k' (map fst before) -> plain_name k' /\ k' <> k) ->
  free_of brace (match v with Some s => s | None => EmptyString end) ->
  strip (match v with Some s => s | None => EmptyString end) = EmptyString ->
  _prune (_deep_replace_placeholders (text_block (token k))
            (before ++ (k, v) :: after)) parent_type
  = Done JNull
  /\ _prune (_deep_replace_placeholders
               (JObj [("type", JStr "Action.OpenUrl"); ("title", JStr title);
                      ("url", JStr (token k))])
               (before ++ (k, v) :: after)) parent_type
     = Done JNull.
Proof.
  intros Hk Hbefore Hv Hblank.
  pose proof (placeholder_value before after k v Hk Hbefore Hv) as Hs.
  unfold text_block.
  cbn [_deep_replace_placeholders map].
  rewrite Hs.
  rewrite !(substitute_free _ "TextBlock"), !(substitute_free _ "Action.OpenUrl")
    by (cbn; repeat split; discriminate).
  rewrite !_prune_dict. unfold prune_dict.
  split;
    repeat (cbn [get get_default lookup String.eqb Ascii.eqb Bool.eqb is_str
                 _is_blank andb bind];
            rewrite ?Hblank);
    reflexivity.
Qed.

Lemma blank_placeholder_drops_element_witness :
  plain_name "due"
  /\ _prune (_deep_replace_placeholders (text_block "{{due}}") sample_variables)
       JNull
     = Done JNull.
Proof.
  assert (Hk : plain_name "due") by (cbn; repeat split; discriminate).
  split; [exact Hk|].
  apply (blank_placeholder_drops_element
           [("account", Some "ACME Corp"); ("opportunity", Some "Q4 Expansion");
            ("amount", Some "$50,000")]
           [("cta_url", Some "https://example.crm.com/opportunities/ABC123")]
           "due" "Open" (Some "") JNull Hk).
  - intros k' [<-|[<-|[<-|[]]]]; (split; [cbn; repeat split; discriminate
                                        | discriminate]).
  - exact I.
  - reflexivity.
Defined.

End SubstituteMore.

(* ===================================================================== *)
(** * Further properties of the pruning *)
(* ===================================================================== *)

Module PruneMore.
Import PyStr PyStrFacts PyVal PyValFacts Renderer RendererSpec CardSpec MoreSpec.
Import ElementSamples.
Import PruneFacts PruneShape PruneTotal RootFacts FactSetFacts.

(** A dict that is kept went through the loop and the three tests on its
    children. *)
Lemma _prune_kept (d out : list (string * json)) (parent_type : json) :
  _prune (JObj d) parent_type = Done (JObj out) ->
  exists node', loop_input d node'
                /\ finish _prune (get "type" d) node' = Done (JObj out).
Proof.
  rewrite _prune_dict. intros H.
  destruct (prune_dict_cases _prune d)
    as [E|[[_ (e' & _ & E)]|[[_ (facts & e' & _ & _ & E)]|(node' & Hin & E)]]];
    rewrite E in H; try discriminate H.
  now exists node'.
Qed.

Lemma finish_kept (rec : json -> json -> outcome json) (node_type : json)
  (node' out : list (string * json)) :
  finish rec node_type node' = Done (JObj out) ->
  prune_fields rec node_type node' [] = Done out
  /\ (if is_str node_type "Container" || is_str node_type "Column"
      then no_children out "items" else Done false) = Done false
  /\ (if is_str node_type "ColumnSet"
      then no_children out "columns" else Done false) = Done false
  /\ (if is_str node_type "ActionSet"
      then no_children out "actions" else Done false) = Done false.
Proof.
  unfold finish.
  destruct (prune_fields rec node_type node' []) as [o|e'] eqn:E; cbn [bind];
    [|discriminate].
  intros H.
  destruct (if is_str node_type "Container" || is_str node_type "Column"
            then no_children o "items" else Done false) as [[]|] eqn:E1;
    cbn [bind] in H; try discriminate H.
  destruct (if is_str node_type "ColumnSet"
            then no_children o "columns" else Done false) as [[]|] eqn:E2;
    cbn [bind] in H; try discriminate H.
  destruct (if is_str node_type "ActionSet"
            then no_children o "actions" else Done false) as [[]|] eqn:E3;
    cbn [bind] in H; try discriminate H.
  injection H as <-. auto.
Qed.

(** X15.  A grouping element that pruning keeps is never empty: a kept
    [Container] or [Column] has at least one item, a kept [ColumnSet] at
    least one column, a kept [ActionSet] at least one action. *)
Theorem kept_grouping_has_children (d out : list (string * json))
  (parent_type : json) :
  _prune (JObj d) parent_type = Done (JObj out) ->
  (is_str (get "type" d) "Container" || is_str (get "type" d) "Column" = true ->
   len_is_zero (get_default "items" (JArr []) out) = Done false)
  /\ (is_str (get "type" d) "ColumnSet" = true ->
      len_is_zero (get_default "columns" (JArr []) out) = Done false)
  /\ (is_str (get "type" d) "ActionSet" = true ->
      len_is_zero (get_default "actions" (JArr []) out) = Done false).
Proof.
  intros H. apply _prune_kept in H as (node' & _ & H).
  apply finish_kept in H as (_ & H1 & H2 & H3).
  unfold no_children in *.
  split; [intros E; now rewrite E in H1|].
  split; intros E; [now rewrite E in H2 | now rewrite E in H3].
Qed.

Lemma kept_grouping_has_children_witness :
  _prune (container [text_block "Hello"; text_block ""]) JNull
  = Done (container [text_block "Hello"])
  /\ len_is_zero (JArr [text_block "Hello"]) = Done false.
Proof.
  assert (E : _prune (container [text_block "Hello"; text_block ""]) JNull
              = Done (container [text_block "Hello"]))
    by (vm_compute; reflexivity).
  split; [exact E|].
  exact (proj1 (kept_grouping_has_children _ _ _ E) eq_refl).
Defined.

Lemma prune_items_results (rec : json -> json -> outcome json)
  (parent_type : json) (node children out : list json) :
  prune_items rec parent_type node children = Done out ->
  exists results,
    Forall2 (fun item r => rec item parent_type = Done r) node results
    /\ out = children ++ filter (fun r => negb (is_none r)) results.
Proof.
  revert children. induction node as [|item node IH]; intros children;
    cbn [prune_items].
  - intros H. injection H as <-. exists []. split; [constructor|].
    now rewrite app_nil_r.
  - destruct (rec item parent_type) as [p|e] eqn:E; cbn [bind]; [|discriminate].
    destruct (is_none p) eqn:En; intros H; apply IH in H as (results & Hr & ->);
      exists (p :: results); (split; [now constructor|]);
      cbn [filter]; rewrite En; cbn [negb]; [reflexivity|].
    now rewrite <- app_assoc.
Qed.

(** X16.  A list is pruned item by item: the result holds, in the order
    of the list, what pruning gives for each item, without the items that
    were dropped.  It has no null entry and is no longer than the list. *)
Theorem pruned_list_is_pruned_items (l : list json) (parent_type r : json) :
  _prune (JArr l) parent_type = Done r ->
  exists results,
    Forall2 (fun item x => _prune item parent_type = Done x) l results
    /\ r = JArr (filter (fun x => negb (is_none x)) results)
    /\ length (filter (fun x => negb (is_none x)) results) <= length l
    /\ ~ In JNull (filter (fun x => negb (is_none x)) results).
Proof.
  rewrite _prune_list.
  destruct (prune_items _prune parent_type l []) as [c|e] eqn:E; cbn [bind];
    [|discriminate].
  intros H. injection H as <-.
  apply prune_items_results in E as (results & Hr & ->).
  exists results. split; [exact Hr|]. split; [reflexivity|]. split.
  - rewrite (Forall2_length Hr). apply filter_length_le.
  - intros Hin. apply filter_In in Hin as [_ Hn]. discriminate Hn.
Qed.

Lemma pruned_list_is_pruned_items_witness :
  exists results,
    Forall2 (fun item x => _prune item JNull = Done x) sample_body results
    /\ JArr [text_block "Hello"; image]
       = JArr (filter (fun x => negb (is_none x)) results)
    /\ length (filter (fun x => negb (is_none x)) results) <= length sample_body
    /\ ~ In JNull (filter (fun x => negb (is_none x)) results).
Proof.
  apply (pruned_list_is_pruned_items sample_body JNull).
  vm_compute. reflexivity.
Defined.

Lemma loop_input_keys (d node' : list (string * json)) :
  well_keyed d = true -> loop_input d node' ->
  well_keyed node' = true
  /\ forall k v, is_container v = false ->
                 (lookup k node' = Some v <-> lookup k d = Some v).
Proof.
  intros Hwk [->|(facts & kept & _ & Hiter & Hkeep & Hne & ->)];
    [split; [exact Hwk | tauto]|].
  destruct (lookup "facts" d) as [x|] eqn:El.
  - assert (Hx : x = JArr facts).
    { unfold get_default in Hiter. rewrite El in Hiter.
      destruct (kept_facts_from_list x facts kept Hiter Hkeep) as [E|[E _]];
        [contradiction | exact E]. }
    subst x. split.
    + unfold well_keyed. rewrite dict_set_keys; [exact Hwk|].
      apply lookup_In in El. apply in_map_iff. now exists ("facts", JArr facts).
    + intros k v Hv. rewrite lookup_dict_set.
      destruct (String.eqb_spec "facts" k) as [<-|_]; [|tauto].
      rewrite El. split; intros E; injection E as <-; discriminate Hv.
  - exfalso. unfold get_default in Hiter. rewrite El in Hiter.
    cbn in Hiter. injection Hiter as <-. cbn in Hkeep.
    injection Hkeep as <-. now apply Hne.
Qed.

(** X17.  Pruning never touches the scalar fields of an element it keeps:
    the kept element has under a key a value that is not a list or an
    object exactly when the element had that value there before. *)
Theorem scalar_fields_survive (d out : list (string * json))
  (parent_type : json) :
  well_keyed d = true ->
  _prune (JObj d) parent_type = Done (JObj out) ->
  forall k v, is_container v = false ->
              (lookup k out = Some v <-> lookup k d = Some v).
Proof.
  intros Hwk H k v Hv.
  apply _prune_kept in H as (node' & Hin & H).
  apply finish_kept in H as (Hpf & _).
  destruct (loop_input_keys d node' Hwk Hin) as [Hwk' Hlk].
  rewrite <- (Hlk k v Hv).
  rewrite (prune_fields_lookup _ _ _ _ _ k Hwk' Hpf). cbn [lookup].
  destruct (lookup k node') as [v0|]; [|tauto].
  unfold pruned_entry. destruct (is_container v0) eqn:Ec.
  - split; [|intros E; injection E as ->; congruence].
    destruct (_prune v0 (get "type" d)) as [p|e] eqn:Ep; [|discriminate].
    destruct (is_none p) eqn:En; [discriminate|].
    intros E. injection E as ->. exfalso.
    apply _prune_done in Ep.
    destruct v0; try discriminate Ec.
    + destruct Ep as (c & ->). discriminate Hv.
    + destruct Ep as [->|Ed]; [discriminate En|].
      destruct v; discriminate.
  - tauto.
Qed.

Lemma scalar_fields_survive_witness :
  _prune (container [image]) JNull = Done (container [image])
  /\ (lookup "type" [("type", JStr "Container"); ("items", JArr [image])]
      = Some (JStr "Container")
      <-> lookup "type" [("type", JStr "Container"); ("items", JArr [image])]
          = Some (JStr "Container")).
Proof.
  assert (E : _prune (container [image]) JNull = Done (container [image]))
    by (vm_compute; reflexivity).
  split; [exact E|].
  exact (scalar_fields_survive
           [("type", JStr "Container"); ("items", JArr [image])]
           [("type", JStr "Container"); ("items", JArr [image])]
           JNull eq_refl E "type" (JStr "Container") eq_refl).
Defined.

(** X18.  An element that is not a fact set or a grouping and has only
    scalar fields passes through pruning unchanged, unless it is a text
    block with blank text or an [Action.OpenUrl] with a blank url, which
    is dropped. *)
Theorem leaf_element_passes (d : list (string * json)) (parent_type : json) :
  well_keyed d = true ->
  scalar_fields d = true ->
  is_str (get "type" d) "FactSet" = false ->
  is_str (get "type" d) "Container" || is_str (get "type" d) "Column"
  || is_str (get "type" d) "ColumnSet" || is_str (get "type" d) "ActionSet"
  = false ->
  _prune (JObj d) parent_type
  = if (is_str (get "type" d) "TextBlock" && _is_blank (get "text" d))
       || (is_str (get "type" d) "Action.OpenUrl" && _is_blank (get "url" d))
    then Done JNull else Done (JObj d).
Proof.
  intros Hwk Hsc Hfs Hg.
  apply orb_false_iff in Hg as [Hg Has].
  apply orb_false_iff in Hg as [Hg Hcs].
  rewrite _prune_dict. unfold prune_dict. rewrite Hfs.
  destruct (is_str (get "type" d) "TextBlock" && _is_blank (get "text" d));
    [reflexivity|].
  cbn [bind orb].
  destruct (is_str (get "type" d) "Action.OpenUrl" && _is_blank (get "url" d));
    [reflexivity|].
  rewrite (prune_fields_fixed _prune (get "type" d) d []).
  - cbn [bind app]. now rewrite Hg, Hcs, Has.
  - cbn [map app]. now apply distinct_NoDup.
  - now apply scalar_fields_fixed.
Qed.

Lemma leaf_element_passes_witness : _prune image JNull = Done image.
Proof.
  exact (leaf_element_passes
           [("type", JStr "Image"); ("url", JStr "https://example.com/logo.png");
            ("size", JStr "Small")] JNull eq_refl eq_refl eq_refl eq_refl).
Defined.

(** X19.  On any value [_prune] either returns or raises
    [AttributeError] or [TypeError], and it returns on every value of the
    shape of a card; what it returns for an object is an object or
    nothing, for a list a list, for any other value the value itself. *)
Theorem prune_outcomes (node parent_type : json) :
  (forall e, _prune node parent_type = Raised e ->
             e = AttributeError \/ e = TypeError)
  /\ (shape_ok node = true -> exists r, _prune node parent_type = Done r)
  /\ (forall r, _prune node parent_type = Done r ->
        match node with
        | JObj _ => r = JNull \/ is_dict r = true
        | JArr _ => exists children, r = JArr children
        | _ => r = node
        end).
Proof.
  split; [intros e; apply _prune_raised|].
  split; [apply _prune_total | intros r; apply _prune_done].
Qed.

End PruneMore.

(* ===================================================================== *)
(** * The settings and the fallback text *)
(* ===================================================================== *)

Module SettingsMore.
Import PyStr PyVal Settings.

Lemma py_or_truthy (a b : json) : truthy b = true -> truthy (py_or a b) = true.
Proof. intros H. unfold py_or. now destruct (truthy a) eqn:E. Qed.

Lemma py_or_falsy (a b : json) :
  truthy (py_or a b) = false -> truthy a = false /\ truthy b = false.
Proof.
  unfold py_or. destruct (truthy a) eqn:E; [congruence | auto].
Qed.

(** X20.  The first lines of [main] end the program only for want of a
    token, when the option, the environment and the settings file all give
    nothing; otherwise the token and every text setting they resolve is a
    value that counts as true, so an empty option never hides a setting or
    a default. *)
Theorem resolve_outcomes (args : namespace) (env_token : option string)
  (settings : list (string * json)) :
  (forall e, resolve args env_token settings = Raised e ->
             e = exit_failure
             /\ truthy (of_arg (arg_token args)) = false
             /\ truthy (of_arg env_token) = false
             /\ truthy (get "token" settings) = false)
  /\ (forall r, resolve args env_token settings = Done r ->
        truthy (token r) = true /\ truthy (csv_path r) = true
        /\ truthy (log_file r) = true /\ truthy (account r) = true
        /\ truthy (opportunity r) = true /\ truthy (amount r) = true
        /\ truthy (cta_url r) = true /\ truthy (card_json r) = true).
Proof.
  unfold resolve.
  destruct (truthy (py_or (of_arg (arg_token args))
                      (py_or (of_arg env_token) (get "token" settings))))
    eqn:E; cbn [negb]; split; try discriminate.
  - intros r H. injection H as <-. cbn [token csv_path log_file account
      opportunity amount cta_url card_json].
    split; [exact E|].
    repeat split; apply py_or_truthy, py_or_truthy; reflexivity.
  - intros e H. injection H as <-. split; [reflexivity|].
    apply py_or_falsy in E as [E1 E]. apply py_or_falsy in E as [E2 E3]. auto.
Qed.

End SettingsMore.

Module FallbackMore.
Import PyStr PyStrFacts Fallback.

Lemma prefix_app (n s : string) : String.prefix n (n ++ s) = true.
Proof.
  induction n as [|c n IH]; cbn [String.append String.prefix].
  - now destruct s.
  - destruct (ascii_dec c c) as [_|H]; [exact IH | contradiction].
Qed.

Lemma prefix_grow (n s t : string) :
  String.prefix n s = true -> String.prefix n (s ++ t) = true.
Proof.
  revert s. induction n as [|c n IH]; intros s.
  - intros _. now destruct (s ++ t)%string.
  - destruct s as [|d s]; cbn [String.append String.prefix]; [discriminate|].
    destruct (ascii_dec c d); [apply IH | discriminate].
Qed.

Lemma contains_here (n s : string) : contains n (n ++ s) = true.
Proof.
  destruct (n ++ s)%string as [|c r] eqn:E; cbn [contains].
  - rewrite <- E. apply prefix_app.
  - rewrite <- E, prefix_app. reflexivity.
Qed.

Lemma contains_later (n a s : string) :
  contains n s = true -> contains n (a ++ s) = true.
Proof.
  intros H. induction a as [|c a IH]; cbn [String.append contains]; [exact H|].
  rewrite IH. apply orb_true_r.
Qed.

Lemma contains_grow (n s t : string) :
  contains n s = true -> contains n (s ++ t) = true.
Proof.
  induction s as [|c s IH]; cbn [contains String.append].
  - destruct n; [intros _|discriminate]. now destruct t.
  - intros H. apply orb_true_iff in H as [H|H].
    + change (String c (s ++ t)) with (String c s ++ t)%string.
      rewrite (prefix_grow _ _ t H). reflexivity.
    + rewrite IH by exact H. apply orb_true_r.
Qed.

(** X21.  The fallback text names the account, the opportunity and the
    amount, and the due date when one is given; without a due date, or
    with an empty one, the text is the same. *)
Theorem fallback_names_values (em_dash account opportunity amount : string)
  (due : option string) :
  contains account
    (build_fallback_markdown em_dash account opportunity amount due) = true
  /\ contains opportunity
       (build_fallback_markdown em_dash account opportunity amount due) = true
  /\ contains amount
       (build_fallback_markdown em_dash account opportunity amount due) = true
  /\ (forall d, due = Some d -> nonempty d = true ->
        contains d
          (build_fallback_markdown em_dash account opportunity amount due)
        = true)
  /\ build_fallback_markdown em_dash account opportunity amount (Some "")
     = build_fallback_markdown em_dash account opportunity amount None.
Proof.
  assert (Hbase : forall n rest,
             contains n
               ("You have a new **sales opportunity** assigned: **" ++ account
                ++ " " ++ em_dash ++ " " ++ opportunity ++ " (" ++ amount
                ++ ")**.") = true ->
             contains n
               (build_fallback_markdown em_dash account opportunity amount rest)
             = true).
  { intros n rest H. unfold build_fallback_markdown.
    apply contains_grow.
    destruct rest as [d|]; [|exact H].
    destruct (nonempty d); [|exact H]. now apply contains_grow. }
  split; [apply Hbase, contains_later, contains_here|].
  split; [apply Hbase; do 5 apply contains_later; apply contains_here|].
  split; [apply Hbase; do 7 apply contains_later; apply contains_here|].
  split; [|reflexivity].
  intros d -> Hd. unfold build_fallback_markdown. rewrite Hd.
  apply contains_grow, contains_later, contains_later, contains_here.
Qed.

End FallbackMore.

(* ===================================================================== *)
(** * The rows of the log, for any run *)
(* ===================================================================== *)

Module RowsMore.
Import PyStr PyStrFacts PyVal Loader LoaderSpec Renderer Logger Orchestrator.
Import OrchestratorSpec RunSpec MoreSpec Main MainSpec.
Import AttemptFacts RunFacts BatchFacts LogFacts AttemptMore MainMore.
Local Open Scope Z_scope.

Lemma attempt_loop_tidy (cfg : config) (w : world) (to_email : string)
  (todo : list Z) (st st' : attempt_state) (tr : list event) :
  tidy st ->
  (forall a, In a todo -> attempts st <= a) ->
  attempt_loop cfg w to_email todo st = (tr, Done st') ->
  tidy st'
  /\ (attempts st' = attempts st \/ In (attempts st') todo).
Proof.
  intros [Hlen Hfree] Hmono H.
  destruct (dry_run cfg) eqn:Hdry.
  - destruct todo as [|a todo]; cbn [attempt_loop] in H.
    + injection H as _ <-. split; [now split | now left].
    + rewrite Hdry in H. injection H as _ <-. cbn [attempts].
      split; [now split | right; now left].
  - destruct (first_success
                (fun a => failed_attempt (send_message_to_email w to_email a))
                todo)
      as [Hall|(failing & a & rest & -> & Hfail & Ha)].
    + rewrite (attempt_loop_all_fail cfg w to_email _ _ Hdry Hall) in H.
      injection H as _ <-.
      split; [now apply fold_fail_preview|].
      rewrite fold_fail_attempts.
      destruct todo as [|a todo]; [now left|]. right.
      destruct (exists_last (l := a :: todo)) as (l' & z & E); [discriminate|].
      rewrite E, last_last. apply in_or_app. right. now left.
    + rewrite (attempt_loop_fail_prefix cfg w to_email failing (a :: rest)
                 st Hdry Hfail) in H.
      destruct (send_message_to_email w to_email a) as [resp|msg] eqn:Es;
        [|discriminate Ha].
      cbn [failed_attempt] in Ha. apply negb_false_iff in Ha.
      rewrite (attempt_loop_success cfg w to_email a rest _ resp Hdry Es Ha) in H.
      cbn [fst snd] in H.
      destruct (body_id (json_body resp)) as [id|e]; [|discriminate H].
      injection H as _ <-. cbn [attempts]. split.
      * unfold tidy. cbn [error_preview]. now apply fold_fail_preview.
      * right. apply in_or_app. right. now left.
Qed.

Lemma attempt_recipient_tidy (cfg : config) (w : world) (to_email : string)
  (st : attempt_state) :
  snd (attempt_recipient cfg w to_email) = Done st ->
  tidy st /\ 0 <= attempts st <= Z.max 0 (retry_count cfg).
Proof.
  unfold attempt_recipient.
  destruct (attempt_loop cfg w to_email (range 1 (retry_count cfg + 1))
              initial_state) as [tr r] eqn:E.
  cbn [snd]. intros ->.
  apply attempt_loop_tidy in E as [Ht Ha].
  - split; [exact Ht|]. destruct Ha as [->|Ha]; [cbn; lia|].
    apply range_In in Ha. lia.
  - split; [cbn; lia | exact I].
  - intros a Ha. apply range_In in Ha. cbn. lia.
Qed.

Lemma deliver_rows_origin (cfg : config) (w : world) (to_email : string)
  (t : totals) (row : log_row) :
  In row (logged_rows (fst (deliver cfg w to_email t))) ->
  exists st, snd (attempt_recipient cfg w to_email) = Done st
             /\ row = result_row w to_email st.
Proof.
  pose proof (deliver_cases cfg w to_email t) as H.
  pose proof (attempt_loop_quiet cfg w to_email
                (range 1 (retry_count cfg + 1)) initial_state) as [Hq _].
  fold (attempt_recipient cfg w to_email) in Hq.
  destruct (attempt_recipient cfg w to_email) as [tr [st|e]];
    rewrite H; cbn [fst snd] in *.
  - rewrite logged_rows_app, Hq. intros [<-|[]]. now exists st.
  - rewrite Hq. intros [].
Qed.

Lemma deliver_batch_rows_origin (cfg : config) (w : world)
  (batch : list string) (t : totals) (row : log_row) :
  In row (logged_rows (fst (deliver_batch cfg w batch t))) ->
  exists to_email st,
    In to_email batch
    /\ snd (attempt_recipient cfg w to_email) = Done st
    /\ row = result_row w to_email st.
Proof.
  revert t. induction batch as [|to_email rest IH]; intros t;
    cbn [deliver_batch]; [intros []|].
  destruct (bind_eff_trace (deliver cfg w to_email t)
              (fun t0 => deliver_batch cfg w rest t0)) as (t2 & -> & Ht2).
  rewrite logged_rows_app, in_app_iff. intros [H|H].
  - apply deliver_rows_origin in H as (st & Hst & ->).
    exists to_email, st. split; [now left | now split].
  - destruct Ht2 as [->|(t' & _ & ->)]; [destruct H|].
    apply IH in H as (x & st & Hx & Hst & ->).
    exists x, st. split; [now right | now split].
Qed.

Lemma batch_loop_rows_origin (cfg : config) (w : world) (n_emails : Z)
  (batches : list (list string)) (batch_index : Z) (t : totals)
  (row : log_row) :
  In row (logged_rows
            (fst (batch_loop cfg w n_emails batches batch_index t))) ->
  exists to_email st,
    In to_email (concat batches)
    /\ snd (attempt_recipient cfg w to_email) = Done st
    /\ row = result_row w to_email st.
Proof.
  revert batch_index t. induction batches as [|batch rest IH];
    intros batch_index t; cbn [batch_loop]; [intros []|].
  assert (Hb : forall r0,
             In r0 (logged_rows (fst (deliver_batch cfg w batch t))) ->
             exists to_email st,
               In to_email (concat (batch :: rest))
               /\ snd (attempt_recipient cfg w to_email) = Done st
               /\ r0 = result_row w to_email st).
  { intros r0 H. apply deliver_batch_rows_origin in H as (x & st & Hx & Hst).
    exists x, st. split; [apply in_or_app; now left | exact Hst]. }
  destruct (deliver_batch cfg w batch t) as [t1 [t'|e1]] eqn:Ed.
  - rewrite bind_eff_done. cbn [fst snd].
    destruct (pause_events cfg n_emails (batch_index + 1))
      as (tp & -> & Hp1 & _).
    rewrite bind_eff_done. cbn [fst snd].
    rewrite !logged_rows_app, Hp1, !in_app_iff.
    intros [H|[[]|H]]; [now apply Hb|].
    apply IH in H as (x & st & Hx & Hst).
    exists x, st. split; [apply in_or_app; now right | exact Hst].
  - rewrite bind_eff_raised. cbn [fst]. apply Hb.
Qed.

(** X22.  Every row that a run writes, whether the run completes or is
    aborted, is the row of a recipient of the list whose attempt loop came
    to an end: seven cells like the header, the address in the second,
    [sent] or [failed] in the third, a number of attempts between 0 and
    the retry count in the fourth, and in the last a text of at most 300
    characters on one line. *)
Theorem rows_are_well_formed (cfg : config) (w : world) (emails : list string)
  (row : log_row) :
  In row (logged_rows (fst (main_loop cfg w emails))) ->
  length row = length header
  /\ is_data_row row = true
  /\ exists to_email n s,
       In to_email emails
       /\ cell 0 row = JStr (now w to_email)
       /\ cell 1 row = JStr to_email
       /\ cell 3 row = JInt n /\ 0 <= n <= Z.max 0 (retry_count cfg)
       /\ cell 6 row = JStr s
       /\ (String.length s <= 300)%nat /\ free_of newline s.
Proof.
  intros H.
  assert (Ho : exists to_email st,
             In to_email emails
             /\ snd (attempt_recipient cfg w to_email) = Done st
             /\ row = result_row w to_email st).
  { destruct (main_loop_cases cfg w emails)
      as [[_ E]|[[_ E]|[_ (batches & Hc & E)]]]; rewrite E in H;
      [destruct H|destruct H|].
    apply batch_loop_rows_origin in H. now rewrite Hc in H. }
  destruct Ho as (x & st & Hx & Hst & ->).
  apply attempt_recipient_tidy in Hst as [[Hlen Hfree] Hn].
  split; [unfold result_row; now destruct (ok st)|].
  split; [apply result_row_shape|].
  unfold result_row.
  destruct (ok st); eexists x, (attempts st), _;
    (split; [exact Hx|]); (split; [reflexivity|]); (split; [reflexivity|]);
    (split; [reflexivity|]); (split; [exact Hn|]); (split; [reflexivity|]).
  - split; [cbn; lia | exact I].
  - now split.
Qed.

Lemma rows_are_well_formed_witness :
  In (failed_row mixed "bob@example.com"
        {| attempts := 3; last_status := JInt 500; message_id := JStr "";
           error_preview := "Internal error"; ok := false |})
     (logged_rows (fst (main_loop pairs mixed trio)))
  /\ length (failed_row mixed "bob@example.com"
               {| attempts := 3; last_status := JInt 500; message_id := JStr "";
                  error_preview := "Internal error"; ok := false |})
     = length header.
Proof.
  assert (H : In (failed_row mixed "bob@example.com"
                    {| attempts := 3; last_status := JInt 500;
                       message_id := JStr "";
                       error_preview := "Internal error"; ok := false |})
                (logged_rows (fst (main_loop pairs mixed trio))))
    by (vm_compute; tauto).
  split; [exact H|].
  exact (proj1 (rows_are_well_formed pairs mixed trio _ H)).
Defined.

(** X23.  From the CSV file to the transport: every call that the program
    makes is for an address that [load_emails] read from the file, with an
    attempt number between 1 and the retry count; none is made in a dry
    run, and none unless the card template was rendered. *)
Theorem calls_come_from_the_file (csv_reader : string -> list csv_row)
  (j : job) (w : world) (fs : file_system) (x : string) (k : Z) :
  In (x, k) (transport_calls (fst (snd (main_from_csv csv_reader j w fs)))) ->
  dry_run (job_config j) = false
  /\ 1 <= k <= retry_count (job_config j)
  /\ exists content card,
       job_csv j = Some content
       /\ In x (load_emails csv_reader content)
       /\ load_card_json (job_template j) (make_variables j) = Done card.
Proof.
  destruct (main_from_csv_cases csv_reader j w fs)
    as [(e & -> & _)|(content & emails & card & Hc & He & _ & Hcard & ->)];
    [intros []|].
  unfold run. cbn [fst snd]. intros H.
  apply main_loop_calls in H as [Hx Hk].
  split.
  { destruct (dry_run (job_config j)) eqn:Hdry; [|reflexivity].
    unfold attempt_recipient in Hk.
    rewrite (proj1 (attempt_loop_dry _ w x _ initial_state Hdry)) in Hk.
    destruct Hk. }
  split; [now apply attempt_recipient_calls in Hk|].
  rewrite <- He in Hx.
  exists content, card. auto.
Qed.

Lemma calls_come_from_the_file_witness :
  In ("ann@example.com", 1)
     (transport_calls (fst (snd (main_from_csv simple_reader sample_job flaky
                                   no_files))))
  /\ dry_run (job_config sample_job) = false
  /\ In "ann@example.com" (load_emails simple_reader capitalised_file).
Proof.
  assert (H : In ("ann@example.com", 1)
                (transport_calls
                   (fst (snd (main_from_csv simple_reader sample_job flaky
                                no_files)))))
    by (vm_compute; tauto).
  split; [exact H|].
  destruct (calls_come_from_the_file simple_reader sample_job flaky no_files
              _ _ H) as (Hdry & _ & content & card & Hc & Hin & _).
  split; [exact Hdry|].
  injection Hc as <-. exact Hin.
Defined.

End RowsMore.
